(** * Spotify -> YouTube playlist porter: the transfer pipeline

    A shallow embedding of [src/spotify.ts] (paginated listings),
    [src/youtube.ts] (search, playlist creation, item insertion),
    [src/transfer.ts] (the per-playlist orchestrator) and the [transfer]
    command of [src/cli.ts] (selection and the outer loop).

    The two remote services are a parameter: a record of handlers over an
    abstract remote state.  A computation threads that state, appends to a
    trace of console lines and requests, and ends by returning, by throwing
    a JavaScript error, by [process.exit] or by running out of fuel (only
    the two [while (url)] pagination loops need fuel). *)

From Stdlib Require Import String Ascii List Bool Arith ZArith Lia.
Import ListNotations.
Open Scope string_scope.
Open Scope list_scope.

(** ** JavaScript values *)

Module Js.

(** Truthiness of a string: only the empty string is falsy. *)
Definition truthy (s : string) : bool :=
  match s with EmptyString => false | String _ _ => true end.

(** Truthiness of a [string | null | undefined]. *)
Definition truthy_opt (o : option string) : bool :=
  match o with Some s => truthy s | None => false end.

(** [a || b] where [a : string | null] and [b : string]. *)
Definition or_else (a : option string) (b : string) : string :=
  match a with
  | Some s => if truthy s then s else b
  | None => b
  end.

(** [Array.prototype.join] on an array of strings. *)
Definition join (sep : string) (l : list string) : string :=
  String.concat sep l.

(** [Array.prototype.includes] on an array of strings. *)
Definition includes (l : list string) (x : string) : bool :=
  existsb (String.eqb x) l.

Fixpoint drop (n : nat) (s : string) : string :=
  match n, s with
  | S n', String _ s' => drop n' s'
  | _, _ => s
  end.

(** [String.prototype.includes]. *)
Fixpoint str_includes (pat s : string) : bool :=
  if String.prefix pat s then true
  else match s with
       | EmptyString => false
       | String _ s' => str_includes pat s'
       end.

(** [s.replace(pat, "")] with a string pattern: the first occurrence of
    [pat] is removed, the rest is kept. *)
Fixpoint replace_first (pat s : string) : string :=
  if String.prefix pat s then drop (String.length pat) s
  else match s with
       | EmptyString => EmptyString
       | String c s' => String c (replace_first pat s')
       end.

End Js.

(** ** Data model *)

(** [SpotifyPlaylist] of spotify.ts.  The declared type of [description] is
    [string]; the field is kept nullable so that an absent description is
    covered too ([||] treats null and the empty string alike). *)
Record SpotifyPlaylist := mkPlaylist {
  pl_id : string;
  pl_name : string;
  pl_description : option string;
  pl_owner_id : string;
  pl_owner_display_name : string;
  pl_tracks_href : string;
  pl_tracks_total : Z
}.

Record Artist := mkArtist { artist_name : string }.

Record Track := mkTrack {
  track_id : string;
  track_name : string;
  track_artists : list Artist;
  track_album : string;
  track_duration_ms : Z
}.

(** [SpotifyTrack]: a playlist entry, whose [track] is null when the source
    marks it unavailable. *)
Record SpotifyTrack := mkItem { track : option Track }.

Record SpotifyUser := mkUser { user_id : string; user_display_name : string }.

Record SpotifyToken := mkToken { access_token : string }.

Record YouTubeVideo := mkVideo {
  videoId : string;
  video_title : string;
  video_channelTitle : string
}.

(** One page of a paginated listing: [{ items, next }]. *)
Record Page (A : Type) := mkPage { items : list A; next : option string }.
Arguments mkPage {A} _ _.
Arguments items {A} _.
Arguments next {A} _.

(** [response.data] of a search: [items] may be missing. *)
Record SearchData := mkSearchData { search_items : option (list YouTubeVideo) }.

(** ** Errors *)

(** [error.response.data.error.errors[i]] *)
Record ErrorDetails := mkDetails {
  reason : option string;
  details_message : option string
}.

(** [error.response.data.error] *)
Record ApiError := mkApiError {
  api_message : option string;
  api_errors : list ErrorDetails
}.

(** A thrown value: an axios error with the remote's error body, or a plain
    [Error] (no [response]). *)
Record JsError := mkError {
  message : string;
  response_error : option ApiError
}.

Definition newError (msg : string) : JsError := mkError msg None.

(** ** Requests *)

Record SearchParams := mkSearchParams {
  sp_part : string;
  sp_q : string;
  sp_type : string;
  sp_videoCategoryId : string;
  sp_maxResults : Z
}.

Record PlaylistBody := mkPlaylistBody {
  pb_title : string;
  pb_description : string;
  pb_privacyStatus : string
}.

Record PlaylistItemBody := mkItemBody {
  ib_playlistId : string;
  ib_kind : string;
  ib_videoId : string
}.

(** A checkbox of the interactive prompt: the label shows the name, the
    track total and the id; the value is the id. *)
Record Choice := mkChoice {
  choice_name : string;
  choice_total : Z;
  choice_id : string;
  choice_value : string
}.

(** ** Console lines

    One constructor per [console.log] / [console.warn] / [console.error]
    call of the sources, carrying the values interpolated into the line
    (colours left out).  [LogSelectedByIds] carries the names that the line
    joins, or replaces by a fixed text when there is none; the summary line
    of the failed count is printed only when the count is positive. *)

Inductive LogLine :=
(* spotify.ts *)
| LogUserProfileError (e : JsError)
| LogFetchingPlaylists
| LogNextPagePlaylists
| LogFoundPlaylists (n : nat)
| LogFetchPlaylistsError (e : JsError)
| LogFetchingTracks (playlistId : string)
| LogNextPageTracks
| LogFoundTracks (n : nat)
| LogFetchTracksError (playlistId : string) (e : JsError)
(* youtube.ts *)
| LogSearching (query : string)
| LogFound (title vid : string)
| LogNoVideo (query : string)
| LogSearchError (query : string) (e : JsError)
| LogCreating (title : string)
| LogCreated (playlistId : string)
| LogCreateError (title : string) (e : JsError)
| LogAddDuplicate (vid playlistId : string)
| LogAddForbidden (vid : string)
| LogAddError (vid playlistId : string) (e : JsError)
(* transfer.ts *)
| LogProcessing (name id : string)
| LogEmptySkipping (name : string)
| LogCreateFailedSkipping (name : string)
| LogAttempting (n : nat)
| LogTrackAdded (i total : nat) (name artists title : string)
| LogTrackFailed (i total : nat) (name artists : string)
| LogTrackNotFound (i total : nat) (name artists : string)
| LogFinished (name : string)
| LogSummaryAdded (n : nat)
| LogSummaryNotFound (n : nat)
| LogSummaryFailed (n : nat)
| LogPlaylistLink (playlistId : string)
(* cli.ts *)
| LogBanner
| LogNotConfigured
| LogAuthenticatingSpotify
| LogAuthenticatingGoogle
| LogAuthFailed (msg : string)
| LogLoggedIn (display_name id : string)
| LogUserDataFailed (msg : string)
| LogNoPlaylists
| LogSelectedAll (n : nat)
| LogSelectedByIds (n : nat) (foundNames : list string)
| LogWarnNotFound (notFoundIds : list string)
| LogNoneSelected
| LogStarting (n : nat)
| LogAllComplete.

(** What a run does that the outside can see, in order. *)
Inductive Event :=
| Log (l : LogLine)
| SpotifyGet (url : string)
| SpotifyAuth
| YouTubeAuth
| YtSearch (p : SearchParams)
| YtCreatePlaylist (b : PlaylistBody)
| YtAddItem (b : PlaylistItemBody)
| Sleep (ms : Z)
| Prompt (choices : list Choice).

(** ** Remote services *)

Record Services (Remote : Type) := mkServices {
  (** [client.get(url)] on the Spotify client, for the three resources *)
  spotify_me : Remote -> (JsError + SpotifyUser) * Remote;
  spotify_playlists : string -> Remote -> (JsError + Page SpotifyPlaylist) * Remote;
  spotify_tracks : string -> Remote -> (JsError + Page SpotifyTrack) * Remote;
  (** [client.get("/search", ...)], [client.post("/playlists", ...)] and
      [client.post("/playlistItems", ...)] on the YouTube client; the id of a
      created playlist is [response.data.id] *)
  youtube_search : SearchParams -> Remote -> (JsError + SearchData) * Remote;
  youtube_playlists : PlaylistBody -> Remote -> (JsError + string) * Remote;
  youtube_playlistItems : PlaylistItemBody -> Remote -> (JsError + unit) * Remote;
  (** token acquisition, and the checkbox prompt of inquirer *)
  spotify_token : Remote -> (JsError + SpotifyToken) * Remote;
  youtube_token : Remote -> (JsError + unit) * Remote;
  prompt_checkbox : list Choice -> Remote -> list string * Remote
}.
Arguments spotify_me {Remote} _ _.
Arguments spotify_playlists {Remote} _ _ _.
Arguments spotify_tracks {Remote} _ _ _.
Arguments youtube_search {Remote} _ _ _.
Arguments youtube_playlists {Remote} _ _ _.
Arguments youtube_playlistItems {Remote} _ _ _.
Arguments spotify_token {Remote} _ _.
Arguments youtube_token {Remote} _ _.
Arguments prompt_checkbox {Remote} _ _ _.

(** ** The monad of runs *)

Inductive Outcome (A : Type) :=
| Returned (a : A)
| Thrown (e : JsError)
| Exited (code : Z)
| OutOfFuel.
Arguments Returned {A} _.
Arguments Thrown {A} _.
Arguments Exited {A} _.
Arguments OutOfFuel {A}.

Definition M (Remote A : Type) : Type :=
  Remote -> Outcome A * Remote * list Event.

Section Monad.
Context {Remote : Type}.

Definition ret {A} (a : A) : M Remote A := fun r => (Returned a, r, []).

Definition bind {A B} (m : M Remote A) (k : A -> M Remote B) : M Remote B :=
  fun r =>
    match m r with
    | (Returned a, r1, t1) =>
        let '(o, r2, t2) := k a r1 in (o, r2, t1 ++ t2)
    | (Thrown e, r1, t1) => (Thrown e, r1, t1)
    | (Exited c, r1, t1) => (Exited c, r1, t1)
    | (OutOfFuel, r1, t1) => (OutOfFuel, r1, t1)
    end.

Definition throw {A} (e : JsError) : M Remote A := fun r => (Thrown e, r, []).

(** [process.exit(code)] *)
Definition exit {A} (code : Z) : M Remote A := fun r => (Exited code, r, []).

Definition out_of_fuel {A} : M Remote A := fun r => (OutOfFuel, r, []).

Definition emit (e : Event) : M Remote unit := fun r => (Returned tt, r, [e]).

Definition log (l : LogLine) : M Remote unit := emit (Log l).

(** [try { m } catch (error) { h error }]: only a thrown error is caught. *)
Definition try_catch {A} (m : M Remote A) (h : JsError -> M Remote A)
  : M Remote A :=
  fun r =>
    match m r with
    | (Thrown e, r1, t1) =>
        let '(o, r2, t2) := h e r1 in (o, r2, t1 ++ t2)
    | res => res
    end.

(** An awaited request: the request is recorded, then the remote answers
    or the await throws. *)
Definition request {A} (ev : Event)
    (op : Remote -> (JsError + A) * Remote) : M Remote A :=
  fun r =>
    match op r with
    | (inl e, r1) => (Thrown e, r1, [ev])
    | (inr a, r1) => (Returned a, r1, [ev])
    end.

End Monad.

Declare Scope run_scope.
Delimit Scope run_scope with run.
Notation "x <- m ;; k" := (bind m (fun x => k))
  (at level 61, m at next level, right associativity) : run_scope.
Notation "m ;; k" := (bind m (fun _ => k))
  (at level 61, right associativity) : run_scope.
Open Scope run_scope.

Definition outcome {R A} (x : Outcome A * R * list Event) : Outcome A := fst (fst x).
Definition final {R A} (x : Outcome A * R * list Event) : R := snd (fst x).
Definition trace {R A} (x : Outcome A * R * list Event) : list Event := snd x.

(** ** The program *)

(** The part of an [AxiosInstance] the code reads: [client.defaults.baseURL]. *)
Record AxiosInstance := mkClient { baseURL : string }.

Record Counts := mkCounts {
  addedCount : nat;
  notFoundCount : nat;
  failedCount : nat
}.

(** The settings the [transfer] command reads from the config store. *)
Record Config := mkConfig {
  spotifyClientId : option string;
  googleClientId : option string
}.

(** The parsed options of the [transfer] command: [--all] and
    [-p, --playlist <ids...>]. *)
Record Options := mkOptions {
  opt_all : bool;
  opt_playlist : option (list string)
}.

Section Program.
Context {Remote : Type} (svc : Services Remote).

Local Abbreviation M := (M Remote).

(** *** spotify.ts *)

Definition createSpotifyClient (token : SpotifyToken) : AxiosInstance :=
  mkClient "https://api.spotify.com/v1".

Definition getCurrentUserSpotify (client : AxiosInstance) : M SpotifyUser :=
  try_catch
    (request (SpotifyGet "/me") (spotify_me svc))
    (fun error =>
       log (LogUserProfileError error) ;;
       throw (newError "Could not fetch Spotify user profile.")).

(** The [while (url)] loop of [getUserPlaylistsSpotify]. *)
Fixpoint playlistsLoop (fuel : nat) (client : AxiosInstance)
    (url : option string) (playlists : list SpotifyPlaylist)
  : M (list SpotifyPlaylist) :=
  match url with
  | None => ret playlists
  | Some u =>
      if negb (Js.truthy u) then ret playlists
      else
        match fuel with
        | O => out_of_fuel
        | S fuel' =>
            response <- request (SpotifyGet u) (spotify_playlists svc u) ;;
            let playlists := playlists ++ items response in
            let url := next response in
            url <- (if Js.truthy_opt url
                    then log LogNextPagePlaylists ;;
                         ret (option_map (Js.replace_first (baseURL client)) url)
                    else ret url) ;;
            playlistsLoop fuel' client url playlists
        end
  end.

Definition getUserPlaylistsSpotify (fuel : nat) (client : AxiosInstance)
    (userId : string) : M (list SpotifyPlaylist) :=
  let url := Some ("/users/" ++ userId ++ "/playlists?limit=50")%string in
  log LogFetchingPlaylists ;;
  try_catch
    (playlists <- playlistsLoop fuel client url [] ;;
     log (LogFoundPlaylists (length playlists)) ;;
     ret playlists)
    (fun error =>
       log (LogFetchPlaylistsError error) ;;
       throw (newError "Could not fetch Spotify playlists.")).

(** [item.track !== null] *)
Definition available (item : SpotifyTrack) : bool :=
  match track item with Some _ => true | None => false end.

(** The [while (url)] loop of [getPlaylistTracksSpotify]. *)
Fixpoint tracksLoop (fuel : nat) (client : AxiosInstance)
    (url : option string) (tracks : list SpotifyTrack)
  : M (list SpotifyTrack) :=
  match url with
  | None => ret tracks
  | Some u =>
      if negb (Js.truthy u) then ret tracks
      else
        match fuel with
        | O => out_of_fuel
        | S fuel' =>
            response <- request (SpotifyGet u) (spotify_tracks svc u) ;;
            let validItems := filter available (items response) in
            let tracks := tracks ++ validItems in
            let url := next response in
            url <- (if Js.truthy_opt url
                    then log LogNextPageTracks ;;
                         ret (option_map (Js.replace_first (baseURL client)) url)
                    else ret url) ;;
            tracksLoop fuel' client url tracks
        end
  end.

Definition tracksUrl (playlistId : string) : string :=
  ("/playlists/" ++ playlistId ++
   "/tracks?fields=items(track(id,name,artists(name),album(name),duration_ms)),next&limit=100")%string.

Definition fetchTracksError (playlistId : string) : JsError :=
  newError ("Could not fetch tracks for playlist " ++ playlistId ++ ".")%string.

Definition getPlaylistTracksSpotify (fuel : nat) (client : AxiosInstance)
    (playlistId : string) : M (list SpotifyTrack) :=
  let url := Some (tracksUrl playlistId) in
  log (LogFetchingTracks playlistId) ;;
  try_catch
    (tracks <- tracksLoop fuel client url [] ;;
     log (LogFoundTracks (length tracks)) ;;
     ret tracks)
    (fun error =>
       log (LogFetchTracksError playlistId error) ;;
       throw (fetchTracksError playlistId)).

(** *** youtube.ts *)

(** The query of [searchYouTubeVideo]: [`${trackName} ${artistName}`]. *)
Definition searchQuery (trackName artistName : string) : string :=
  (trackName ++ " " ++ artistName)%string.

Definition searchParams (query : string) : SearchParams :=
  {| sp_part := "snippet";
     sp_q := query;
     sp_type := "video";
     sp_videoCategoryId := "10";
     sp_maxResults := 5 |}.

Definition searchYouTubeVideo (trackName artistName : string)
  : M (option YouTubeVideo) :=
  let query := searchQuery trackName artistName in
  log (LogSearching query) ;;
  try_catch
    (response <- request (YtSearch (searchParams query))
                   (youtube_search svc (searchParams query)) ;;
     match search_items response with
     | Some (bestResult :: _) =>
         log (LogFound (video_title bestResult) (videoId bestResult)) ;;
         ret (Some bestResult)
     | _ =>
         log (LogNoVideo query) ;;
         ret None
     end)
    (fun error =>
       log (LogSearchError query error) ;;
       ret None).

Definition playlistBody (title description : string) : PlaylistBody :=
  {| pb_title := title;
     pb_description :=
       Js.or_else (Some description)
         ("Playlist migrated from Spotify - " ++ title)%string;
     pb_privacyStatus := "private" |}.

Definition createYouTubePlaylist (title description : string)
  : M (option string) :=
  log (LogCreating title) ;;
  try_catch
    (playlistId <- request (YtCreatePlaylist (playlistBody title description))
                     (youtube_playlists svc (playlistBody title description)) ;;
     log (LogCreated playlistId) ;;
     ret (Some playlistId))
    (fun error =>
       log (LogCreateError title error) ;;
       ret None).

Definition playlistItemBody (playlistId vid : string) : PlaylistItemBody :=
  {| ib_playlistId := playlistId;
     ib_kind := "youtube#video";
     ib_videoId := vid |}.

(** [error.response?.data?.error?.errors?.[0]] *)
Definition errorDetails (error : JsError) : option ErrorDetails :=
  match response_error error with
  | Some e => hd_error (api_errors e)
  | None => None
  end.

(** [errorDetails?.reason === r] *)
Definition reason_is (d : option ErrorDetails) (r : string) : bool :=
  match d with
  | Some {| reason := Some x |} => String.eqb x r
  | _ => false
  end.

(** [error.response?.data?.error?.message?.includes(s)], undefined counting
    as false. *)
Definition api_message_includes (error : JsError) (s : string) : bool :=
  match response_error error with
  | Some {| api_message := Some m |} => Js.str_includes s m
  | _ => false
  end.

Definition addVideoToYouTubePlaylist (playlistId vid : string) : M bool :=
  try_catch
    (request (YtAddItem (playlistItemBody playlistId vid))
       (youtube_playlistItems svc (playlistItemBody playlistId vid)) ;;
     ret true)
    (fun error =>
       let errorDetails := errorDetails error in
       if reason_is errorDetails "duplicate"
          || reason_is errorDetails "playlistItemDuplicate"
       then log (LogAddDuplicate vid playlistId) ;; ret true
       else if reason_is errorDetails "forbidden"
               && api_message_includes error "video owner has disabled comments"
       then log (LogAddForbidden vid) ;; ret false
       else log (LogAddError vid playlistId error) ;; ret false).

(** *** transfer.ts *)

(** [track.artists.map((a) => a.name).join(", ")] *)
Definition artistNames (t : Track) : string :=
  Js.join ", " (map artist_name (track_artists t)).

(** The body of the [for] loop of [transferPlaylist], at index [i] of
    [total] entries. *)
Definition transferTrack (youtubePlaylistId : string) (total i : nat)
    (item : SpotifyTrack) (c : Counts) : M Counts :=
  match track item with
  | None => ret c
  | Some track =>
      let artistNames := artistNames track in
      emit (Sleep 300) ;;
      youtubeVideo <- searchYouTubeVideo (track_name track) artistNames ;;
      match youtubeVideo with
      | Some v =>
          if Js.truthy (videoId v) then
            success <- addVideoToYouTubePlaylist youtubePlaylistId (videoId v) ;;
            if success : bool then
              log (LogTrackAdded (i + 1) total (track_name track) artistNames
                     (video_title v)) ;;
              ret (mkCounts (addedCount c + 1) (notFoundCount c) (failedCount c))
            else
              log (LogTrackFailed (i + 1) total (track_name track) artistNames) ;;
              ret (mkCounts (addedCount c) (notFoundCount c) (failedCount c + 1))
          else
            log (LogTrackNotFound (i + 1) total (track_name track) artistNames) ;;
            ret (mkCounts (addedCount c) (notFoundCount c + 1) (failedCount c))
      | None =>
          log (LogTrackNotFound (i + 1) total (track_name track) artistNames) ;;
          ret (mkCounts (addedCount c) (notFoundCount c + 1) (failedCount c))
      end
  end.

(** The [for] loop, from index [i] on; [rest] is [spotifyTracks.slice(i)]. *)
Fixpoint transferLoop (youtubePlaylistId : string) (total i : nat)
    (rest : list SpotifyTrack) (c : Counts) : M Counts :=
  match rest with
  | [] => ret c
  | item :: rest' =>
      c' <- transferTrack youtubePlaylistId total i item c ;;
      transferLoop youtubePlaylistId total (i + 1) rest' c'
  end.

Definition newPlaylistDescription (spotifyPlaylist : SpotifyPlaylist) : string :=
  Js.or_else (pl_description spotifyPlaylist)
    ("Migrated from Spotify: " ++ pl_name spotifyPlaylist)%string.

(** The closing lines of [transferPlaylist]. *)
Definition summary (name : string) (c : Counts) (youtubePlaylistId : string)
  : M unit :=
  log (LogFinished name) ;;
  log (LogSummaryAdded (addedCount c)) ;;
  log (LogSummaryNotFound (notFoundCount c)) ;;
  (if (0 <? failedCount c)%nat then log (LogSummaryFailed (failedCount c))
   else ret tt) ;;
  log (LogPlaylistLink youtubePlaylistId).

Definition transferPlaylist (fuel : nat) (spotifyClient : AxiosInstance)
    (spotifyPlaylist : SpotifyPlaylist) : M unit :=
  log (LogProcessing (pl_name spotifyPlaylist) (pl_id spotifyPlaylist)) ;;
  spotifyTracks <- getPlaylistTracksSpotify fuel spotifyClient
                     (pl_id spotifyPlaylist) ;;
  if (length spotifyTracks =? 0)%nat then
    log (LogEmptySkipping (pl_name spotifyPlaylist)) ;;
    ret tt
  else
    let newPlaylistTitle := pl_name spotifyPlaylist in
    youtubePlaylistId <- createYouTubePlaylist newPlaylistTitle
                           (newPlaylistDescription spotifyPlaylist) ;;
    let createFailed :=
      log (LogCreateFailedSkipping (pl_name spotifyPlaylist)) ;;
      ret tt in
    match youtubePlaylistId with
    | None => createFailed
    | Some youtubePlaylistId =>
        if negb (Js.truthy youtubePlaylistId) then createFailed
        else
          log (LogAttempting (length spotifyTracks)) ;;
          c <- transferLoop youtubePlaylistId (length spotifyTracks) 0
                 spotifyTracks (mkCounts 0 0 0) ;;
          summary (pl_name spotifyPlaylist) c youtubePlaylistId
    end.

(** *** cli.ts: the [transfer] command *)

(** An awaited call that cannot fail. *)
Definition perform {A} (ev : Event) (op : Remote -> A * Remote) : M A :=
  fun r => let '(a, r1) := op r in (Returned a, r1, [ev]).

Definition playlistChoices (allSpotifyPlaylists : list SpotifyPlaylist)
  : list Choice :=
  map (fun p => mkChoice (pl_name p) (pl_tracks_total p) (pl_id p) (pl_id p))
    allSpotifyPlaylists.

(** The selection block: [--all], then [--playlist ids], then the prompt. *)
Definition selectPlaylists (options : Options)
    (allSpotifyPlaylists : list SpotifyPlaylist) : M (list SpotifyPlaylist) :=
  let interactive :=
    let playlistChoices := playlistChoices allSpotifyPlaylists in
    selectedIds <- perform (Prompt playlistChoices)
                     (prompt_checkbox svc playlistChoices) ;;
    ret (filter (fun p => Js.includes selectedIds (pl_id p))
           allSpotifyPlaylists) in
  if opt_all options then
    let playlistsToTransfer := allSpotifyPlaylists in
    log (LogSelectedAll (length playlistsToTransfer)) ;;
    ret playlistsToTransfer
  else
    match opt_playlist options with
    | Some ((_ :: _) as playlist) =>
        let playlistsToTransfer :=
          filter (fun p => Js.includes playlist (pl_id p))
            allSpotifyPlaylists in
        let foundNames := map pl_name playlistsToTransfer in
        let notFoundIds :=
          filter (fun id =>
                    negb (existsb (fun p => String.eqb (pl_id p) id)
                            playlistsToTransfer))
            playlist in
        log (LogSelectedByIds (length playlistsToTransfer) foundNames) ;;
        (if (0 <? length notFoundIds)%nat
         then log (LogWarnNotFound notFoundIds)
         else ret tt) ;;
        ret playlistsToTransfer
    | _ => interactive
    end.

(** [for (const playlist of playlistsToTransfer) await transferPlaylist(...)] *)
Fixpoint transferPlaylists (fuel : nat) (spotifyClient : AxiosInstance)
    (playlistsToTransfer : list SpotifyPlaylist) : M unit :=
  match playlistsToTransfer with
  | [] => ret tt
  | playlist :: rest =>
      transferPlaylist fuel spotifyClient playlist ;;
      transferPlaylists fuel spotifyClient rest
  end.

(** Token acquisition for both services, inside the first [try]. *)
Definition authenticate : M AxiosInstance :=
  try_catch
    (log LogAuthenticatingSpotify ;;
     spotifyToken <- request SpotifyAuth (spotify_token svc) ;;
     let spotifyClient := createSpotifyClient spotifyToken in
     log LogAuthenticatingGoogle ;;
     request YouTubeAuth (youtube_token svc) ;;
     ret spotifyClient)
    (fun error =>
       log (LogAuthFailed (message error)) ;;
       exit 1).

(** The user and the full playlist listing, inside the second [try]. *)
Definition fetchUserData (fuel : nat) (spotifyClient : AxiosInstance)
  : M (list SpotifyPlaylist) :=
  try_catch
    (spotifyUser <- getCurrentUserSpotify spotifyClient ;;
     log (LogLoggedIn (user_display_name spotifyUser) (user_id spotifyUser)) ;;
     getUserPlaylistsSpotify fuel spotifyClient (user_id spotifyUser))
    (fun error =>
       log (LogUserDataFailed (message error)) ;;
       exit 1).

Definition transferCommand (fuel : nat) (config : Config) (options : Options)
  : M unit :=
  log LogBanner ;;
  (if negb (Js.truthy_opt (spotifyClientId config))
      || negb (Js.truthy_opt (googleClientId config))
   then log LogNotConfigured ;; exit 1
   else ret tt) ;;
  spotifyClient <- authenticate ;;
  allSpotifyPlaylists <- fetchUserData fuel spotifyClient ;;
  if (length allSpotifyPlaylists =? 0)%nat then
    log LogNoPlaylists ;;
    ret tt
  else
    playlistsToTransfer <- selectPlaylists options allSpotifyPlaylists ;;
    if (length playlistsToTransfer =? 0)%nat then
      log LogNoneSelected ;;
      ret tt
    else
      log (LogStarting (length playlistsToTransfer)) ;;
      transferPlaylists fuel spotifyClient playlistsToTransfer ;;
      log LogAllComplete.

End Program.

(** ** A concrete account and destination

    Five source playlists.  Alpha's track listing cannot be fetched; Beta has
    two pages with unavailable entries in between and one track twice; Gamma
    holds only unavailable entries; the destination refuses to create Delta;
    Epsilon has a single track.  The destination remembers what was inserted
    and answers a second insertion of the same video with its duplicate
    error. *)

Module Demo.

Definition Remote : Type := list (string * string).

Definition playlist (id name : string) (d : option string) : SpotifyPlaylist :=
  mkPlaylist id name d "me" "Me" ("https://api.spotify.com/v1/playlists/" ++ id)%string 0.

Definition alpha := playlist "a" "Alpha" (Some "first").
Definition beta := playlist "b" "Beta" None.
Definition gamma := playlist "c" "Gamma" (Some "").
Definition delta := playlist "d" "Delta" (Some "fourth").
Definition epsilon := playlist "e" "Epsilon" None.

Definition listing : list SpotifyPlaylist := [alpha; beta; gamma; delta; epsilon].

Definition song (name : string) (artists : list string) : SpotifyTrack :=
  mkItem (Some (mkTrack name name (map mkArtist artists) "LP" 1000)).

Definition gone : SpotifyTrack := mkItem None.

Definition one := song "One" ["Ann"; "Bob"].
Definition two := song "Two" ["Cid"].
Definition three := song "Three" [].
Definition four := song "Four" ["Dee"].

Definition beta_page1 : Page SpotifyTrack :=
  mkPage [one; gone; two]
    (Some "https://api.spotify.com/v1/playlists/b/tracks?offset=100&limit=100").
Definition beta_page2 : Page SpotifyTrack :=
  mkPage [gone; three; one; four] None.

Definition unavailable : JsError := mkError "Request failed with status code 503" None.

Definition apiError (code msg why : string) : JsError :=
  mkError code (Some (mkApiError (Some msg) [mkDetails (Some why) (Some msg)])).

Definition me : SpotifyUser := mkUser "me" "Me".

Definition tracks_of (url : string) : JsError + Page SpotifyTrack :=
  if String.eqb url (tracksUrl "b") then inr beta_page1
  else if String.eqb url "/playlists/b/tracks?offset=100&limit=100" then inr beta_page2
  else if String.eqb url (tracksUrl "c") then inr (mkPage [gone; gone] None)
  else if String.eqb url (tracksUrl "d") then inr (mkPage [two] None)
  else if String.eqb url (tracksUrl "e") then inr (mkPage [one] None)
  else inl unavailable.

Definition video (vid title : string) : YouTubeVideo := mkVideo vid title "Topic".

Definition search_of (p : SearchParams) : JsError + SearchData :=
  if String.eqb (sp_q p) "One Ann, Bob"
  then inr (mkSearchData (Some [video "v1" "One (Official)"; video "v9" "One (Live)"]))
  else if String.eqb (sp_q p) "Two Cid" then inr (mkSearchData (Some []))
  else if String.eqb (sp_q p) "Four Dee"
  then inr (mkSearchData (Some [video "v4" "Four"]))
  else inl (apiError "Request failed with status code 403" "quota exceeded" "quotaExceeded").

Definition insert_item (b : PlaylistItemBody) (r : Remote)
  : (JsError + unit) * Remote :=
  if String.eqb (ib_videoId b) "v4"
  then (inl (apiError "Request failed with status code 403"
               "Forbidden: video owner has disabled comments" "forbidden"), r)
  else if existsb (fun x => String.eqb (fst x) (ib_playlistId b)
                            && String.eqb (snd x) (ib_videoId b)) r
  then (inl (apiError "Request failed with status code 409"
               "Video already in playlist" "playlistItemDuplicate"), r)
  else (inr tt, r ++ [(ib_playlistId b, ib_videoId b)]).

Definition services : Services Remote :=
  {| spotify_me := fun r => (inr me, r);
     spotify_playlists := fun url r =>
       (if String.eqb url "/users/me/playlists?limit=50"
        then inr (mkPage listing None) else inl unavailable, r);
     spotify_tracks := fun url r => (tracks_of url, r);
     youtube_search := fun p r => (search_of p, r);
     youtube_playlists := fun b r =>
       (if String.eqb (pb_title b) "Delta"
        then inl (apiError "Request failed with status code 400"
                    "Invalid playlist" "invalidPlaylistSnippet")
        else inr ("PL-" ++ pb_title b)%string, r);
     youtube_playlistItems := insert_item;
     spotify_token := fun r => (inr (mkToken "spotify-token"), r);
     youtube_token := fun r => (inr tt, r);
     prompt_checkbox := fun choices r => (map choice_value (firstn 1 choices), r) |}.

(** The same account when the profile request is refused. *)
Definition services_no_profile : Services Remote :=
  {| spotify_me := fun r => (inl unavailable, r);
     spotify_playlists := spotify_playlists services;
     spotify_tracks := spotify_tracks services;
     youtube_search := youtube_search services;
     youtube_playlists := youtube_playlists services;
     youtube_playlistItems := youtube_playlistItems services;
     spotify_token := spotify_token services;
     youtube_token := youtube_token services;
     prompt_checkbox := prompt_checkbox services |}.

Definition client : AxiosInstance := createSpotifyClient (mkToken "spotify-token").

Definition config : Config := mkConfig (Some "spotify-app") (Some "google-app").

End Demo.


(** * Properties *)

(** ** Observations on traces *)

(** The three ways a track can end, as its progress line shows. *)
Inductive TransferOutcome := Added | NotFound | AddFailed.

(** Position, track name and outcome of a progress line. *)
Definition outcome_of (e : Event) : list (nat * string * TransferOutcome) :=
  match e with
  | Log (LogTrackAdded i _ name _ _) => [(i, name, Added)]
  | Log (LogTrackNotFound i _ name _) => [(i, name, NotFound)]
  | Log (LogTrackFailed i _ name _) => [(i, name, AddFailed)]
  | _ => []
  end.

Definition outcomes (t : list Event) : list (nat * string * TransferOutcome) :=
  flat_map outcome_of t.

Definition is_outcome (o : TransferOutcome)
    (x : nat * string * TransferOutcome) : bool :=
  match snd x, o with
  | Added, Added | NotFound, NotFound | AddFailed, AddFailed => true
  | _, _ => false
  end.

(** The counts a reader of the progress lines arrives at. *)
Definition tally (t : list Event) : Counts :=
  mkCounts (length (filter (is_outcome Added) (outcomes t)))
           (length (filter (is_outcome NotFound) (outcomes t)))
           (length (filter (is_outcome AddFailed) (outcomes t))).

(** The numbers printed by summary lines. *)
Definition summary_of (e : Event) : list LogLine :=
  match e with
  | Log (LogSummaryAdded n) => [LogSummaryAdded n]
  | Log (LogSummaryNotFound n) => [LogSummaryNotFound n]
  | Log (LogSummaryFailed n) => [LogSummaryFailed n]
  | _ => []
  end.

Definition summaries (t : list Event) : list LogLine := flat_map summary_of t.

(** Requests sent to the destination. *)
Definition is_youtube_request (e : Event) : bool :=
  match e with
  | YtSearch _ | YtCreatePlaylist _ | YtAddItem _ => true
  | _ => false
  end.

Definition creations (t : list Event) : list PlaylistBody :=
  flat_map (fun e => match e with YtCreatePlaylist b => [b] | _ => [] end) t.

Definition searches (t : list Event) : list SearchParams :=
  flat_map (fun e => match e with YtSearch p => [p] | _ => [] end) t.

Definition insertions (t : list Event) : list PlaylistItemBody :=
  flat_map (fun e => match e with YtAddItem b => [b] | _ => [] end) t.

(** Position and name of every available entry, from index [i] on. *)
Fixpoint positions (i : nat) (rest : list SpotifyTrack) : list (nat * string) :=
  match rest with
  | [] => []
  | item :: rest' =>
      match track item with
      | Some t => (i + 1, track_name t) :: positions (i + 1) rest'
      | None => positions (i + 1) rest'
      end
  end.

Definition total_of (c : Counts) : nat :=
  addedCount c + notFoundCount c + failedCount c.

(** [l1] is [l2] with some elements left out, order kept. *)
Inductive subsequence {A : Type} : list A -> list A -> Prop :=
| subseq_nil : subsequence [] []
| subseq_skip : forall x l1 l2, subsequence l1 l2 -> subsequence l1 (x :: l2)
| subseq_keep : forall x l1 l2, subsequence l1 l2 -> subsequence (x :: l1) (x :: l2).

(** Progress lines and count lines come from [transferPlaylist] alone: an
    event is silent when it is neither. *)
Definition silent (e : Event) : Prop :=
  outcome_of e = [] /\ summary_of e = [].

(** The counter an outcome increments. *)
Definition count (o : TransferOutcome) (c : Counts) : Counts :=
  match o with
  | Added => mkCounts (addedCount c + 1) (notFoundCount c) (failedCount c)
  | NotFound => mkCounts (addedCount c) (notFoundCount c + 1) (failedCount c)
  | AddFailed => mkCounts (addedCount c) (notFoundCount c) (failedCount c + 1)
  end.

(** Component-wise sum. *)
Definition plus (c d : Counts) : Counts :=
  mkCounts (addedCount c + addedCount d) (notFoundCount c + notFoundCount d)
           (failedCount c + failedCount d).

(** The lines that report the counts. *)
Definition report (c : Counts) : list LogLine :=
  [LogSummaryAdded (addedCount c); LogSummaryNotFound (notFoundCount c)]
  ++ (if (0 <? failedCount c)%nat then [LogSummaryFailed (failedCount c)]
      else []).

(** What [searchYouTubeVideo] hands back for an answer of the remote. *)
Definition firstResult (resp : JsError + SearchData) : option YouTubeVideo :=
  match resp with
  | inr {| search_items := Some (bestResult :: _) |} => Some bestResult
  | _ => None
  end.

(** The answer of [addVideoToYouTubePlaylist] to an error of the remote. *)
Definition duplicateReported (error : JsError) : bool :=
  reason_is (errorDetails error) "duplicate"
  || reason_is (errorDetails error) "playlistItemDuplicate".

Section Listing.
Context {Remote : Type} (svc : Services Remote).

(** The pages the source serves for a listing that starts at [url] in
    remote state [r]: each request is answered by a page, and the link of
    the last page is null or empty.  The next request goes to the link with
    the client's base URL removed. *)
Inductive tracks_listing (client : AxiosInstance)
  : option string -> Remote -> list (list SpotifyTrack) -> Remote -> Prop :=
| listing_done : forall url r,
    Js.truthy_opt url = false ->
    tracks_listing client url r [] r
| listing_page : forall u r page r1 pages r2,
    Js.truthy u = true ->
    spotify_tracks svc u r = (inr page, r1) ->
    tracks_listing client
      (option_map (Js.replace_first (baseURL client)) (next page)) r1 pages r2 ->
    tracks_listing client (Some u) r (items page :: pages) r2.

End Listing.

Section Judgements.
Context {Remote : Type}.

(** [emits P m]: every event of every run of [m] satisfies [P]. *)
Definition emits {A} (P : Event -> Prop) (m : M Remote A) : Prop :=
  forall r, Forall P (trace (m r)).

End Judgements.

(** ** Further observations, listings and accounts *)

(** The pauses of a run, in milliseconds. *)
Definition pauses (t : list Event) : list Z :=
  flat_map (fun e => match e with Sleep ms => [ms] | _ => [] end) t.

(** Name and id of the playlists a run started to process, in order. *)
Definition processed (t : list Event) : list (string * string) :=
  flat_map (fun e => match e with
                     | Log (LogProcessing name id) => [(name, id)]
                     | _ => []
                     end) t.

(** The urls requested from the source. *)
Definition source_requests (t : list Event) : list string :=
  flat_map (fun e => match e with SpotifyGet u => [u] | _ => [] end) t.

(** Anything but the line that announces a playlist. *)
Definition unannounced (e : Event) : Prop :=
  match e with Log (LogProcessing _ _) => False | _ => True end.

Definition playlistsUrl (userId : string) : string :=
  ("/users/" ++ userId ++ "/playlists?limit=50")%string.

Definition fetchPlaylistsError : JsError :=
  newError "Could not fetch Spotify playlists.".

Section Listings.
Context {Remote : Type} (svc : Services Remote).

(** The pages the source serves for the playlists of a user, as
    [tracks_listing] for the tracks of a playlist. *)
Inductive playlists_listing (client : AxiosInstance)
  : option string -> Remote -> list (list SpotifyPlaylist) -> Remote -> Prop :=
| playlists_done : forall url r,
    Js.truthy_opt url = false ->
    playlists_listing client url r [] r
| playlists_page : forall u r page r1 pages r2,
    Js.truthy u = true ->
    spotify_playlists svc u r = (inr page, r1) ->
    playlists_listing client
      (option_map (Js.replace_first (baseURL client)) (next page)) r1 pages r2 ->
    playlists_listing client (Some u) r (items page :: pages) r2.

(** A listing of playlists that breaks: [n] requests are answered by a page
    with a link to follow, and the next request fails with [cause]. *)
Inductive playlists_broken (client : AxiosInstance)
  : option string -> Remote -> nat -> JsError -> Remote -> Prop :=
| broken_here : forall u r cause r1,
    Js.truthy u = true ->
    spotify_playlists svc u r = (inl cause, r1) ->
    playlists_broken client (Some u) r 0 cause r1
| broken_later : forall u r page r1 n cause r2,
    Js.truthy u = true ->
    spotify_playlists svc u r = (inr page, r1) ->
    playlists_broken client
      (option_map (Js.replace_first (baseURL client)) (next page)) r1 n cause r2 ->
    playlists_broken client (Some u) r (S n) cause r2.

(** The same for the tracks of a playlist. *)
Inductive tracks_broken (client : AxiosInstance)
  : option string -> Remote -> nat -> JsError -> Remote -> Prop :=
| tracks_broken_here : forall u r cause r1,
    Js.truthy u = true ->
    spotify_tracks svc u r = (inl cause, r1) ->
    tracks_broken client (Some u) r 0 cause r1
| tracks_broken_later : forall u r page r1 n cause r2,
    Js.truthy u = true ->
    spotify_tracks svc u r = (inr page, r1) ->
    tracks_broken client
      (option_map (Js.replace_first (baseURL client)) (next page)) r1 n cause r2 ->
    tracks_broken client (Some u) r (S n) cause r2.

End Listings.

(** Variations of the account of [Demo]. *)
Module Cases.

Definition with_source
    (me : JsError + SpotifyUser)
    (playlists : string -> JsError + Page SpotifyPlaylist)
    (search : SearchParams -> JsError + SearchData)
    (token : JsError + SpotifyToken)
    (google : JsError + unit)
    (answer : list string) : Services Demo.Remote :=
  {| spotify_me := fun r => (me, r);
     spotify_playlists := fun url r => (playlists url, r);
     spotify_tracks := spotify_tracks Demo.services;
     youtube_search := fun p r => (search p, r);
     youtube_playlists := youtube_playlists Demo.services;
     youtube_playlistItems := youtube_playlistItems Demo.services;
     spotify_token := fun r => (token, r);
     youtube_token := fun r => (google, r);
     prompt_checkbox := fun _ r => (answer, r) |}.

Definition one_page (url : string) : JsError + Page SpotifyPlaylist :=
  if String.eqb url "/users/me/playlists?limit=50"
  then inr (mkPage Demo.listing None) else inl Demo.unavailable.

(** The listing in two pages, the second behind a link. *)
Definition two_pages (url : string) : JsError + Page SpotifyPlaylist :=
  if String.eqb url "/users/me/playlists?limit=50"
  then inr (mkPage [Demo.alpha; Demo.beta]
              (Some "https://api.spotify.com/v1/users/me/playlists?offset=50&limit=50"))
  else if String.eqb url "/users/me/playlists?offset=50&limit=50"
  then inr (mkPage [Demo.gamma; Demo.delta; Demo.epsilon] None)
  else inl Demo.unavailable.

(** The first page arrives, the second request fails. *)
Definition second_page_fails (url : string) : JsError + Page SpotifyPlaylist :=
  if String.eqb url "/users/me/playlists?limit=50"
  then inr (mkPage [Demo.alpha; Demo.beta]
              (Some "https://api.spotify.com/v1/users/me/playlists?offset=50&limit=50"))
  else inl Demo.unavailable.

Definition no_playlists (url : string) : JsError + Page SpotifyPlaylist :=
  inr (mkPage [] None).

(** Every search finds a video whose id is empty. *)
Definition blank_id (p : SearchParams) : JsError + SearchData :=
  inr (mkSearchData (Some [Demo.video "" "Untitled"])).

Definition ok_token : JsError + SpotifyToken := inr (mkToken "spotify-token").

Definition paged : Services Demo.Remote :=
  with_source (inr Demo.me) two_pages Demo.search_of ok_token (inr tt) ["e"; "c"].
Definition broken : Services Demo.Remote :=
  with_source (inr Demo.me) second_page_fails Demo.search_of ok_token (inr tt) [].
Definition empty_account : Services Demo.Remote :=
  with_source (inr Demo.me) no_playlists Demo.search_of ok_token (inr tt) [].
Definition blank : Services Demo.Remote :=
  with_source (inr Demo.me) one_page blank_id ok_token (inr tt) [].
Definition google_refused : Services Demo.Remote :=
  with_source (inr Demo.me) one_page Demo.search_of ok_token
    (inl (newError "Could not get Google token.")) [].
Definition picks (answer : list string) : Services Demo.Remote :=
  with_source (inr Demo.me) one_page Demo.search_of ok_token (inr tt) answer.

(** Beta's first page arrives, the request for the second one fails. *)
Definition half_beta : Services Demo.Remote :=
  {| spotify_me := spotify_me Demo.services;
     spotify_playlists := spotify_playlists Demo.services;
     spotify_tracks := fun url r =>
       (if String.eqb url (tracksUrl "b") then inr Demo.beta_page1
        else inl Demo.unavailable, r);
     youtube_search := youtube_search Demo.services;
     youtube_playlists := youtube_playlists Demo.services;
     youtube_playlistItems := youtube_playlistItems Demo.services;
     spotify_token := spotify_token Demo.services;
     youtube_token := youtube_token Demo.services;
     prompt_checkbox := prompt_checkbox Demo.services |}.

(** The request for Gamma's tracks is refused; the rest is as in [Demo]. *)
Definition gamma_refused : Services Demo.Remote :=
  {| spotify_me := spotify_me Demo.services;
     spotify_playlists := spotify_playlists Demo.services;
     spotify_tracks := fun url r =>
       if String.eqb url (tracksUrl "c") then (inl Demo.unavailable, r)
       else spotify_tracks Demo.services url r;
     youtube_search := youtube_search Demo.services;
     youtube_playlists := youtube_playlists Demo.services;
     youtube_playlistItems := youtube_playlistItems Demo.services;
     spotify_token := spotify_token Demo.services;
     youtube_token := youtube_token Demo.services;
     prompt_checkbox := prompt_checkbox Demo.services |}.

End Cases.

(** ** JavaScript numbers

    A number of the source is an IEEE-754 double.  The numbers of this
    program are times, whole numbers of milliseconds or seconds; a whole
    number that a double holds is embedded as the integer it denotes, and the
    sum and the product of two of them are the exact result rounded to the
    nearest double, a tie going to the even significand.  Up to [2^53] in
    magnitude every whole number is a double and the arithmetic is exact;
    beyond it only the multiples of a power of two are.  (A result whose
    magnitude reaches [2^1024 - 2^970] is [Infinity] in the source, which no
    integer denotes: the embedding stops short of it.) *)

Module Double.

(** [2^53] *)
Definition limit : Z := 9007199254740992.

(** The whole numbers up to [limit] in magnitude. *)
Definition safe (z : Z) : Prop := (- limit <= z <= limit)%Z.

(** The double nearest to the whole number [z].  Beyond [limit] the
    significand keeps the 53 leading bits of the magnitude; [e] is the number
    of bits dropped, [r] their value and [half] the middle of the gap. *)
Definition round (z : Z) : Z :=
  let a := Z.abs z in
  if (a <=? limit)%Z then z
  else
    let e := (Z.log2 a - 52)%Z in
    let q := Z.shiftr a e in
    let r := (a - Z.shiftl q e)%Z in
    let half := Z.shiftl 1 (e - 1) in
    let q' :=
      if (r <? half)%Z then q
      else if (half <? r)%Z then (q + 1)%Z
      else if Z.even q then q else (q + 1)%Z in
    (Z.sgn z * Z.shiftl q' e)%Z.

(** [x + y] and [x * y] of the source. *)
Definition add (x y : Z) : Z := round (x + y).
Definition mul (x y : Z) : Z := round (x * y).

End Double.

(** ** Token acquisition (spotify.ts, youtube.ts) over the configuration
    store (config.ts)

    [getSpotifyToken] and [getYouTubeToken], which the services above take
    as given, with the helpers they call.  The configuration store is part
    of the state; the token endpoints, the browser round trip that yields an
    authorization code, the Google client library and the clock are
    handlers over an abstract world.  Times are whole numbers of
    milliseconds, added and multiplied as doubles ([Double]). *)

Module Auth.

(** [SpotifyToken] of config.ts. *)
Record Token := mkToken {
  access_token : string;
  refresh_token : option string;
  expires_in : Z;
  token_type : string;
  scope : string;
  expires_at : option Z
}.

(** [Credentials] of google-auth-library: the token set of a client. *)
Record Credentials := mkCredentials {
  g_access_token : option string;
  g_refresh_token : option string;
  expiry_date : option Z
}.

(** An [OAuth2Client], as far as the code goes: the credentials set on it. *)
Record OAuth2Client := mkOAuth2Client { credentials : option Credentials }.

(** The keys of the configuration store. *)
Record Store := mkStore {
  spotifyClientId : option string;
  spotifyClientSecret : option string;
  spotifyRedirectUri : option string;
  spotifyScopes : option string;
  spotifyToken : option Token;
  googleClientId : option string;
  googleClientSecret : option string;
  googleRedirectUri : option string;
  googleScopes : option (list string);
  googleToken : option Credentials;
  callbackPort : option Z
}.

Inductive Line :=
(* config.ts *)
| SpotifyTokenSaved
| SpotifyTokenDeleted
| GoogleTokenSaved
| GoogleTokenDeleted
(* spotify.ts *)
| PleaseAuthorizeSpotify
| ErrorExchangingSpotifyCode (e : JsError)
| RefreshingSpotifyToken
| SpotifyTokenRefreshed
| ErrorRefreshingSpotifyToken (e : JsError)
| AttemptingSpotifyRefresh
| SpotifyRefreshFailed (e : JsError)
| SpotifyTokenExpiredNoRefresh
| UsingExistingSpotifyToken
| NoValidSpotifyToken
(* youtube.ts *)
| PleaseAuthorizeGoogle
| UsingExistingGoogleToken
| GoogleTokenMightBeExpired
| GoogleTokenRefreshed
| ErrorRefreshingGoogleToken (msg : string)
| NoValidGoogleToken
| GoogleTokenObtained
| ErrorExchangingGoogleCode (e : JsError)
(* cli.ts, the configure command *)
| CredentialSetup
| CredentialsNeeded
| RedirectUrisMustMatch
| AllIdsAndSecretsRequired
| ConfigurationSaved
| UseResetAuth
| ConfigFileLocation.

Inductive Event :=
| Print (l : Line)
| SpotifyRefresh (refreshToken : string)
| SpotifyExchange (code redirectUri : string)
| SpotifyAuthorize (port : Z)
| GoogleRefresh
| GoogleGetToken (code : string)
| GoogleAuthorize (port : Z)
| Ask.

(** What the prompts of the configure command are given as defaults, and
    what they answer (the port after the prompt's own filter). *)
Record Answers := mkAnswers {
  a_spotifyClientId : string;
  a_spotifyClientSecret : string;
  a_spotifyRedirectUri : string;
  a_googleClientId : string;
  a_googleClientSecret : string;
  a_googleRedirectUri : string;
  a_callbackPort : Z
}.

Record Defaults := mkDefaults {
  d_spotifyClientId : option string;
  d_spotifyClientSecret : option string;
  d_spotifyRedirectUri : string;
  d_googleClientId : option string;
  d_googleClientSecret : option string;
  d_googleRedirectUri : string;
  d_callbackPort : Z
}.

(** The outside of the token code. *)
Record World (W : Type) := mkWorld {
  (** [Date.now()] *)
  now : W -> Z * W;
  (** [axios.post] to the token endpoint, with [grant_type=refresh_token]
      and with [grant_type=authorization_code]; the client id and secret
      go into the Authorization header *)
  post_refresh : string -> string -> string -> W -> (JsError + Token) * W;
  post_exchange : string -> string -> string -> string -> W -> (JsError + Token) * W;
  (** opening the browser and waiting for the callback with the code *)
  spotify_callback : Z -> string -> string -> string -> W -> (JsError + string) * W;
  google_callback : Z -> list string -> W -> (JsError + string) * W;
  (** [oAuth2Client.refreshAccessToken()] and [oAuth2Client.getToken(code)] *)
  refreshAccessToken : OAuth2Client -> W -> (JsError + Credentials) * W;
  getToken : string -> W -> (JsError + Credentials) * W;
  (** [inquirer.prompt] of the configure command *)
  ask : Defaults -> W -> (JsError + Answers) * W
}.
Arguments ask {W} _ _ _.
Arguments now {W} _ _.
Arguments post_refresh {W} _ _ _ _ _.
Arguments post_exchange {W} _ _ _ _ _ _.
Arguments spotify_callback {W} _ _ _ _ _ _.
Arguments google_callback {W} _ _ _ _.
Arguments refreshAccessToken {W} _ _ _.
Arguments getToken {W} _ _ _.

(** Runs: the store and the world are threaded, events are collected. *)
Definition Run (W A : Type) : Type :=
  Store * W -> Outcome A * (Store * W) * list Event.

Section Runs.
Context {W : Type}.

Definition ret {A} (a : A) : Run W A := fun s => (Returned a, s, []).

Definition bind {A B} (m : Run W A) (k : A -> Run W B) : Run W B :=
  fun s =>
    match m s with
    | (Returned a, s1, t1) =>
        let '(o, s2, t2) := k a s1 in (o, s2, t1 ++ t2)
    | (Thrown e, s1, t1) => (Thrown e, s1, t1)
    | (Exited c, s1, t1) => (Exited c, s1, t1)
    | (OutOfFuel, s1, t1) => (OutOfFuel, s1, t1)
    end.

Definition throw {A} (e : JsError) : Run W A := fun s => (Thrown e, s, []).

Definition print (l : Line) : Run W unit := fun s => (Returned tt, s, [Print l]).

Definition try_catch {A} (m : Run W A) (h : JsError -> Run W A) : Run W A :=
  fun s =>
    match m s with
    | (Thrown e, s1, t1) =>
        let '(o, s2, t2) := h e s1 in (o, s2, t1 ++ t2)
    | res => res
    end.

(** An awaited call to the outside. *)
Definition await {A} (ev : Event) (op : W -> (JsError + A) * W) : Run W A :=
  fun s =>
    match op (snd s) with
    | (inl e, w1) => (Thrown e, (fst s, w1), [ev])
    | (inr a, w1) => (Returned a, (fst s, w1), [ev])
    end.

(** [config.get] of whole values, and [config.set] / [config.delete]. *)
Definition config : Run W Store := fun s => (Returned (fst s), s, []).

Definition update (f : Store -> Store) : Run W unit :=
  fun s => (Returned tt, (f (fst s), snd s), []).

End Runs.

Declare Scope auth_scope.
Delimit Scope auth_scope with auth.
Notation "x <- m ;; k" := (bind m (fun x => k))
  (at level 61, m at next level, right associativity) : auth_scope.
Notation "m ;; k" := (bind m (fun _ => k))
  (at level 61, right associativity) : auth_scope.

(** *** config.ts *)

(** The schema defaults, which [config.get] gives for a key that is not
    set. *)
Definition defaultSpotifyRedirectUri : string :=
  "http://localhost:8888/spotify-callback".
Definition defaultSpotifyScopes : string :=
  "playlist-read-private playlist-read-collaborative user-read-private".
Definition defaultGoogleRedirectUri : string :=
  "http://localhost:8888/youtube-callback".
Definition defaultGoogleScopes : list string :=
  ["https://www.googleapis.com/auth/youtube.force-ssl"].

Definition or_default {A} (o : option A) (d : A) : A :=
  match o with Some a => a | None => d end.

Record SpotifyCredentials := mkSpotifyCredentials {
  sc_clientId : option string;
  sc_clientSecret : option string;
  sc_redirectUri : string;
  sc_scopes : string
}.

Record GoogleCredentials := mkGoogleCredentials {
  gc_clientId : option string;
  gc_clientSecret : option string;
  gc_redirectUri : string;
  gc_scopes : list string
}.

Definition set_spotifyToken (v : option Token) (s : Store) : Store :=
  mkStore (spotifyClientId s) (spotifyClientSecret s) (spotifyRedirectUri s)
    (spotifyScopes s) v (googleClientId s) (googleClientSecret s)
    (googleRedirectUri s) (googleScopes s) (googleToken s) (callbackPort s).

Definition set_googleToken (v : option Credentials) (s : Store) : Store :=
  mkStore (spotifyClientId s) (spotifyClientSecret s) (spotifyRedirectUri s)
    (spotifyScopes s) (spotifyToken s) (googleClientId s) (googleClientSecret s)
    (googleRedirectUri s) (googleScopes s) v (callbackPort s).

(** [config.set] of the keys the configure command writes. *)
Definition set_spotifyClientId (v : string) (s : Store) : Store :=
  mkStore (Some v) (spotifyClientSecret s) (spotifyRedirectUri s)
    (spotifyScopes s) (spotifyToken s) (googleClientId s) (googleClientSecret s)
    (googleRedirectUri s) (googleScopes s) (googleToken s) (callbackPort s).

Definition set_spotifyClientSecret (v : string) (s : Store) : Store :=
  mkStore (spotifyClientId s) (Some v) (spotifyRedirectUri s)
    (spotifyScopes s) (spotifyToken s) (googleClientId s) (googleClientSecret s)
    (googleRedirectUri s) (googleScopes s) (googleToken s) (callbackPort s).

Definition set_spotifyRedirectUri (v : string) (s : Store) : Store :=
  mkStore (spotifyClientId s) (spotifyClientSecret s) (Some v)
    (spotifyScopes s) (spotifyToken s) (googleClientId s) (googleClientSecret s)
    (googleRedirectUri s) (googleScopes s) (googleToken s) (callbackPort s).

Definition set_googleClientId (v : string) (s : Store) : Store :=
  mkStore (spotifyClientId s) (spotifyClientSecret s) (spotifyRedirectUri s)
    (spotifyScopes s) (spotifyToken s) (Some v) (googleClientSecret s)
    (googleRedirectUri s) (googleScopes s) (googleToken s) (callbackPort s).

Definition set_googleClientSecret (v : string) (s : Store) : Store :=
  mkStore (spotifyClientId s) (spotifyClientSecret s) (spotifyRedirectUri s)
    (spotifyScopes s) (spotifyToken s) (googleClientId s) (Some v)
    (googleRedirectUri s) (googleScopes s) (googleToken s) (callbackPort s).

Definition set_googleRedirectUri (v : string) (s : Store) : Store :=
  mkStore (spotifyClientId s) (spotifyClientSecret s) (spotifyRedirectUri s)
    (spotifyScopes s) (spotifyToken s) (googleClientId s) (googleClientSecret s)
    (Some v) (googleScopes s) (googleToken s) (callbackPort s).

Definition set_callbackPort (v : Z) (s : Store) : Store :=
  mkStore (spotifyClientId s) (spotifyClientSecret s) (spotifyRedirectUri s)
    (spotifyScopes s) (spotifyToken s) (googleClientId s) (googleClientSecret s)
    (googleRedirectUri s) (googleScopes s) (googleToken s) (Some v).

Section Program.
Context {W : Type} (world : World W).
Local Open Scope auth_scope.

Local Abbreviation Run := (Run W).

Definition getSpotifyCredentials : Run SpotifyCredentials :=
  s <- config ;;
  ret (mkSpotifyCredentials (spotifyClientId s) (spotifyClientSecret s)
         (or_default (spotifyRedirectUri s) defaultSpotifyRedirectUri)
         (or_default (spotifyScopes s) defaultSpotifyScopes)).

Definition getGoogleCredentials : Run GoogleCredentials :=
  s <- config ;;
  ret (mkGoogleCredentials (googleClientId s) (googleClientSecret s)
         (or_default (googleRedirectUri s) defaultGoogleRedirectUri)
         (or_default (googleScopes s) defaultGoogleScopes)).

Definition getCallbackPort : Run Z :=
  s <- config ;; ret (or_default (callbackPort s) 8888%Z).

Definition saveSpotifyToken (token : Token) : Run unit :=
  update (set_spotifyToken (Some token)) ;; print SpotifyTokenSaved.

Definition loadSpotifyToken : Run (option Token) :=
  s <- config ;; ret (spotifyToken s).

Definition deleteSpotifyToken : Run unit :=
  update (set_spotifyToken None) ;; print SpotifyTokenDeleted.

Definition saveGoogleToken (token : Credentials) : Run unit :=
  update (set_googleToken (Some token)) ;; print GoogleTokenSaved.

Definition loadGoogleToken : Run (option Credentials) :=
  s <- config ;; ret (googleToken s).

Definition deleteGoogleToken : Run unit :=
  update (set_googleToken None) ;; print GoogleTokenDeleted.

(** *** spotify.ts *)

(** [Date.now()] *)
Definition dateNow : Run Z :=
  fun s => let '(n, w1) := now world (snd s) in (Returned n, (fst s, w1), []).

(** [token.expires_at = Date.now() + token.expires_in * 1000] *)
Definition stamp (token : Token) (n : Z) : Token :=
  mkToken (access_token token) (refresh_token token) (expires_in token)
    (token_type token) (scope token)
    (Some (Double.add n (Double.mul (expires_in token) 1000))).

Definition with_refresh_token (token : Token) (refreshToken : string) : Token :=
  mkToken (access_token token) (Some refreshToken) (expires_in token)
    (token_type token) (scope token) (expires_at token).

Definition getSpotifyAuthorizationCode (port : Z) : Run string :=
  creds <- getSpotifyCredentials ;;
  match sc_clientId creds with
  | Some clientId =>
      if negb (Js.truthy clientId) || negb (Js.truthy (sc_redirectUri creds))
         || negb (Js.truthy (sc_scopes creds))
      then throw (newError "Spotify API credentials missing in configuration.")
      else
        print PleaseAuthorizeSpotify ;;
        await (SpotifyAuthorize port)
          (spotify_callback world port clientId (sc_scopes creds)
             (sc_redirectUri creds))
  | None => throw (newError "Spotify API credentials missing in configuration.")
  end.

Definition exchangeSpotifyCodeForToken (code : string) : Run Token :=
  creds <- getSpotifyCredentials ;;
  match sc_clientId creds, sc_clientSecret creds with
  | Some clientId, Some clientSecret =>
      if negb (Js.truthy clientId) || negb (Js.truthy clientSecret)
         || negb (Js.truthy (sc_redirectUri creds))
      then throw (newError "Spotify API credentials missing for token exchange.")
      else
        try_catch
          (token <- await (SpotifyExchange code (sc_redirectUri creds))
                      (post_exchange world code (sc_redirectUri creds)
                         clientId clientSecret) ;;
           n <- dateNow ;;
           ret (stamp token n))
          (fun error =>
             print (ErrorExchangingSpotifyCode error) ;;
             throw (newError "Could not get Spotify token."))
  | _, _ => throw (newError "Spotify API credentials missing for token exchange.")
  end.

Definition refreshSpotifyToken (refreshToken : string) : Run Token :=
  creds <- getSpotifyCredentials ;;
  match sc_clientId creds, sc_clientSecret creds with
  | Some clientId, Some clientSecret =>
      if negb (Js.truthy clientId) || negb (Js.truthy clientSecret)
      then throw (newError "Spotify API credentials missing for token refresh.")
      else
        try_catch
          (print RefreshingSpotifyToken ;;
           token <- await (SpotifyRefresh refreshToken)
                      (post_refresh world refreshToken clientId clientSecret) ;;
           let token := with_refresh_token token refreshToken in
           n <- dateNow ;;
           let token := stamp token n in
           print SpotifyTokenRefreshed ;;
           ret token)
          (fun error =>
             print (ErrorRefreshingSpotifyToken error) ;;
             throw (newError
                      "Could not refresh Spotify token. Please re-authenticate."))
  | _, _ => throw (newError "Spotify API credentials missing for token refresh.")
  end.

(** [token.expires_at && Date.now() >= token.expires_at]: the clock is read
    only when [expires_at] is set and not zero. *)
Definition isExpired (at_ : option Z) : Run bool :=
  match at_ with
  | Some limit =>
      if (limit =? 0)%Z then ret false
      else n <- dateNow ;; ret (limit <=? n)%Z
  | None => ret false
  end.

(** The part of [getSpotifyToken] under [if (!token)]. *)
Definition authorizeSpotify (port : Z) : Run Token :=
  print NoValidSpotifyToken ;;
  creds <- getSpotifyCredentials ;;
  if negb (Js.truthy_opt (sc_clientId creds))
     || negb (Js.truthy_opt (sc_clientSecret creds))
     || negb (Js.truthy (sc_redirectUri creds))
     || negb (Js.truthy (sc_scopes creds))
  then throw (newError "Spotify API credentials missing. Run configuration setup.")
  else
    code <- getSpotifyAuthorizationCode port ;;
    token <- exchangeSpotifyCodeForToken code ;;
    saveSpotifyToken token ;;
    ret token.

Definition getSpotifyToken : Run Token :=
  token <- loadSpotifyToken ;;
  port <- getCallbackPort ;;
  match token with
  | Some token =>
      expired <- isExpired (expires_at token) ;;
      if expired : bool then
        let noRefreshToken :=
          print SpotifyTokenExpiredNoRefresh ;;
          deleteSpotifyToken ;;
          authorizeSpotify port in
        match refresh_token token with
        | Some refreshToken =>
            if Js.truthy refreshToken then
              print AttemptingSpotifyRefresh ;;
              refreshed <-
                try_catch
                  (token <- refreshSpotifyToken refreshToken ;;
                   saveSpotifyToken token ;;
                   ret (Some token))
                  (fun refreshError =>
                     print (SpotifyRefreshFailed refreshError) ;;
                     deleteSpotifyToken ;;
                     ret None) ;;
              match refreshed with
              | Some token => ret token
              | None => authorizeSpotify port
              end
            else noRefreshToken
        | None => noRefreshToken
        end
      else
        print UsingExistingSpotifyToken ;;
        ret token
  | None => authorizeSpotify port
  end.

(** *** youtube.ts *)

(** [!creds.scopes || !creds.redirectUri]: the scopes are an array, which
    is truthy even when empty, so only the redirect URI can be missing. *)
Definition getYouTubeAuthorizationCode (port : Z) : Run string :=
  creds <- getGoogleCredentials ;;
  if negb (Js.truthy (gc_redirectUri creds))
  then throw (newError
                "Google scopes or redirect URI missing from configuration.")
  else
    print PleaseAuthorizeGoogle ;;
    await (GoogleAuthorize port) (google_callback world port (gc_scopes creds)).

Definition getYouTubeToken : Run OAuth2Client :=
  creds <- getGoogleCredentials ;;
  port <- getCallbackPort ;;
  if negb (Js.truthy_opt (gc_clientId creds))
     || negb (Js.truthy_opt (gc_clientSecret creds))
     || negb (Js.truthy (gc_redirectUri creds))
  then throw (newError "Google API credentials missing. Run configuration setup.")
  else
    token <- loadGoogleToken ;;
    match token with
    | Some token =>
        print UsingExistingGoogleToken ;;
        let oAuth2Client := mkOAuth2Client (Some token) in
        expired <- isExpired (expiry_date token) ;;
        if expired : bool then
          print GoogleTokenMightBeExpired ;;
          try_catch
            (credentials <- await GoogleRefresh
                              (refreshAccessToken world oAuth2Client) ;;
             let oAuth2Client := mkOAuth2Client (Some credentials) in
             saveGoogleToken credentials ;;
             print GoogleTokenRefreshed ;;
             ret oAuth2Client)
            (fun refreshError =>
               print (ErrorRefreshingGoogleToken (message refreshError)) ;;
               deleteGoogleToken ;;
               throw (newError
                        "Failed to refresh Google token. Please re-authenticate."))
        else ret oAuth2Client
    | None =>
        print NoValidGoogleToken ;;
        code <- getYouTubeAuthorizationCode port ;;
        try_catch
          (tokens <- await (GoogleGetToken code) (getToken world code) ;;
           let oAuth2Client := mkOAuth2Client (Some tokens) in
           saveGoogleToken tokens ;;
           print GoogleTokenObtained ;;
           ret oAuth2Client)
          (fun error =>
             print (ErrorExchangingGoogleCode error) ;;
             throw (newError "Could not get Google token."))
    end.

(** *** cli.ts: the configure command *)

Definition configure : Run unit :=
  print CredentialSetup ;;
  print CredentialsNeeded ;;
  print RedirectUrisMustMatch ;;
  s <- config ;;
  answers <- await Ask
               (ask world
                  (mkDefaults (spotifyClientId s) (spotifyClientSecret s)
                     (or_default (spotifyRedirectUri s) defaultSpotifyRedirectUri)
                     (googleClientId s) (googleClientSecret s)
                     (or_default (googleRedirectUri s) defaultGoogleRedirectUri)
                     (or_default (callbackPort s) 8888%Z))) ;;
  if negb (Js.truthy (a_spotifyClientId answers))
     || negb (Js.truthy (a_spotifyClientSecret answers))
     || negb (Js.truthy (a_googleClientId answers))
     || negb (Js.truthy (a_googleClientSecret answers))
  then print AllIdsAndSecretsRequired
  else
    update (set_spotifyClientId (a_spotifyClientId answers)) ;;
    update (set_spotifyClientSecret (a_spotifyClientSecret answers)) ;;
    update (set_spotifyRedirectUri (a_spotifyRedirectUri answers)) ;;
    update (set_googleClientId (a_googleClientId answers)) ;;
    update (set_googleClientSecret (a_googleClientSecret answers)) ;;
    update (set_googleRedirectUri (a_googleRedirectUri answers)) ;;
    update (set_callbackPort (a_callbackPort answers)) ;;
    print ConfigurationSaved ;;
    print UseResetAuth ;;
    print ConfigFileLocation.

End Program.

Definition outcome {S A} (x : Outcome A * S * list Event) : Outcome A :=
  fst (fst x).
Definition final {S A} (x : Outcome A * S * list Event) : S := snd (fst x).
Definition events {S A} (x : Outcome A * S * list Event) : list Event := snd x.

(** A store with both applications configured, and a world whose clock
    stands at [clock]: refreshing gives [fresh] when [spotify_up], and
    asking Google fails. *)
Definition configured (token : option Token) (google : option Credentials)
  : Store :=
  mkStore (Some "spotify-app") (Some "spotify-secret") None None token
    (Some "google-app") (Some "google-secret") None None google None.

(** The same without any credentials. *)
Definition bare (token : option Token) (google : option Credentials) : Store :=
  mkStore None None None None token None None None None google None.

Definition fresh : Token :=
  mkToken "new-access" None 3600 "Bearer" "playlist-read-private" None.

Definition old (refresh : option string) (limit : option Z) : Token :=
  mkToken "old-access" refresh 3600 "Bearer" "playlist-read-private" limit.

Definition down : JsError := mkError "Request failed with status code 400" None.

Definition world (clock : Z) (spotify_up : bool) : World unit :=
  {| now := fun w => (clock, w);
     post_refresh := fun _ _ _ w => (if spotify_up then inr fresh else inl down, w);
     post_exchange := fun _ _ _ _ w => (inr fresh, w);
     spotify_callback := fun _ _ _ _ w => (inr "code-1", w);
     google_callback := fun _ _ w => (inl down, w);
     refreshAccessToken := fun _ w => (inl down, w);
     getToken := fun _ w => (inl down, w);
     ask := fun d w =>
       (inr (mkAnswers (or_default (d_spotifyClientId d) "") "typed-secret"
               (d_spotifyRedirectUri d) "typed-google" "typed-google-secret"
               (d_googleRedirectUri d) (d_callbackPort d)), w) |}.

End Auth.

(** ** cli.ts: the arguments handed to the parser

    [process.argv] holds the interpreter and the script before the
    arguments proper; [commands] are the names of the registered commands. *)
Definition parsedArgs (commands argv : list string) : list string :=
  if (length argv <=? 2)%nat
     || ((2 <? length argv)%nat
         && negb (existsb (fun c => String.eqb c (nth 2 argv "")) commands))
  then
    let args := argv in
    if (length args <=? 2)%nat then args ++ ["--help"] else args
  else argv.

Definition commandNames : list string :=
  ["configure"; "reset-auth"; "reset-all"; "transfer"].

(** ** Rules of the monad *)

Section Rules.
Context {Remote : Type}.

Local Abbreviation M := (M Remote).

Lemma bind_returned {A B} (m : M A) (k : A -> M B) r a r1 t1 :
  m r = (Returned a, r1, t1) ->
  bind m k r = (outcome (k a r1), final (k a r1), t1 ++ trace (k a r1)).
Proof.
  intros H. unfold bind. rewrite H.
  destruct (k a r1) as [[o r2] t2]. reflexivity.
Qed.

Lemma bind_thrown {A B} (m : M A) (k : A -> M B) r e r1 t1 :
  m r = (Thrown e, r1, t1) -> bind m k r = (Thrown e, r1, t1).
Proof. intros H. unfold bind. now rewrite H. Qed.

Lemma try_catch_returned {A} (m : M A) h r a r1 t1 :
  m r = (Returned a, r1, t1) -> try_catch m h r = (Returned a, r1, t1).
Proof. intros H. unfold try_catch. now rewrite H. Qed.

Lemma emits_ret {A} P (a : A) : emits P (@ret Remote A a).
Proof. intros r. constructor. Qed.

Lemma emits_throw {A} P e : emits P (@throw Remote A e).
Proof. intros r. constructor. Qed.

Lemma emits_exit {A} P c : emits P (@exit Remote A c).
Proof. intros r. constructor. Qed.

Lemma emits_out_of_fuel {A} P : emits P (@out_of_fuel Remote A).
Proof. intros r. constructor. Qed.

Lemma emits_emit P e : P e -> emits P (@emit Remote e).
Proof. intros H r. repeat constructor. exact H. Qed.

Lemma emits_log P l : P (Log l) -> emits P (@log Remote l).
Proof. apply emits_emit. Qed.

Lemma emits_request {A} P ev (op : Remote -> (JsError + A) * Remote) :
  P ev -> emits P (request ev op).
Proof.
  intros H r. unfold request, trace.
  destruct (op r) as [[e | a] r1]; repeat constructor; exact H.
Qed.

Lemma emits_bind {A B} P (m : M A) (k : A -> M B) :
  emits P m -> (forall a, emits P (k a)) -> emits P (bind m k).
Proof.
  intros Hm Hk r. specialize (Hm r). unfold bind, trace in *.
  destruct (m r) as [[[a | e | c |] r1] t1]; simpl in *; trivial.
  specialize (Hk a r1). destruct (k a r1) as [[o r2] t2]. simpl in *.
  apply Forall_app. split; assumption.
Qed.

Lemma emits_try_catch {A} P (m : M A) h :
  emits P m -> (forall e, emits P (h e)) -> emits P (try_catch m h).
Proof.
  intros Hm Hh r. specialize (Hm r). unfold try_catch, trace in *.
  destruct (m r) as [[[a | e | c |] r1] t1]; simpl in *; trivial.
  specialize (Hh e r1). destruct (h e r1) as [[o r2] t2]. simpl in *.
  apply Forall_app. split; assumption.
Qed.

End Rules.

(** Break a goal about a composed run into its parts. *)
Ltac emits_step :=
  lazymatch goal with
  | |- emits _ (bind _ _) => apply emits_bind; [ | intros ? ]
  | |- emits _ (try_catch _ _) => apply emits_try_catch; [ | intros ? ]
  | |- emits _ (log _) => apply emits_log; simpl; auto
  | |- emits _ (emit _) => apply emits_emit; simpl; auto
  | |- emits _ (request _ _) => apply emits_request; simpl; auto
  | |- emits _ (ret _) => apply emits_ret
  | |- emits _ (throw _) => apply emits_throw
  | |- emits _ (exit _) => apply emits_exit
  | |- emits _ out_of_fuel => apply emits_out_of_fuel
  | |- emits _ (match ?x with _ => _ end) => destruct x
  | |- emits _ (let _ := _ in _) => cbv zeta
  end.

Ltac emits_auto := repeat emits_step.

(** ** The helpers on concrete values *)

Example replace_first_base :
  Js.replace_first "https://api.spotify.com/v1"
    "https://api.spotify.com/v1/playlists/b/tracks?offset=100&limit=100"
  = "/playlists/b/tracks?offset=100&limit=100".
Proof. reflexivity. Qed.

Example replace_first_inside : Js.replace_first "-x-" "a-x-b-x-c" = "ab-x-c".
Proof. reflexivity. Qed.

Example replace_first_absent : Js.replace_first "zz" "abc" = "abc".
Proof. reflexivity. Qed.

Example str_includes_comments :
  Js.str_includes "video owner has disabled comments"
    "Forbidden: the video owner has disabled comments." = true.
Proof. reflexivity. Qed.

Example join_two : Js.join ", " ["Ann"; "Bob"] = "Ann, Bob".
Proof. reflexivity. Qed.

Example join_none : Js.join ", " [] = "".
Proof. reflexivity. Qed.

Example or_else_empty : Js.or_else (Some "") "fallback" = "fallback".
Proof. reflexivity. Qed.

Example query_of_one :
  searchQuery "One" (Js.join ", " ["Ann"; "Bob"]) = "One Ann, Bob".
Proof. reflexivity. Qed.

(** Beta: seven entries, five available; two added (one of them reported as
    already present), two not found (one by an empty answer, one by a failed
    search), one found but refused. *)
Example beta_report :
  summaries (trace (transferPlaylist Demo.services 2 Demo.client Demo.beta []))
  = [LogSummaryAdded 2; LogSummaryNotFound 2; LogSummaryFailed 1].
Proof. reflexivity. Qed.

Example beta_outcomes :
  outcomes (trace (transferPlaylist Demo.services 2 Demo.client Demo.beta []))
  = [(1, "One", Added); (2, "Two", NotFound); (3, "Three", NotFound);
     (4, "One", Added); (5, "Four", AddFailed)].
Proof. reflexivity. Qed.

(** One page of fuel is not enough for Beta's two pages. *)
Example beta_out_of_fuel :
  outcome (getPlaylistTracksSpotify Demo.services 1 Demo.client "b" [])
  = OutOfFuel.
Proof. reflexivity. Qed.

(** ** The destination client *)

Section Destination.
Context {Remote : Type} (svc : Services Remote).

Lemma searchYouTubeVideo_run trackName artistName r :
  let query := searchQuery trackName artistName in
  let resp := youtube_search svc (searchParams query) r in
  exists l,
    searchYouTubeVideo svc trackName artistName r =
      (Returned (firstResult (fst resp)), snd resp,
       [Log (LogSearching query); YtSearch (searchParams query); Log l]).
Proof.
  cbv zeta. unfold searchYouTubeVideo, try_catch, bind, request, log, emit, ret.
  destruct (youtube_search svc _ r) as [[e | [[[| v vs] |]]] r1];
    simpl; eexists; reflexivity.
Qed.

Lemma createYouTubePlaylist_run title description r :
  let body := playlistBody title description in
  let resp := youtube_playlists svc body r in
  exists l,
    createYouTubePlaylist svc title description r =
      (Returned (match fst resp with inr playlistId => Some playlistId
                                   | inl _ => None end),
       snd resp,
       [Log (LogCreating title); YtCreatePlaylist body; Log l]).
Proof.
  cbv zeta. unfold createYouTubePlaylist, try_catch, bind, request, log, emit, ret.
  destruct (youtube_playlists svc _ r) as [[e | playlistId] r1];
    simpl; eexists; reflexivity.
Qed.

Lemma addVideoToYouTubePlaylist_run playlistId vid r :
  let body := playlistItemBody playlistId vid in
  let resp := youtube_playlistItems svc body r in
  exists ls,
    addVideoToYouTubePlaylist svc playlistId vid r =
      (Returned (match fst resp with
                 | inr _ => true
                 | inl error => duplicateReported error
                 end),
       snd resp,
       YtAddItem body :: map Log ls)
    /\ Forall (fun l => outcome_of (Log l) = [] /\ summary_of (Log l) = []) ls.
Proof.
  cbv zeta.
  unfold addVideoToYouTubePlaylist, duplicateReported, try_catch, bind,
    request, log, emit, ret.
  destruct (youtube_playlistItems svc _ r) as [[e | []] r1]; simpl.
  - destruct (reason_is (errorDetails e) "duplicate"
              || reason_is (errorDetails e) "playlistItemDuplicate"); simpl.
    + exists [LogAddDuplicate vid playlistId]. split; [reflexivity |].
      repeat constructor.
    + destruct (reason_is (errorDetails e) "forbidden"
                && api_message_includes e "video owner has disabled comments");
        simpl.
      * exists [LogAddForbidden vid]. split; [reflexivity |].
        repeat constructor.
      * exists [LogAddError vid playlistId e]. split; [reflexivity |].
        repeat constructor.
  - exists []. split; [reflexivity | constructor].
Qed.

End Destination.

(** ** Quiet parts of a run

    Only the loop of [transferPlaylist] prints progress lines and only its
    closing lines print counts: the clients print neither. *)

Lemma silent_outcomes t : Forall silent t -> outcomes t = [].
Proof.
  induction 1 as [| e t [He _] _ IH]; [reflexivity |].
  unfold outcomes in *. simpl. now rewrite He, IH.
Qed.

Lemma silent_summaries t : Forall silent t -> summaries t = [].
Proof.
  induction 1 as [| e t [_ He] _ IH]; [reflexivity |].
  unfold summaries in *. simpl. now rewrite He, IH.
Qed.

Lemma outcomes_app t1 t2 : outcomes (t1 ++ t2) = outcomes t1 ++ outcomes t2.
Proof. apply flat_map_app. Qed.

Lemma summaries_app t1 t2 : summaries (t1 ++ t2) = summaries t1 ++ summaries t2.
Proof. apply flat_map_app. Qed.

Lemma creations_app t1 t2 : creations (t1 ++ t2) = creations t1 ++ creations t2.
Proof. apply flat_map_app. Qed.

Lemma searches_app t1 t2 : searches (t1 ++ t2) = searches t1 ++ searches t2.
Proof. apply flat_map_app. Qed.

Lemma insertions_app t1 t2 :
  insertions (t1 ++ t2) = insertions t1 ++ insertions t2.
Proof. apply flat_map_app. Qed.

Lemma creations_logs ls : creations (map Log ls) = [].
Proof. induction ls; simpl; auto. Qed.

Lemma searches_logs ls : searches (map Log ls) = [].
Proof. induction ls; simpl; auto. Qed.

Section Quiet.
Context {Remote : Type} (svc : Services Remote).

Lemma searchYouTubeVideo_silent trackName artistName :
  emits silent (searchYouTubeVideo svc trackName artistName).
Proof. unfold searchYouTubeVideo, silent. emits_auto. Qed.

Lemma createYouTubePlaylist_silent title description :
  emits silent (createYouTubePlaylist svc title description).
Proof. unfold createYouTubePlaylist, silent. emits_auto. Qed.

Lemma addVideoToYouTubePlaylist_silent playlistId vid :
  emits silent (addVideoToYouTubePlaylist svc playlistId vid).
Proof. unfold addVideoToYouTubePlaylist, silent. emits_auto. Qed.

Lemma tracksLoop_emits (P : Event -> Prop) fuel client :
  (forall u, P (SpotifyGet u)) -> P (Log LogNextPageTracks) ->
  forall url tracks, emits P (tracksLoop svc fuel client url tracks).
Proof.
  intros Hget Hlog. induction fuel as [| fuel IH]; intros url tracks.
  - destruct url as [u |]; simpl; [destruct (Js.truthy u); simpl |];
      emits_auto.
  - destruct url as [u |]; simpl; [destruct (Js.truthy u); simpl |];
      emits_auto; apply IH.
Qed.

Lemma getPlaylistTracksSpotify_emits (P : Event -> Prop) fuel client playlistId :
  (forall u, P (SpotifyGet u)) ->
  (forall l, summary_of (Log l) = [] -> outcome_of (Log l) = [] -> P (Log l)) ->
  emits P (getPlaylistTracksSpotify svc fuel client playlistId).
Proof.
  intros Hget Hlog. unfold getPlaylistTracksSpotify. emits_auto.
  apply tracksLoop_emits; auto.
Qed.

Lemma getPlaylistTracksSpotify_silent fuel client playlistId :
  emits silent (getPlaylistTracksSpotify svc fuel client playlistId).
Proof.
  apply getPlaylistTracksSpotify_emits; unfold silent; auto.
Qed.

End Quiet.

(** ** The loop over the tracks *)

Section Loop.
Context {Remote : Type} (svc : Services Remote).

Lemma transferTrack_unavailable playlistId total i c r :
  transferTrack svc playlistId total i (mkItem None) c r = (Returned c, r, []).
Proof. reflexivity. Qed.

(** A video was found and its id is usable: the outcome is the answer of
    [addVideoToYouTubePlaylist]. *)
Lemma transferTrack_found playlistId total i tr c r v r1 ts (b : bool) r2 ta :
  searchYouTubeVideo svc (track_name tr) (artistNames tr) r
    = (Returned (Some v), r1, ts) ->
  Js.truthy (videoId v) = true ->
  addVideoToYouTubePlaylist svc playlistId (videoId v) r1
    = (Returned b, r2, ta) ->
  transferTrack svc playlistId total i (mkItem (Some tr)) c r =
    (Returned (count (if b then Added else AddFailed) c), r2,
     Sleep 300 :: ts ++ ta ++
       [Log (if b
             then LogTrackAdded (i + 1) total (track_name tr) (artistNames tr)
                    (video_title v)
             else LogTrackFailed (i + 1) total (track_name tr) (artistNames tr))]).
Proof.
  intros Hs Hv Ha. unfold transferTrack. simpl track.
  unfold bind at 1. simpl. unfold bind at 1. rewrite Hs, Hv.
  unfold bind at 1. rewrite Ha.
  destruct b; simpl; rewrite <- ?app_assoc; reflexivity.
Qed.

(** No video, or one without a usable id: not found, and nothing is
    inserted. *)
Lemma transferTrack_not_found playlistId total i tr c r x r1 ts :
  searchYouTubeVideo svc (track_name tr) (artistNames tr) r
    = (Returned x, r1, ts) ->
  match x with Some v => Js.truthy (videoId v) = false | None => True end ->
  transferTrack svc playlistId total i (mkItem (Some tr)) c r =
    (Returned (count NotFound c), r1,
     Sleep 300 :: ts ++
       [Log (LogTrackNotFound (i + 1) total (track_name tr) (artistNames tr))]).
Proof.
  intros Hs Hx. unfold transferTrack. simpl track.
  unfold bind at 1. simpl. unfold bind at 1. rewrite Hs.
  destruct x as [v |]; [rewrite Hx |]; reflexivity.
Qed.

(** Every available entry ends in exactly one outcome, counted once. *)
Lemma transferTrack_run playlistId total i tr c r :
  exists o r' t,
    transferTrack svc playlistId total i (mkItem (Some tr)) c r
      = (Returned (count o c), r', t)
    /\ outcomes t = [(i + 1, track_name tr, o)]
    /\ summaries t = []
    /\ creations t = []
    /\ searches t =
         [searchParams (searchQuery (track_name tr) (artistNames tr))].
Proof.
  destruct (searchYouTubeVideo_run svc (track_name tr) (artistNames tr) r)
    as [l Hs]. cbv zeta in Hs.
  set (q := searchQuery (track_name tr) (artistNames tr)) in *.
  set (resp := youtube_search svc (searchParams q) r) in *.
  pose proof (searchYouTubeVideo_silent svc (track_name tr) (artistNames tr) r)
    as Hq. rewrite Hs in Hq. simpl in Hq.
  assert (Hq' : Forall silent
            (Sleep 300 :: [Log (LogSearching q); YtSearch (searchParams q);
                           Log l])).
  { constructor; [split; reflexivity | exact Hq]. }
  pose proof (silent_outcomes _ Hq') as Hqo.
  pose proof (silent_summaries _ Hq') as Hqs.
  assert (Hnf : forall x,
             match x with Some v => Js.truthy (videoId v) = false
                        | None => True end ->
             firstResult (fst resp) = x ->
             exists o r' t,
               transferTrack svc playlistId total i (mkItem (Some tr)) c r
                 = (Returned (count o c), r', t)
               /\ outcomes t = [(i + 1, track_name tr, o)]
               /\ summaries t = []
               /\ creations t = []
               /\ searches t = [searchParams q]).
  { intros x Hx Hfx. rewrite Hfx in Hs. eexists NotFound, _, _. split.
    { eapply transferTrack_not_found; [exact Hs | exact Hx]. }
    rewrite app_comm_cons.
    rewrite !outcomes_app, !summaries_app, !creations_app, !searches_app.
    rewrite Hqo, Hqs. repeat split; reflexivity. }
  destruct (firstResult (fst resp)) as [v |] eqn:Hv;
    [ destruct (Js.truthy (videoId v)) eqn:Hid | ];
    [ | apply (Hnf (Some v)); trivial | apply (Hnf None); trivial ].
  destruct (addVideoToYouTubePlaylist_run svc playlistId (videoId v)
              (snd resp)) as [ls [Ha _]]. cbv zeta in Ha.
  pose proof (addVideoToYouTubePlaylist_silent svc playlistId (videoId v)
                (snd resp)) as Hqa. rewrite Ha in Hqa. simpl in Hqa.
  eexists _, _, _. split.
  { eapply transferTrack_found; eassumption. }
  rewrite app_comm_cons.
  rewrite !outcomes_app, !summaries_app, !creations_app, !searches_app.
  rewrite (silent_outcomes _ Hqa), (silent_summaries _ Hqa), Hqo, Hqs.
  destruct (match fst (youtube_playlistItems svc _ (snd resp)) with
            | inl error => duplicateReported error
            | inr _ => true
            end); simpl; rewrite creations_logs, searches_logs;
    repeat split; reflexivity.
Qed.

Lemma transferLoop_run playlistId total rest :
  forall i c r,
  exists r' t,
    transferLoop svc playlistId total i rest c r
      = (Returned (plus c (tally t)), r', t)
    /\ map fst (outcomes t) = positions i rest
    /\ summaries t = []
    /\ creations t = [].
Proof.
  induction rest as [| [[tr |]] rest IH]; intros i c r.
  - exists r, []. simpl. unfold ret, plus, tally. simpl.
    destruct c as [a n f]. simpl. rewrite !Nat.add_0_r. auto.
  - destruct (transferTrack_run playlistId total i tr c r)
      as (o & r1 & t1 & H1 & Ho & Hs & Hc & _).
    destruct (IH (i + 1) (count o c) r1) as (r2 & t2 & H2 & Ho2 & Hs2 & Hc2).
    exists r2, (t1 ++ t2). split.
    { simpl transferLoop. rewrite (bind_returned _ _ _ _ _ _ H1), H2.
      unfold outcome, final, trace. cbn [fst snd]. do 3 f_equal.
      unfold plus, tally. rewrite outcomes_app, Ho.
      destruct c as [a n f], o; cbn; f_equal; lia. }
    rewrite outcomes_app, summaries_app, creations_app, Ho, Hs, Hs2, Hc, Hc2.
    simpl. rewrite Ho2. auto.
  - destruct (IH (i + 1) c r) as (r2 & t2 & H2 & Ho2 & Hs2 & Hc2).
    exists r2, t2. split; [| auto]. simpl transferLoop.
    rewrite (bind_returned _ _ _ _ _ _ (transferTrack_unavailable _ _ _ _ _)).
    rewrite H2. reflexivity.
Qed.

Lemma positions_length i rest :
  length (positions i rest) = length (filter available rest).
Proof.
  revert i. induction rest as [| [[tr |]] rest IH]; intros i; simpl; auto.
Qed.

Lemma tally_total t : total_of (tally t) = length (outcomes t).
Proof.
  unfold total_of, tally. simpl.
  induction (outcomes t) as [| [[i n] []] l IH]; simpl; try reflexivity;
    unfold is_outcome in *; simpl in *; lia.
Qed.

End Loop.

(** ** The orchestrator *)

Section Orchestrator.
Context {Remote : Type} (svc : Services Remote).

Lemma bind_run {A B} (m : M Remote A) (k : A -> M Remote B) r a r1 t1 o r2 t2 :
  m r = (Returned a, r1, t1) -> k a r1 = (o, r2, t2) ->
  bind m k r = (o, r2, t1 ++ t2).
Proof. intros Hm Hk. unfold bind. now rewrite Hm, Hk. Qed.

Lemma log_run l (r : Remote) : log l r = (Returned tt, r, [Log l]).
Proof. reflexivity. Qed.

Lemma summary_run name c playlistId (r : Remote) :
  summary name c playlistId r =
    (Returned tt, r,
     Log (LogFinished name) :: map Log (report c)
       ++ [Log (LogPlaylistLink playlistId)]).
Proof.
  unfold summary, report, bind, log, emit, ret.
  destruct (0 <? failedCount c)%nat; reflexivity.
Qed.

Lemma summaries_report c playlistId name :
  summaries (Log (LogFinished name) :: map Log (report c)
               ++ [Log (LogPlaylistLink playlistId)]) = report c.
Proof.
  unfold report. destruct (0 <? failedCount c)%nat; reflexivity.
Qed.

Lemma outcomes_report c playlistId name :
  outcomes (Log (LogFinished name) :: map Log (report c)
              ++ [Log (LogPlaylistLink playlistId)]) = [].
Proof.
  unfold report. destruct (0 <? failedCount c)%nat; reflexivity.
Qed.

(** The whole run of [transferPlaylist] once tracks were fetched and the
    destination playlist was created. *)
Lemma transferPlaylist_done fuel client p r tracks r1 t1 playlistId r2 t2 :
  getPlaylistTracksSpotify svc fuel client (pl_id p) r
    = (Returned tracks, r1, t1) ->
  tracks <> [] ->
  createYouTubePlaylist svc (pl_name p) (newPlaylistDescription p) r1
    = (Returned (Some playlistId), r2, t2) ->
  Js.truthy playlistId = true ->
  exists r3 t3,
    transferLoop svc playlistId (length tracks) 0 tracks (mkCounts 0 0 0) r2
      = (Returned (tally t3), r3, t3)
    /\ transferPlaylist svc fuel client p r =
         (Returned tt, r3,
          [Log (LogProcessing (pl_name p) (pl_id p))] ++ t1 ++ t2
            ++ [Log (LogAttempting (length tracks))] ++ t3
            ++ Log (LogFinished (pl_name p)) :: map Log (report (tally t3))
            ++ [Log (LogPlaylistLink playlistId)])
    /\ map fst (outcomes t3) = positions 0 tracks
    /\ summaries t3 = []
    /\ creations t3 = [].
Proof.
  intros Hfetch Hne Hcreate Hid.
  destruct (transferLoop_run svc playlistId (length tracks) tracks 0
              (mkCounts 0 0 0) r2) as (r3 & t3 & Hloop & Hpos & Hsum & Hcre).
  change (plus (mkCounts 0 0 0) (tally t3)) with (tally t3) in Hloop.
  exists r3, t3. repeat split; trivial.
  unfold transferPlaylist.
  eapply bind_run; [apply log_run |].
  eapply bind_run; [exact Hfetch |].
  destruct tracks as [| item tracks]; [congruence |].
  cbn [length Nat.eqb].
  eapply bind_run; [exact Hcreate |].
  cbv beta iota zeta. rewrite Hid. cbn [negb].
  eapply bind_run; [apply log_run |].
  eapply bind_run; [exact Hloop |].
  apply summary_run.
Qed.

End Orchestrator.

(** ** Outcome accounting *)

Section Accounting.
Context {Remote : Type} (svc : Services Remote).

(** C1: when the tracks of a playlist were fetched and its destination
    playlist was created, [transferPlaylist] returns; its progress lines are,
    in order, one per available entry (position and name), so each available
    track has exactly one outcome; and the counts [c] it prints at the end
    are the tallies of those lines, with
    [addedCount + notFoundCount + failedCount] equal to the number of
    available tracks. *)
Theorem transfer_counts_available_tracks
    fuel client p r tracks r1 t1 playlistId r2 t2 :
  getPlaylistTracksSpotify svc fuel client (pl_id p) r
    = (Returned tracks, r1, t1) ->
  tracks <> [] ->
  createYouTubePlaylist svc (pl_name p) (newPlaylistDescription p) r1
    = (Returned (Some playlistId), r2, t2) ->
  Js.truthy playlistId = true ->
  exists c r' t,
    transferPlaylist svc fuel client p r = (Returned tt, r', t)
    /\ map fst (outcomes t) = positions 0 tracks
    /\ length (outcomes t) = length (filter available tracks)
    /\ c = tally t
    /\ summaries t = report c
    /\ addedCount c + notFoundCount c + failedCount c
       = length (filter available tracks).
Proof.
  intros Hfetch Hne Hcreate Hid.
  destruct (transferPlaylist_done svc fuel client p r tracks r1 t1 playlistId
              r2 t2 Hfetch Hne Hcreate Hid)
    as (r3 & t3 & _ & Hrun & Hpos & Hsum & _).
  pose proof (getPlaylistTracksSpotify_silent svc fuel client (pl_id p) r) as Q1.
  rewrite Hfetch in Q1. simpl in Q1.
  pose proof (createYouTubePlaylist_silent svc (pl_name p)
                (newPlaylistDescription p) r1) as Q2.
  rewrite Hcreate in Q2. simpl in Q2.
  set (t := [Log (LogProcessing (pl_name p) (pl_id p))] ++ t1 ++ t2
             ++ [Log (LogAttempting (length tracks))] ++ t3
             ++ Log (LogFinished (pl_name p)) :: map Log (report (tally t3))
             ++ [Log (LogPlaylistLink playlistId)]) in *.
  assert (Ho : outcomes t = outcomes t3).
  { unfold t.
    rewrite !outcomes_app, (silent_outcomes _ Q1), (silent_outcomes _ Q2),
      outcomes_report. simpl. apply app_nil_r. }
  assert (Hs : summaries t = report (tally t3)).
  { unfold t.
    rewrite !summaries_app, (silent_summaries _ Q1), (silent_summaries _ Q2),
      Hsum, summaries_report. reflexivity. }
  assert (Ht : tally t = tally t3) by (unfold tally; now rewrite Ho).
  assert (Hlen : length (outcomes t3) = length (filter available tracks)).
  { rewrite <- (length_map fst), Hpos. apply positions_length. }
  exists (tally t), r3, t. rewrite Ho, Hs, Ht.
  repeat split; trivial.
  fold (total_of (tally t3)). rewrite tally_total. exact Hlen.
Qed.

End Accounting.

(** The run on Beta: five available tracks in seven entries. *)
Lemma transfer_counts_available_tracks_witness :
  exists c r' t,
    transferPlaylist Demo.services 5 Demo.client Demo.beta [] = (Returned tt, r', t)
    /\ map fst (outcomes t)
       = positions 0 [Demo.one; Demo.two; Demo.three; Demo.one; Demo.four]
    /\ length (outcomes t) = 5
    /\ c = tally t
    /\ summaries t = report c
    /\ addedCount c + notFoundCount c + failedCount c = 5.
Proof.
  eapply (transfer_counts_available_tracks Demo.services 5 Demo.client
           Demo.beta [] [Demo.one; Demo.two; Demo.three; Demo.one; Demo.four]
           [] _ "PL-Beta" [] _);
    [reflexivity | discriminate | reflexivity | reflexivity].
Defined.

(** ** Listing the tracks of a playlist *)

Lemma filter_subsequence {A} (f : A -> bool) l : subsequence (filter f l) l.
Proof.
  induction l as [| x l IH]; simpl; [constructor |].
  destruct (f x); constructor; exact IH.
Qed.

Lemma replace_first_empty pat : Js.replace_first pat "" = "".
Proof. destruct pat; reflexivity. Qed.

Section Fetching.
Context {Remote : Type} (svc : Services Remote).

Lemma request_run {A} ev (op : Remote -> (JsError + A) * Remote) r a r1 :
  op r = (inr a, r1) -> request ev op r = (Returned a, r1, [ev]).
Proof. intros H. unfold request. now rewrite H. Qed.

(** With fuel for every page, the loop drains the listing and keeps the
    available entries of each page, in order. *)
Lemma tracksLoop_run client url r pages r' :
  tracks_listing svc client url r pages r' ->
  forall fuel acc, length pages <= fuel ->
  exists t,
    tracksLoop svc fuel client url acc r
      = (Returned (acc ++ filter available (concat pages)), r', t).
Proof.
  induction 1 as [url r Hurl | u r page r1 pages r2 Hu Hget _ IH];
    intros fuel acc Hfuel.
  - exists []. simpl concat. simpl filter. rewrite app_nil_r.
    destruct url as [u |], fuel; simpl in *; try rewrite Hurl; reflexivity.
  - destruct fuel as [| fuel]; [simpl in Hfuel; lia |].
    simpl in Hfuel. apply le_S_n in Hfuel.
    destruct (IH fuel (acc ++ filter available (items page)) Hfuel) as [t Ht].
    simpl concat. rewrite filter_app, app_assoc.
    simpl tracksLoop. rewrite Hu. cbn [negb].
    destruct page as [its [[| ch n] |]];
      cbn [next items option_map Js.truthy_opt Js.truthy] in *;
      eexists;
      (eapply bind_run; [apply request_run; exact Hget |]); cbv zeta;
      cbn [next items option_map Js.truthy_opt Js.truthy].
    + (* an empty link is left as it is *)
      rewrite replace_first_empty in Ht.
      eapply bind_run; [reflexivity | exact Ht].
    + eapply bind_run; [eapply bind_run; [apply log_run | reflexivity] |].
      exact Ht.
    + eapply bind_run; [reflexivity | exact Ht].
Qed.

End Fetching.

Section Filtering.
Context {Remote : Type} (svc : Services Remote).

Lemma available_iff item : available item = true <-> track item <> None.
Proof.
  unfold available. destruct (track item); split; congruence.
Qed.

(** The run of [getPlaylistTracksSpotify] on a listing the source serves. *)
Lemma getPlaylistTracksSpotify_run fuel client playlistId r pages r' :
  tracks_listing svc client (Some (tracksUrl playlistId)) r pages r' ->
  length pages <= fuel ->
  exists t,
    getPlaylistTracksSpotify svc fuel client playlistId r =
      (Returned (filter available (concat pages)), r',
       [Log (LogFetchingTracks playlistId)] ++ t
         ++ [Log (LogFoundTracks (length (filter available (concat pages))))]
         ++ []).
Proof.
  intros Hpages Hfuel.
  destruct (tracksLoop_run svc client _ r pages r' Hpages fuel [] Hfuel)
    as [t Ht]. simpl app in Ht.
  exists t. unfold getPlaylistTracksSpotify.
  eapply bind_run; [apply log_run |].
  apply try_catch_returned.
  eapply bind_run; [exact Ht |].
  eapply bind_run; [apply log_run | reflexivity].
Qed.

(** C4: when the source serves the pages of a playlist's track listing,
    [getPlaylistTracksSpotify] (given fuel for every page) returns exactly
    the entries whose track is not null, in the order of the listing; the
    dropped entries appear nowhere afterwards: the count it prints and the
    one the transfer works with is the number of kept entries, fetching
    prints no outcome for them, and the loop over the result yields one
    outcome per kept entry and none besides. *)
Theorem listing_keeps_available_entries fuel client playlistId r pages r' :
  tracks_listing svc client (Some (tracksUrl playlistId)) r pages r' ->
  length pages <= fuel ->
  let kept := filter available (concat pages) in
  exists t,
    getPlaylistTracksSpotify svc fuel client playlistId r = (Returned kept, r', t)
    /\ subsequence kept (concat pages)
    /\ (forall item,
          In item kept <-> In item (concat pages) /\ track item <> None)
    /\ In (Log (LogFoundTracks (length kept))) t
    /\ outcomes t = []
    /\ forall youtubePlaylistId r2,
         exists r3 t3,
           transferLoop svc youtubePlaylistId (length kept) 0 kept
             (mkCounts 0 0 0) r2 = (Returned (tally t3), r3, t3)
           /\ map fst (outcomes t3) = positions 0 kept
           /\ length (outcomes t3) = length kept
           /\ total_of (tally t3) = length kept.
Proof.
  intros Hpages Hfuel kept.
  destruct (getPlaylistTracksSpotify_run fuel client playlistId r pages r'
              Hpages Hfuel) as [t Hrun]. fold kept in Hrun.
  eexists. split; [exact Hrun |].
  split; [apply filter_subsequence |].
  split.
  { intros item. unfold kept. rewrite filter_In, available_iff. tauto. }
  split.
  { apply in_or_app. right. apply in_or_app. right. now left. }
  split.
  { pose proof (getPlaylistTracksSpotify_silent svc fuel client playlistId r)
      as Q. rewrite Hrun in Q. apply silent_outcomes. exact Q. }
  intros youtubePlaylistId r2.
  destruct (transferLoop_run svc youtubePlaylistId (length kept) kept 0
              (mkCounts 0 0 0) r2) as (r3 & t3 & Hloop & Hpos & _).
  change (plus (mkCounts 0 0 0) (tally t3)) with (tally t3) in Hloop.
  assert (Hall : filter available kept = kept).
  { unfold kept. clear. induction (concat pages) as [| x l IH]; simpl; trivial.
    destruct (available x) eqn:Hx; simpl; [rewrite Hx, IH |]; trivial. }
  assert (Hlen : length (outcomes t3) = length kept).
  { rewrite <- (length_map fst), Hpos, positions_length, Hall. reflexivity. }
  exists r3, t3. repeat split; trivial.
  rewrite tally_total. exact Hlen.
Qed.

End Filtering.

(** Beta's listing: two pages, seven entries, two of them unavailable. *)
Lemma listing_keeps_available_entries_witness :
  let pages := [items Demo.beta_page1; items Demo.beta_page2] in
  let kept := [Demo.one; Demo.two; Demo.three; Demo.one; Demo.four] in
  filter available (concat pages) = kept
  /\ exists t,
       getPlaylistTracksSpotify Demo.services 2 Demo.client "b" []
         = (Returned kept, [], t)
       /\ subsequence kept (concat pages)
       /\ (forall item,
             In item kept <-> In item (concat pages) /\ track item <> None)
       /\ In (Log (LogFoundTracks (length kept))) t
       /\ outcomes t = []
       /\ forall youtubePlaylistId r2,
            exists r3 t3,
              transferLoop Demo.services youtubePlaylistId (length kept) 0 kept
                (mkCounts 0 0 0) r2 = (Returned (tally t3), r3, t3)
              /\ map fst (outcomes t3) = positions 0 kept
              /\ length (outcomes t3) = length kept
              /\ total_of (tally t3) = length kept.
Proof.
  split; [reflexivity |].
  apply (listing_keeps_available_entries Demo.services 2 Demo.client "b" []
           [items Demo.beta_page1; items Demo.beta_page2] []).
  - eapply (listing_page Demo.services Demo.client _ [] Demo.beta_page1);
      [reflexivity | reflexivity |].
    eapply (listing_page Demo.services Demo.client _ [] Demo.beta_page2);
      [reflexivity | reflexivity |].
    apply listing_done. reflexivity.
  - simpl. lia.
Defined.

(** ** Paths of the orchestrator *)

Lemma no_youtube_requests t :
  Forall (fun e => is_youtube_request e = false) t ->
  creations t = [] /\ searches t = [] /\ insertions t = [].
Proof.
  induction 1 as [| e t He _ (Hc & Hs & Hi)]; [repeat split |].
  unfold creations, searches, insertions in *. simpl.
  rewrite Hc, Hs, Hi. destruct e; try discriminate; repeat split.
Qed.

Section Paths.
Context {Remote : Type} (svc : Services Remote).

Lemma getPlaylistTracksSpotify_no_youtube fuel client playlistId :
  emits (fun e => is_youtube_request e = false)
    (getPlaylistTracksSpotify svc fuel client playlistId).
Proof. apply getPlaylistTracksSpotify_emits; reflexivity. Qed.

(** Whatever goes wrong while fetching, what is thrown is the error of
    [getPlaylistTracksSpotify], after the cause was logged. *)
Lemma getPlaylistTracksSpotify_thrown fuel client playlistId r e r1 t1 :
  getPlaylistTracksSpotify svc fuel client playlistId r = (Thrown e, r1, t1) ->
  e = fetchTracksError playlistId
  /\ exists cause t0,
       t1 = Log (LogFetchingTracks playlistId) :: t0
              ++ [Log (LogFetchTracksError playlistId cause)].
Proof.
  unfold getPlaylistTracksSpotify, try_catch.
  unfold bind at 1. simpl.
  unfold bind at 1.
  destruct (tracksLoop svc fuel client _ [] r) as [[[tracks | cause | c |] r0] t0];
    simpl; intros H; inversion H; subst.
  split; [reflexivity |]. exists cause, t0. reflexivity.
Qed.

Lemma transferPlaylist_fetch_thrown fuel client p r e r1 t1 :
  getPlaylistTracksSpotify svc fuel client (pl_id p) r = (Thrown e, r1, t1) ->
  transferPlaylist svc fuel client p r =
    (Thrown e, r1, [Log (LogProcessing (pl_name p) (pl_id p))] ++ t1).
Proof.
  intros H. unfold transferPlaylist.
  eapply bind_run; [apply log_run |].
  apply bind_thrown. exact H.
Qed.

Lemma transferPlaylist_skipped fuel client p r r1 t1 :
  getPlaylistTracksSpotify svc fuel client (pl_id p) r = (Returned [], r1, t1) ->
  transferPlaylist svc fuel client p r =
    (Returned tt, r1,
     [Log (LogProcessing (pl_name p) (pl_id p))] ++ t1
       ++ [Log (LogEmptySkipping (pl_name p))] ++ []).
Proof.
  intros H. unfold transferPlaylist.
  eapply bind_run; [apply log_run |].
  eapply bind_run; [exact H |].
  cbn [length Nat.eqb].
  eapply bind_run; [apply log_run | reflexivity].
Qed.

Lemma transferPlaylist_create_failed fuel client p r tracks r1 t1 x r2 t2 :
  getPlaylistTracksSpotify svc fuel client (pl_id p) r
    = (Returned tracks, r1, t1) ->
  tracks <> [] ->
  createYouTubePlaylist svc (pl_name p) (newPlaylistDescription p) r1
    = (Returned x, r2, t2) ->
  Js.truthy_opt x = false ->
  transferPlaylist svc fuel client p r =
    (Returned tt, r2,
     [Log (LogProcessing (pl_name p) (pl_id p))] ++ t1 ++ t2
       ++ [Log (LogCreateFailedSkipping (pl_name p))] ++ []).
Proof.
  intros Hfetch Hne Hcreate Hx. unfold transferPlaylist.
  eapply bind_run; [apply log_run |].
  eapply bind_run; [exact Hfetch |].
  destruct tracks as [| item tracks]; [congruence |].
  cbn [length Nat.eqb].
  eapply bind_run; [exact Hcreate |].
  cbv beta iota zeta.
  destruct x as [playlistId |]; cbn [Js.truthy_opt] in Hx;
    [rewrite Hx; cbn [negb] |];
    (eapply bind_run; [apply log_run | reflexivity]).
Qed.

(** C7: a playlist whose listing holds no available entry takes the skipped
    path: [transferPlaylist] returns after the skipping line, having sent
    nothing to the destination (no creation, no search, no insertion), and
    prints neither a progress line nor a count: the counts to be read off
    its output are all zero. *)
Theorem empty_listing_is_skipped fuel client p r pages r1 :
  tracks_listing svc client (Some (tracksUrl (pl_id p))) r pages r1 ->
  length pages <= fuel ->
  filter available (concat pages) = [] ->
  exists t,
    transferPlaylist svc fuel client p r = (Returned tt, r1, t)
    /\ In (Log (LogEmptySkipping (pl_name p))) t
    /\ Forall (fun e => is_youtube_request e = false) t
    /\ creations t = [] /\ searches t = [] /\ insertions t = []
    /\ outcomes t = [] /\ summaries t = []
    /\ tally t = mkCounts 0 0 0.
Proof.
  intros Hpages Hfuel Hempty.
  destruct (getPlaylistTracksSpotify_run svc fuel client (pl_id p) r pages r1
              Hpages Hfuel) as [t0 Hfetch].
  rewrite Hempty in Hfetch.
  pose proof (getPlaylistTracksSpotify_no_youtube fuel client (pl_id p) r) as Hy.
  pose proof (getPlaylistTracksSpotify_silent svc fuel client (pl_id p) r) as Hq.
  rewrite Hfetch in Hy, Hq. unfold trace in Hy, Hq. cbn [snd] in Hy, Hq.
  eexists. split; [apply transferPlaylist_skipped; exact Hfetch |].
  set (t1 := [Log (LogFetchingTracks (pl_id p))] ++ t0
               ++ [Log (LogFoundTracks (length (@nil SpotifyTrack)))] ++ []) in *.
  assert (Hy' : Forall (fun e => is_youtube_request e = false)
                  ([Log (LogProcessing (pl_name p) (pl_id p))] ++ t1
                     ++ [Log (LogEmptySkipping (pl_name p))] ++ [])).
  { apply Forall_app. split; [repeat constructor |].
    apply Forall_app. split; [exact Hy | repeat constructor]. }
  assert (Hq' : Forall silent
                  ([Log (LogProcessing (pl_name p) (pl_id p))] ++ t1
                     ++ [Log (LogEmptySkipping (pl_name p))] ++ [])).
  { apply Forall_app. split; [repeat constructor |].
    apply Forall_app. split; [exact Hq | repeat constructor]. }
  destruct (no_youtube_requests _ Hy') as (Hc & Hs & Hi).
  split.
  { apply in_or_app. right. apply in_or_app. right. now left. }
  repeat split; trivial.
  - apply silent_outcomes, Hq'.
  - apply silent_summaries, Hq'.
  - unfold tally. rewrite (silent_outcomes _ Hq'). reflexivity.
Qed.

End Paths.

(** Gamma: two entries, both unavailable. *)
Lemma empty_listing_is_skipped_witness :
  exists t,
    transferPlaylist Demo.services 1 Demo.client Demo.gamma [] = (Returned tt, [], t)
    /\ In (Log (LogEmptySkipping "Gamma")) t
    /\ Forall (fun e => is_youtube_request e = false) t
    /\ creations t = [] /\ searches t = [] /\ insertions t = []
    /\ outcomes t = [] /\ summaries t = []
    /\ tally t = mkCounts 0 0 0.
Proof.
  apply (empty_listing_is_skipped Demo.services 1 Demo.client Demo.gamma []
           [[Demo.gone; Demo.gone]] []).
  - eapply (listing_page Demo.services Demo.client _ []
              (mkPage [Demo.gone; Demo.gone] None));
      [reflexivity | reflexivity |].
    apply listing_done. reflexivity.
  - simpl. lia.
  - reflexivity.
Defined.

Section Failures.
Context {Remote : Type} (svc : Services Remote).

(** C6: [createYouTubePlaylist] never throws; when the remote refuses the
    creation it logs the cause and returns null.  [transferPlaylist] then
    prints that it skips the playlist and returns without any search or
    insertion, and the loop over the selected playlists goes on with the
    remaining ones from the state the refusal left. *)
Theorem creation_failure_skips_one_playlist
    fuel client p rest r tracks r1 t1 cause r2 :
  getPlaylistTracksSpotify svc fuel client (pl_id p) r
    = (Returned tracks, r1, t1) ->
  tracks <> [] ->
  youtube_playlists svc
    (playlistBody (pl_name p) (newPlaylistDescription p)) r1 = (inl cause, r2) ->
  (forall title description r0,
     exists x,
       outcome (createYouTubePlaylist svc title description r0) = Returned x)
  /\ createYouTubePlaylist svc (pl_name p) (newPlaylistDescription p) r1 =
       (Returned None, r2,
        [Log (LogCreating (pl_name p));
         YtCreatePlaylist (playlistBody (pl_name p) (newPlaylistDescription p));
         Log (LogCreateError (pl_name p) cause)])
  /\ exists t,
       transferPlaylist svc fuel client p r = (Returned tt, r2, t)
       /\ In (Log (LogCreateFailedSkipping (pl_name p))) t
       /\ searches t = [] /\ insertions t = [] /\ outcomes t = []
       /\ transferPlaylists svc fuel client (p :: rest) r =
            (outcome (transferPlaylists svc fuel client rest r2),
             final (transferPlaylists svc fuel client rest r2),
             t ++ trace (transferPlaylists svc fuel client rest r2)).
Proof.
  intros Hfetch Hne Hrefused.
  assert (Hcreate :
    createYouTubePlaylist svc (pl_name p) (newPlaylistDescription p) r1 =
      (Returned None, r2,
       [Log (LogCreating (pl_name p));
        YtCreatePlaylist (playlistBody (pl_name p) (newPlaylistDescription p));
        Log (LogCreateError (pl_name p) cause)])).
  { unfold createYouTubePlaylist, try_catch, bind, request, log, emit, ret.
    simpl. rewrite Hrefused. reflexivity. }
  split.
  { intros title description r0.
    destruct (createYouTubePlaylist_run svc title description r0) as [l Hl].
    cbv zeta in Hl. rewrite Hl. eexists. reflexivity. }
  split; [exact Hcreate |].
  pose proof (transferPlaylist_create_failed svc fuel client p r tracks r1 t1
                None r2 _ Hfetch Hne Hcreate eq_refl) as Hrun.
  pose proof (getPlaylistTracksSpotify_no_youtube svc fuel client (pl_id p) r)
    as Hy.
  pose proof (getPlaylistTracksSpotify_silent svc fuel client (pl_id p) r) as Hq.
  rewrite Hfetch in Hy, Hq. unfold trace in Hy, Hq. cbn [snd] in Hy, Hq.
  destruct (no_youtube_requests _ Hy) as (_ & Hs & Hi).
  eexists. split; [exact Hrun |].
  split.
  { apply in_or_app. right. apply in_or_app. right.
    apply in_or_app. right. now left. }
  rewrite !searches_app, !insertions_app, !outcomes_app, Hs, Hi,
    (silent_outcomes _ Hq).
  repeat split; trivial.
  simpl transferPlaylists.
  apply (bind_returned _ (fun _ => transferPlaylists svc fuel client rest)
           _ _ _ _ Hrun).
Qed.

End Failures.

(** The destination refuses Delta; Epsilon, selected after it, is
    transferred all the same. *)
Lemma creation_failure_skips_one_playlist_witness :
  exists t,
    createYouTubePlaylist Demo.services "Delta" "fourth" [] =
      (Returned None, [],
       [Log (LogCreating "Delta");
        YtCreatePlaylist (mkPlaylistBody "Delta" "fourth" "private");
        Log (LogCreateError "Delta"
               (Demo.apiError "Request failed with status code 400"
                  "Invalid playlist" "invalidPlaylistSnippet"))])
    /\ transferPlaylist Demo.services 1 Demo.client Demo.delta [] = (Returned tt, [], t)
    /\ searches t = [] /\ insertions t = [] /\ outcomes t = []
    /\ transferPlaylists Demo.services 1 Demo.client [Demo.delta; Demo.epsilon] [] =
         (Returned tt, [("PL-Epsilon", "v1")],
          t ++ trace (transferPlaylists Demo.services 1 Demo.client
                        [Demo.epsilon] [])).
Proof.
  destruct (creation_failure_skips_one_playlist Demo.services 1 Demo.client
              Demo.delta [Demo.epsilon] [] [Demo.two] [] _
              (Demo.apiError "Request failed with status code 400"
                 "Invalid playlist" "invalidPlaylistSnippet") []
              eq_refl ltac:(discriminate) eq_refl)
    as (_ & Hcreate & t & Hrun & _ & Hs & Hi & Ho & Hloop).
  exists t. repeat split; trivial.
Defined.

Ltac not_in_trace :=
  let H := fresh in
  intros H; vm_compute in H;
  repeat (destruct H as [H | H]; [discriminate H |]); exact H.

(** C2, as stated, fails: both tokens are acquired and Alpha and Beta are
    selected; fetching Alpha's tracks fails, and the run ends there with the
    error thrown by [getPlaylistTracksSpotify]: Beta is never processed and
    the closing line is never printed.  And a run can end before the
    orchestrator without any failure of token acquisition: when the profile
    request fails, the command exits with code 1. *)
Lemma fetch_failure_is_skipped_counterexample :
  let run := transferCommand Demo.services 5 Demo.config
               (mkOptions false (Some ["a"; "b"])) [] in
  let early := transferCommand Demo.services_no_profile 5 Demo.config
                 (mkOptions true None) [] in
  (outcome run = Thrown (fetchTracksError "a")
   /\ In (Log (LogStarting 2)) (trace run)
   /\ In (Log (LogProcessing "Alpha" "a")) (trace run)
   /\ ~ In (Log (LogProcessing "Beta" "b")) (trace run)
   /\ ~ In (Log LogAllComplete) (trace run))
  /\ (outcome early = Exited 1
      /\ In SpotifyAuth (trace early) /\ In YouTubeAuth (trace early)
      /\ ~ In (Log (LogAuthFailed "Could not fetch Spotify user profile."))
             (trace early)
      /\ In (Log (LogUserDataFailed "Could not fetch Spotify user profile."))
           (trace early)).
Proof.
  cbv zeta. split; [split; [reflexivity |] | split; [reflexivity |]].
  - split; [vm_compute; tauto |]. split; [vm_compute; tauto |].
    split; not_in_trace.
  - split; [vm_compute; tauto |]. split; [vm_compute; tauto |].
    split; [not_in_trace | vm_compute; tauto].
Qed.

(** ** What is sent to the destination *)



Lemma searches_Forall (Q : SearchParams -> Prop) t :
  Forall (fun e => match e with YtSearch p => Q p | _ => True end) t ->
  Forall Q (searches t).
Proof.
  induction 1 as [| e t He _ IH]; [constructor |].
  destruct e; simpl; trivial. constructor; assumption.
Qed.

Section Requests.
Context {Remote : Type} (svc : Services Remote).

(** A property of events that holds of every line, pause, prompt and source
    request, and of the destination requests as the clients build them. *)
Variable P : Event -> Prop.
Hypothesis P_log : forall l, P (Log l).
Hypothesis P_get : forall u, P (SpotifyGet u).
Hypothesis P_spotify_auth : P SpotifyAuth.
Hypothesis P_youtube_auth : P YouTubeAuth.
Hypothesis P_sleep : forall ms, P (Sleep ms).
Hypothesis P_prompt : forall c, P (Prompt c).
Hypothesis P_search : forall q, P (YtSearch (searchParams q)).
Hypothesis P_create : forall title d, P (YtCreatePlaylist (playlistBody title d)).
Hypothesis P_add : forall pid vid, P (YtAddItem (playlistItemBody pid vid)).

Lemma transferTrack_emits playlistId total i item c :
  emits P (transferTrack svc playlistId total i item c).
Proof.
  unfold transferTrack, searchYouTubeVideo, addVideoToYouTubePlaylist.
  emits_auto.
Qed.

Lemma transferLoop_emits playlistId total rest :
  forall i c, emits P (transferLoop svc playlistId total i rest c).
Proof.
  induction rest as [| item rest IH]; intros i c; simpl; emits_auto.
  - apply transferTrack_emits.
  - apply IH.
Qed.

Lemma transferPlaylist_emits fuel client p :
  emits P (transferPlaylist svc fuel client p).
Proof.
  unfold transferPlaylist, createYouTubePlaylist, summary. emits_auto.
  - apply getPlaylistTracksSpotify_emits; auto.
  - apply transferLoop_emits.
Qed.

Lemma transferPlaylists_emits fuel client l :
  emits P (transferPlaylists svc fuel client l).
Proof.
  induction l as [| p l IH]; simpl; emits_auto.
  - apply transferPlaylist_emits.
  - exact IH.
Qed.

Lemma playlistsLoop_emits fuel client :
  forall url playlists, emits P (playlistsLoop svc fuel client url playlists).
Proof.
  induction fuel as [| fuel IH]; intros url playlists.
  - destruct url as [u |]; simpl; [destruct (Js.truthy u); simpl |];
      emits_auto.
  - destruct url as [u |]; simpl; [destruct (Js.truthy u); simpl |];
      emits_auto; apply IH.
Qed.

Lemma perform_emits {A} ev (op : Remote -> A * Remote) :
  P ev -> emits P (perform ev op).
Proof.
  intros H r. unfold perform, trace. destruct (op r). repeat constructor.
  exact H.
Qed.

Lemma transferCommand_emits fuel config options :
  emits P (transferCommand svc fuel config options).
Proof.
  unfold transferCommand, authenticate, fetchUserData, getCurrentUserSpotify,
    getUserPlaylistsSpotify, selectPlaylists.
  emits_auto;
    try apply playlistsLoop_emits;
    try apply transferPlaylists_emits;
    try (apply perform_emits; auto).
Qed.

End Requests.

Section Described.
Context {Remote : Type} (svc : Services Remote).


(** C5: [searchYouTubeVideo] sends one search, with a result window of 5; it
    never throws; it returns the first item of a non-empty answer as it is,
    and null when the answer has no item and when the request fails.  In
    both null cases the loop of [transferPlaylist] counts the track as not
    found and inserts nothing.  Every search of a whole run of the command
    asks for 5 results. *)
Theorem search_returns_first_or_null :
  (forall trackName artistName r,
     let params := searchParams (searchQuery trackName artistName) in
     let resp := youtube_search svc params r in
     sp_maxResults params = 5%Z
     /\ exists l,
          searchYouTubeVideo svc trackName artistName r =
            (Returned
               (match fst resp with
                | inr {| search_items := Some (bestResult :: _) |} =>
                    Some bestResult
                | inr _ => None
                | inl _ => None
                end),
             snd resp,
             [Log (LogSearching (searchQuery trackName artistName));
              YtSearch params; Log l]))
  /\ (forall youtubePlaylistId total i tr c r,
        let params :=
          searchParams (searchQuery (track_name tr) (artistNames tr)) in
        let resp := youtube_search svc params r in
        match fst resp with
        | inr {| search_items := Some (_ :: _) |} => True
        | _ =>
            exists t,
              transferTrack svc youtubePlaylistId total i (mkItem (Some tr)) c r
                = (Returned (mkCounts (addedCount c) (notFoundCount c + 1)
                               (failedCount c)),
                   snd resp, t)
              /\ outcomes t = [(i + 1, track_name tr, NotFound)]
              /\ insertions t = []
        end)
  /\ (forall fuel config options r,
        Forall (fun p => sp_maxResults p = 5%Z)
          (searches (trace (transferCommand svc fuel config options r)))).
Proof.
  split; [| split].
  3: { intros fuel config options r. apply searches_Forall.
       apply transferCommand_emits; simpl; auto. }
  - intros trackName artistName r params resp. split; [reflexivity |].
    destruct (searchYouTubeVideo_run svc trackName artistName r) as [l Hl].
    cbv zeta in Hl. exists l. rewrite Hl. unfold firstResult.
    fold params. fold resp.
    destruct (fst resp) as [e | [[[| v vs] |]]]; reflexivity.
  - intros youtubePlaylistId total i tr c r params resp.
    destruct (searchYouTubeVideo_run svc (track_name tr) (artistNames tr) r)
      as [l Hl]. cbv zeta in Hl. fold params in Hl. fold resp in Hl.
    pose proof (searchYouTubeVideo_silent svc (track_name tr) (artistNames tr) r)
      as Hq. rewrite Hl in Hq. unfold trace in Hq. cbn [snd] in Hq.
    assert (Hnone : firstResult (fst resp) = None ->
              exists t,
                transferTrack svc youtubePlaylistId total i (mkItem (Some tr)) c r
                  = (Returned (mkCounts (addedCount c) (notFoundCount c + 1)
                                 (failedCount c)),
                     snd resp, t)
                /\ outcomes t = [(i + 1, track_name tr, NotFound)]
                /\ insertions t = []).
    { intros Hnone. rewrite Hnone in Hl.
      eexists. split.
      { apply (transferTrack_not_found svc youtubePlaylistId total i tr c r
                 None _ _ Hl I). }
      inversion Hq as [| ? ? _ Hq1]; subst.
      inversion Hq1 as [| ? ? _ Hq2]; subst.
      inversion Hq2 as [| ? ? [Hlo _] _]; subst.
      unfold outcomes, insertions. simpl. simpl in Hlo.
      rewrite Hlo. split; reflexivity. }
    destruct (fst resp) as [e | [[[| v vs] |]]]; trivial; apply Hnone;
      reflexivity.
Qed.

End Described.

Section Matching.
Context {Remote : Type} (svc : Services Remote).

(** C9: the query sent for a track is a function of the track alone: its
    title, one space, then the names of its performers joined by a comma
    (followed by a space), in that order.  Whatever the remote state and the
    position in the playlist, the one search of the loop body carries it. *)
Theorem query_is_title_then_performers
    youtubePlaylistId total i tr c (r : Remote) :
  searches (trace (transferTrack svc youtubePlaylistId total i
                     (mkItem (Some tr)) c r))
  = [searchParams
       (track_name tr ++ " "
        ++ String.concat ", " (map artist_name (track_artists tr)))%string]
  /\ map sp_q
       (searches (trace (transferTrack svc youtubePlaylistId total i
                           (mkItem (Some tr)) c r)))
     = [(track_name tr ++ " "
         ++ String.concat ", " (map artist_name (track_artists tr)))%string].
Proof.
  destruct (transferTrack_run svc youtubePlaylistId total i tr c r)
    as (o & r' & t & Hrun & _ & _ & _ & Hs).
  rewrite Hrun. unfold trace. cbn [snd]. rewrite Hs. split; reflexivity.
Qed.

(** C3: when the destination answers an insertion with an error whose
    first detail has the reason "duplicate" or "playlistItemDuplicate",
    [addVideoToYouTubePlaylist] returns true, as it does when the insertion
    is accepted: inserting a pair and inserting it again with the duplicate
    answer succeeds both times.  A track whose video is reported as already
    present is counted as added, and the failed count stays as it is. *)
Theorem duplicate_insertion_counts_as_added
    playlistId vid r1 e r2 body d :
  youtube_playlistItems svc (playlistItemBody playlistId vid) r1 = (inl e, r2) ->
  response_error e = Some body ->
  hd_error (api_errors body) = Some d ->
  reason d = Some "duplicate" \/ reason d = Some "playlistItemDuplicate" ->
  addVideoToYouTubePlaylist svc playlistId vid r1 =
    (Returned true, r2,
     [YtAddItem (playlistItemBody playlistId vid);
      Log (LogAddDuplicate vid playlistId)])
  /\ (forall r,
        youtube_playlistItems svc (playlistItemBody playlistId vid) r
          = (inr tt, r1) ->
        (addVideoToYouTubePlaylist svc playlistId vid ;;
         addVideoToYouTubePlaylist svc playlistId vid) r =
          (Returned true, r2,
           [YtAddItem (playlistItemBody playlistId vid);
            YtAddItem (playlistItemBody playlistId vid);
            Log (LogAddDuplicate vid playlistId)]))
  /\ (forall total i tr c v r0 ts,
        searchYouTubeVideo svc (track_name tr) (artistNames tr) r0
          = (Returned (Some v), r1, ts) ->
        videoId v = vid ->
        Js.truthy vid = true ->
        transferTrack svc playlistId total i (mkItem (Some tr)) c r0 =
          (Returned (mkCounts (addedCount c + 1) (notFoundCount c)
                       (failedCount c)),
           r2,
           Sleep 300 :: ts
             ++ [YtAddItem (playlistItemBody playlistId vid);
                 Log (LogAddDuplicate vid playlistId)]
             ++ [Log (LogTrackAdded (i + 1) total (track_name tr)
                        (artistNames tr) (video_title v))])).
Proof.
  intros Hanswer Hbody Hd Hreason.
  assert (Hdup : reason_is (errorDetails e) "duplicate"
                 || reason_is (errorDetails e) "playlistItemDuplicate" = true).
  { unfold errorDetails. rewrite Hbody, Hd. unfold reason_is.
    destruct d as [why msg]. simpl in Hreason.
    destruct Hreason as [-> | ->]; reflexivity. }
  assert (Hadd : addVideoToYouTubePlaylist svc playlistId vid r1 =
            (Returned true, r2,
             [YtAddItem (playlistItemBody playlistId vid);
              Log (LogAddDuplicate vid playlistId)])).
  { unfold addVideoToYouTubePlaylist, try_catch, bind, request.
    rewrite Hanswer. cbv zeta. rewrite Hdup. reflexivity. }
  split; [exact Hadd |]. split.
  - intros r Haccepted.
    assert (Hfirst : addVideoToYouTubePlaylist svc playlistId vid r =
              (Returned true, r1, [YtAddItem (playlistItemBody playlistId vid)])).
    { unfold addVideoToYouTubePlaylist, try_catch, bind, request, ret.
      rewrite Haccepted. reflexivity. }
    apply (bind_run _ _ _ _ _ _ _ _ _ Hfirst Hadd).
  - intros total i tr c v r0 ts Hsearch Hv Hid. subst vid.
    apply (transferTrack_found svc playlistId total i tr c r0 v r1 ts true r2 _
             Hsearch Hid Hadd).
Qed.

End Matching.

(** "One" is twice in Beta: its video is inserted when the first occurrence
    is transferred; the destination answers the second insertion with its
    duplicate error. *)
Lemma duplicate_insertion_counts_as_added_witness :
  (addVideoToYouTubePlaylist Demo.services "PL-Beta" "v1" ;;
   addVideoToYouTubePlaylist Demo.services "PL-Beta" "v1") [] =
    (Returned true, [("PL-Beta", "v1")],
     [YtAddItem (playlistItemBody "PL-Beta" "v1");
      YtAddItem (playlistItemBody "PL-Beta" "v1");
      Log (LogAddDuplicate "v1" "PL-Beta")])
  /\ transferTrack Demo.services "PL-Beta" 5 3 Demo.one (mkCounts 1 2 0)
       [("PL-Beta", "v1")] =
       (Returned (mkCounts 2 2 0), [("PL-Beta", "v1")],
        [Sleep 300; Log (LogSearching "One Ann, Bob");
         YtSearch (searchParams "One Ann, Bob");
         Log (LogFound "One (Official)" "v1");
         YtAddItem (playlistItemBody "PL-Beta" "v1");
         Log (LogAddDuplicate "v1" "PL-Beta");
         Log (LogTrackAdded 4 5 "One" "Ann, Bob" "One (Official)")]).
Proof.
  destruct (duplicate_insertion_counts_as_added Demo.services "PL-Beta" "v1"
              [("PL-Beta", "v1")]
              (Demo.apiError "Request failed with status code 409"
                 "Video already in playlist" "playlistItemDuplicate")
              [("PL-Beta", "v1")]
              (mkApiError (Some "Video already in playlist")
                 [mkDetails (Some "playlistItemDuplicate")
                    (Some "Video already in playlist")])
              (mkDetails (Some "playlistItemDuplicate")
                 (Some "Video already in playlist"))
              eq_refl eq_refl eq_refl (or_intror eq_refl))
    as (_ & Htwice & Htrack).
  split.
  - apply (Htwice []). reflexivity.
  - apply (Htrack 5 3
             (mkTrack "One" "One" [mkArtist "Ann"; mkArtist "Bob"] "LP" 1000)
             (mkCounts 1 2 0) (Demo.video "v1" "One (Official)")
             [("PL-Beta", "v1")]
             [Log (LogSearching "One Ann, Bob");
              YtSearch (searchParams "One Ann, Bob");
              Log (LogFound "One (Official)" "v1")]);
      reflexivity.
Defined.

(** ** Selection *)

Lemma includes_In l x : Js.includes l x = true <-> In x l.
Proof.
  unfold Js.includes. rewrite existsb_exists. split.
  - intros (y & Hy & Heq). apply String.eqb_eq in Heq. now subst.
  - intros H. exists x. split; [exact H | apply String.eqb_refl].
Qed.

Lemma has_id_iff (l : list SpotifyPlaylist) id :
  existsb (fun p => String.eqb (pl_id p) id) l = true
  <-> exists p, In p l /\ pl_id p = id.
Proof.
  rewrite existsb_exists. split; intros (p & Hp & Heq); exists p; split; trivial.
  - now apply String.eqb_eq.
  - now apply String.eqb_eq.
Qed.

Section Selection.
Context {Remote : Type} (svc : Services Remote).

(** C8: with [--playlist ids] (and no [--all]) the selection is the listing
    filtered by membership of the id in the requested ids: a sub-sequence of
    the listing, in listing order whatever the order of the request; the
    requested ids that match no playlist are reported in a warning line and
    the selection is returned all the same.  With [--all] the selection is
    the whole listing, unchanged. *)
Theorem selection_keeps_listing_order
    (allSpotifyPlaylists : list SpotifyPlaylist) (ids : list string) (r : Remote) :
  ids <> [] ->
  let selected :=
    filter (fun p => Js.includes ids (pl_id p)) allSpotifyPlaylists in
  (exists notFoundIds,
     selectPlaylists svc (mkOptions false (Some ids)) allSpotifyPlaylists r =
       (Returned selected, r,
        Log (LogSelectedByIds (length selected) (map pl_name selected))
          :: match notFoundIds with
             | [] => []
             | _ :: _ => [Log (LogWarnNotFound notFoundIds)]
             end)
     /\ (forall id,
           In id notFoundIds <->
           In id ids /\ ~ exists p, In p allSpotifyPlaylists /\ pl_id p = id)
     /\ subsequence notFoundIds ids)
  /\ subsequence selected allSpotifyPlaylists
  /\ (forall p,
        In p selected <-> In p allSpotifyPlaylists /\ In (pl_id p) ids)
  /\ (forall requested,
        selectPlaylists svc (mkOptions true requested) allSpotifyPlaylists r =
          (Returned allSpotifyPlaylists, r,
           [Log (LogSelectedAll (length allSpotifyPlaylists))])).
Proof.
  intros Hids selected.
  assert (Hsel : forall p,
            In p selected <-> In p allSpotifyPlaylists /\ In (pl_id p) ids).
  { intros p. unfold selected. rewrite filter_In, includes_In. tauto. }
  split; [| split; [apply filter_subsequence | split; [exact Hsel | reflexivity]]].
  exists (filter (fun id =>
                    negb (existsb (fun p => String.eqb (pl_id p) id) selected))
            ids).
  split; [| split; [| apply filter_subsequence]].
  - destruct ids as [| id ids]; [congruence |].
    unfold selectPlaylists. cbn [opt_all opt_playlist]. cbv zeta.
    fold selected.
    destruct (filter _ (id :: ids)) as [| x l]; reflexivity.
  - intros id. rewrite filter_In, negb_true_iff, <- not_true_iff_false, has_id_iff.
    split; intros [Hin Hno]; split; trivial; intros (p & Hp & Heq); apply Hno;
      exists p; split; trivial.
    + apply Hsel. split; [exact Hp | now rewrite Heq].
    + now apply Hsel.
Qed.

End Selection.

(** Five playlists and the ids "b" and "z": Beta is selected and "z" is
    reported; asking for "e" before "b" gives listing order all the same. *)
Lemma selection_keeps_listing_order_witness :
  ((exists notFoundIds,
      selectPlaylists Demo.services (mkOptions false (Some ["b"; "z"]))
        Demo.listing [] =
        (Returned [Demo.beta], [],
         Log (LogSelectedByIds 1 ["Beta"])
           :: match notFoundIds with
              | [] => []
              | _ :: _ => [Log (LogWarnNotFound notFoundIds)]
              end)
      /\ (forall id,
            In id notFoundIds <->
            In id ["b"; "z"] /\ ~ exists p, In p Demo.listing /\ pl_id p = id)
      /\ subsequence notFoundIds ["b"; "z"])
   /\ subsequence [Demo.beta] Demo.listing
   /\ (forall p,
         In p [Demo.beta] <-> In p Demo.listing /\ In (pl_id p) ["b"; "z"])
   /\ (forall requested,
         selectPlaylists Demo.services (mkOptions true requested) Demo.listing [] =
           (Returned Demo.listing, [], [Log (LogSelectedAll 5)])))
  /\ selectPlaylists Demo.services (mkOptions false (Some ["b"; "z"]))
       Demo.listing [] =
       (Returned [Demo.beta], [],
        [Log (LogSelectedByIds 1 ["Beta"]); Log (LogWarnNotFound ["z"])])
  /\ selectPlaylists Demo.services (mkOptions false (Some ["e"; "b"]))
       Demo.listing [] =
       (Returned [Demo.beta; Demo.epsilon], [],
        [Log (LogSelectedByIds 2 ["Beta"; "Epsilon"])]).
Proof.
  split; [| split; reflexivity].
  exact (selection_keeps_listing_order Demo.services Demo.listing ["b"; "z"]
           [] ltac:(discriminate)).
Defined.

(** * Further properties *)

(** ** The listings of the source *)

Lemma source_requests_app t1 t2 :
  source_requests (t1 ++ t2) = source_requests t1 ++ source_requests t2.
Proof. apply flat_map_app. Qed.

Section SourceListings.
Context {Remote : Type} (svc : Services Remote).

Lemma playlistsLoop_run client url r pages r' :
  playlists_listing svc client url r pages r' ->
  forall fuel acc, length pages <= fuel ->
  exists t,
    playlistsLoop svc fuel client url acc r
      = (Returned (acc ++ concat pages), r', t)
    /\ length (source_requests t) = length pages.
Proof.
  induction 1 as [url r Hurl | u r page r1 pages r2 Hu Hget _ IH];
    intros fuel acc Hfuel.
  - exists []. simpl concat. rewrite app_nil_r. split; [| reflexivity].
    destruct url as [u |], fuel; simpl in *; try rewrite Hurl; reflexivity.
  - destruct fuel as [| fuel]; [simpl in Hfuel; lia |].
    simpl in Hfuel. apply le_S_n in Hfuel.
    destruct (IH fuel (acc ++ items page) Hfuel) as [t [Ht Hn]].
    simpl concat. rewrite app_assoc.
    simpl playlistsLoop. rewrite Hu. cbn [negb].
    destruct page as [its [[| ch n] |]];
      cbn [next items option_map Js.truthy_opt Js.truthy] in *;
      eexists;
      (split;
       [ eapply bind_run; [apply request_run; exact Hget |]; cbv zeta;
         cbn [next items option_map Js.truthy_opt Js.truthy] | ]).
    + rewrite replace_first_empty in Ht.
      eapply bind_run; [reflexivity | exact Ht].
    + simpl. now rewrite Hn.
    + eapply bind_run; [eapply bind_run; [apply log_run | reflexivity] |].
      exact Ht.
    + simpl. now rewrite Hn.
    + eapply bind_run; [reflexivity | exact Ht].
    + simpl. now rewrite Hn.
Qed.

(** X1: when the source serves the pages of a user's playlists,
    [getUserPlaylistsSpotify] (given fuel for every page) returns all their
    entries, page after page and nothing left out or filtered, after exactly
    one request per page. *)
Theorem playlists_listing_is_complete fuel client userId r pages r' :
  playlists_listing svc client (Some (playlistsUrl userId)) r pages r' ->
  length pages <= fuel ->
  exists t,
    getUserPlaylistsSpotify svc fuel client userId r
      = (Returned (concat pages), r', t)
    /\ length (source_requests t) = length pages
    /\ In (Log (LogFoundPlaylists (length (concat pages)))) t.
Proof.
  intros Hpages Hfuel.
  destruct (playlistsLoop_run client _ r pages r' Hpages fuel [] Hfuel)
    as [t [Ht Hn]]. simpl app in Ht.
  exists ([Log LogFetchingPlaylists] ++ t
            ++ [Log (LogFoundPlaylists (length (concat pages)))] ++ []).
  split; [| split].
  - unfold getUserPlaylistsSpotify.
    eapply bind_run; [apply log_run |].
    apply try_catch_returned.
    eapply bind_run; [exact Ht |].
    eapply bind_run; [apply log_run | reflexivity].
  - rewrite !source_requests_app. simpl. rewrite app_nil_r. exact Hn.
  - apply in_or_app. right. apply in_or_app. right. now left.
Qed.

Lemma playlistsLoop_broken client url r n cause r' :
  playlists_broken svc client url r n cause r' ->
  forall fuel acc, n < fuel ->
  exists t,
    playlistsLoop svc fuel client url acc r = (Thrown cause, r', t)
    /\ length (source_requests t) = S n.
Proof.
  induction 1 as [u r cause r1 Hu Hget | u r page r1 n cause r2 Hu Hget _ IH];
    intros fuel acc Hfuel.
  - destruct fuel as [| fuel]; [lia |].
    simpl playlistsLoop. rewrite Hu. cbn [negb].
    eexists. split.
    + apply bind_thrown. unfold request. rewrite Hget. reflexivity.
    + reflexivity.
  - destruct fuel as [| fuel]; [lia |].
    apply PeanoNat.lt_S_n in Hfuel.
    destruct (IH fuel (acc ++ items page) Hfuel) as [t [Ht Hn]].
    simpl playlistsLoop. rewrite Hu. cbn [negb].
    destruct page as [its [[| ch m] |]];
      cbn [next items option_map Js.truthy_opt Js.truthy] in *;
      eexists;
      (split;
       [ eapply bind_run; [apply request_run; exact Hget |]; cbv zeta;
         cbn [next items option_map Js.truthy_opt Js.truthy] | ]).
    + rewrite replace_first_empty in Ht.
      eapply bind_run; [reflexivity | exact Ht].
    + simpl. now rewrite Hn.
    + eapply bind_run; [eapply bind_run; [apply log_run | reflexivity] |].
      exact Ht.
    + simpl. now rewrite Hn.
    + eapply bind_run; [reflexivity | exact Ht].
    + simpl. now rewrite Hn.
Qed.

(** X2: when a request for a page of the user's playlists fails, be it
    after [n] pages that arrived, [getUserPlaylistsSpotify] returns nothing
    of what it had collected: it logs the cause and throws its own error. *)
Theorem playlists_listing_has_no_partial_result fuel client userId r n cause r' :
  playlists_broken svc client (Some (playlistsUrl userId)) r n cause r' ->
  n < fuel ->
  exists t,
    getUserPlaylistsSpotify svc fuel client userId r =
      (Thrown fetchPlaylistsError, r',
       [Log LogFetchingPlaylists] ++ t ++ [Log (LogFetchPlaylistsError cause)])
    /\ length (source_requests t) = S n.
Proof.
  intros Hbroken Hfuel.
  destruct (playlistsLoop_broken client _ r n cause r' Hbroken fuel [] Hfuel)
    as [t [Ht Hn]].
  exists t. split; [| exact Hn].
  unfold getUserPlaylistsSpotify.
  eapply bind_run; [apply log_run |].
  unfold try_catch. rewrite (bind_thrown _ _ _ _ _ _ Ht).
  reflexivity.
Qed.

End SourceListings.

(** Five playlists in two pages. *)
Lemma playlists_listing_is_complete_witness :
  exists t,
    getUserPlaylistsSpotify Cases.paged 2 Demo.client "me" []
      = (Returned Demo.listing, [], t)
    /\ length (source_requests t) = 2
    /\ In (Log (LogFoundPlaylists 5)) t.
Proof.
  apply (playlists_listing_is_complete Cases.paged 2 Demo.client "me" []
           [[Demo.alpha; Demo.beta]; [Demo.gamma; Demo.delta; Demo.epsilon]] []).
  - eapply (playlists_page Cases.paged Demo.client _ []
              (mkPage [Demo.alpha; Demo.beta] _));
      [reflexivity | reflexivity |].
    eapply (playlists_page Cases.paged Demo.client _ []
              (mkPage [Demo.gamma; Demo.delta; Demo.epsilon] None));
      [reflexivity | reflexivity |].
    apply playlists_done. reflexivity.
  - simpl. lia.
Defined.

(** The second request fails: the two playlists of the first page are lost. *)
Lemma playlists_listing_has_no_partial_result_witness :
  exists t,
    getUserPlaylistsSpotify Cases.broken 2 Demo.client "me" [] =
      (Thrown fetchPlaylistsError, [],
       [Log LogFetchingPlaylists] ++ t
         ++ [Log (LogFetchPlaylistsError Demo.unavailable)])
    /\ length (source_requests t) = 2.
Proof.
  apply (playlists_listing_has_no_partial_result Cases.broken 2 Demo.client
           "me" [] 1 Demo.unavailable []).
  - eapply (broken_later Cases.broken Demo.client _ []
              (mkPage [Demo.alpha; Demo.beta] _));
      [reflexivity | reflexivity |].
    apply broken_here; reflexivity.
  - lia.
Defined.

Section TrackListings.
Context {Remote : Type} (svc : Services Remote).

Lemma tracksLoop_broken client url r n cause r' :
  tracks_broken svc client url r n cause r' ->
  forall fuel acc, n < fuel ->
  exists t,
    tracksLoop svc fuel client url acc r = (Thrown cause, r', t)
    /\ length (source_requests t) = S n.
Proof.
  induction 1 as [u r cause r1 Hu Hget | u r page r1 n cause r2 Hu Hget _ IH];
    intros fuel acc Hfuel.
  - destruct fuel as [| fuel]; [lia |].
    simpl tracksLoop. rewrite Hu. cbn [negb].
    eexists. split.
    + apply bind_thrown. unfold request. rewrite Hget. reflexivity.
    + reflexivity.
  - destruct fuel as [| fuel]; [lia |].
    apply PeanoNat.lt_S_n in Hfuel.
    destruct (IH fuel (acc ++ filter available (items page)) Hfuel)
      as [t [Ht Hn]].
    simpl tracksLoop. rewrite Hu. cbn [negb].
    destruct page as [its [[| ch m] |]];
      cbn [next items option_map Js.truthy_opt Js.truthy] in *;
      eexists;
      (split;
       [ eapply bind_run; [apply request_run; exact Hget |]; cbv zeta;
         cbn [next items option_map Js.truthy_opt Js.truthy] | ]).
    + rewrite replace_first_empty in Ht.
      eapply bind_run; [reflexivity | exact Ht].
    + simpl. now rewrite Hn.
    + eapply bind_run; [eapply bind_run; [apply log_run | reflexivity] |].
      exact Ht.
    + simpl. now rewrite Hn.
    + eapply bind_run; [reflexivity | exact Ht].
    + simpl. now rewrite Hn.
Qed.

(** X3: when a request for a page of a playlist's tracks fails, be it after
    [n] pages that arrived, [getPlaylistTracksSpotify] hands back none of the
    tracks it had collected: it logs the cause and throws its own error, and
    [transferPlaylist] ends with that error without a request to the
    destination. *)
Theorem tracks_listing_has_no_partial_result fuel client p r n cause r' :
  tracks_broken svc client (Some (tracksUrl (pl_id p))) r n cause r' ->
  n < fuel ->
  exists t,
    getPlaylistTracksSpotify svc fuel client (pl_id p) r =
      (Thrown (fetchTracksError (pl_id p)), r',
       [Log (LogFetchingTracks (pl_id p))] ++ t
         ++ [Log (LogFetchTracksError (pl_id p) cause)])
    /\ length (source_requests t) = S n
    /\ transferPlaylist svc fuel client p r =
         (Thrown (fetchTracksError (pl_id p)), r',
          [Log (LogProcessing (pl_name p) (pl_id p))]
            ++ [Log (LogFetchingTracks (pl_id p))] ++ t
            ++ [Log (LogFetchTracksError (pl_id p) cause)])
    /\ creations t = [] /\ searches t = [] /\ insertions t = [].
Proof.
  intros Hbroken Hfuel.
  destruct (tracksLoop_broken client _ r n cause r' Hbroken fuel [] Hfuel)
    as [t [Ht Hn]].
  assert (Hrun : getPlaylistTracksSpotify svc fuel client (pl_id p) r =
            (Thrown (fetchTracksError (pl_id p)), r',
             [Log (LogFetchingTracks (pl_id p))] ++ t
               ++ [Log (LogFetchTracksError (pl_id p) cause)])).
  { unfold getPlaylistTracksSpotify.
    eapply bind_run; [apply log_run |].
    unfold try_catch. rewrite (bind_thrown _ _ _ _ _ _ Ht). reflexivity. }
  exists t. split; [exact Hrun |]. split; [exact Hn |].
  split; [apply transferPlaylist_fetch_thrown; exact Hrun |].
  pose proof (getPlaylistTracksSpotify_no_youtube svc fuel client (pl_id p) r)
    as Hy. rewrite Hrun in Hy. unfold trace in Hy. cbn [snd] in Hy.
  apply Forall_app in Hy. destruct Hy as [_ Hy].
  apply Forall_app in Hy. destruct Hy as [Hy _].
  apply no_youtube_requests. exact Hy.
Qed.

Lemma tracksLoop_available fuel client :
  forall url acc r tracks r' t,
    Forall (fun item => available item = true) acc ->
    tracksLoop svc fuel client url acc r = (Returned tracks, r', t) ->
    Forall (fun item => available item = true) tracks.
Proof.
  induction fuel as [| fuel IH]; intros url acc r tracks r' t Hacc Hrun.
  - destruct url as [u |]; simpl in Hrun;
      [destruct (Js.truthy u); simpl in Hrun |];
      inversion Hrun; subst; trivial.
  - destruct url as [u |]; simpl in Hrun;
      [destruct (Js.truthy u); simpl in Hrun |];
      try (inversion Hrun; subst; trivial; fail).
    unfold bind at 1 in Hrun. unfold request in Hrun.
    destruct (spotify_tracks svc u r) as [[e | page] r1];
      [discriminate |].
    cbv zeta in Hrun.
    set (acc' := acc ++ filter available (items page)) in *.
    assert (Hacc' : Forall (fun item => available item = true) acc').
    { apply Forall_app. split; [exact Hacc |].
      apply Forall_forall. intros x Hx. apply filter_In in Hx. tauto. }
    destruct (Js.truthy_opt (next page)); unfold bind, log, emit, ret in Hrun;
      simpl in Hrun;
      match type of Hrun with
      | context [tracksLoop svc fuel client ?url' acc' r1] =>
          destruct (tracksLoop svc fuel client url' acc' r1)
            as [[[l | e | c |] r2] t2] eqn:Hloop;
          try discriminate;
          inversion Hrun; subst;
          apply (IH _ _ _ _ _ _ Hacc' Hloop)
      end.
Qed.

(** X4: whatever the source serves and however much fuel there is, a list
    returned by [getPlaylistTracksSpotify] holds no entry with a null
    track. *)
Theorem fetched_tracks_are_available fuel client playlistId r tracks r' t :
  getPlaylistTracksSpotify svc fuel client playlistId r = (Returned tracks, r', t) ->
  Forall (fun item => track item <> None) tracks
  /\ filter available tracks = tracks
  /\ In (Log (LogFoundTracks (length tracks))) t.
Proof.
  unfold getPlaylistTracksSpotify, try_catch.
  unfold bind at 1. simpl. unfold bind at 1.
  destruct (tracksLoop svc fuel client _ [] r) as [[[l | e | c |] r0] t0] eqn:Hloop;
    simpl; intros H; inversion H; subst.
  pose proof (tracksLoop_available fuel client _ [] r tracks r' t0
                (Forall_nil _) Hloop) as Hall.
  split; [| split].
  - eapply Forall_impl; [| exact Hall]. intros item Hi.
    unfold available in Hi. destruct (track item); congruence.
  - clear - Hall. induction Hall as [| x l Hx _ IH]; simpl; trivial.
    now rewrite Hx, IH.
  - right. apply in_or_app. right. now left.
Qed.

End TrackListings.

(** Beta's second page cannot be fetched: the two tracks of the first page
    are not transferred. *)
Lemma tracks_listing_has_no_partial_result_witness :
  exists t,
    getPlaylistTracksSpotify Cases.half_beta 2 Demo.client "b" [] =
      (Thrown (fetchTracksError "b"), [],
       [Log (LogFetchingTracks "b")] ++ t
         ++ [Log (LogFetchTracksError "b" Demo.unavailable)])
    /\ length (source_requests t) = 2
    /\ transferPlaylist Cases.half_beta 2 Demo.client Demo.beta [] =
         (Thrown (fetchTracksError "b"), [],
          [Log (LogProcessing "Beta" "b")]
            ++ [Log (LogFetchingTracks "b")] ++ t
            ++ [Log (LogFetchTracksError "b" Demo.unavailable)])
    /\ creations t = [] /\ searches t = [] /\ insertions t = [].
Proof.
  apply (tracks_listing_has_no_partial_result Cases.half_beta 2 Demo.client
           Demo.beta [] 1 Demo.unavailable []).
  - eapply (tracks_broken_later Cases.half_beta Demo.client _ []
              Demo.beta_page1);
      [reflexivity | reflexivity |].
    apply tracks_broken_here; reflexivity.
  - lia.
Defined.

Lemma fetched_tracks_are_available_witness :
  Forall (fun item => track item <> None)
    [Demo.one; Demo.two; Demo.three; Demo.one; Demo.four]
  /\ filter available [Demo.one; Demo.two; Demo.three; Demo.one; Demo.four]
     = [Demo.one; Demo.two; Demo.three; Demo.one; Demo.four]
  /\ In (Log (LogFoundTracks 5))
       (trace (getPlaylistTracksSpotify Demo.services 2 Demo.client "b" [])).
Proof.
  apply (fetched_tracks_are_available Demo.services 2 Demo.client "b" []
           [Demo.one; Demo.two; Demo.three; Demo.one; Demo.four] []).
  reflexivity.
Defined.

(** ** What the loop sends *)

Lemma pauses_app t1 t2 : pauses (t1 ++ t2) = pauses t1 ++ pauses t2.
Proof. apply flat_map_app. Qed.

Lemma pauses_logs ls : pauses (map Log ls) = [].
Proof. induction ls; simpl; auto. Qed.

Lemma insertions_logs ls : insertions (map Log ls) = [].
Proof. induction ls; simpl; auto. Qed.

(** Whether an insertion is attempted for a track that ends this way. *)
Lemma count_added o c :
  addedCount (count o c) + failedCount (count o c)
  = addedCount c + failedCount c
    + match o with NotFound => 0 | _ => 1 end.
Proof. destruct o; simpl; lia. Qed.

Section LoopRequests.
Context {Remote : Type} (svc : Services Remote).

Lemma transferTrack_requests playlistId total i tr c r :
  exists o r' t,
    transferTrack svc playlistId total i (mkItem (Some tr)) c r
      = (Returned (count o c), r', t)
    /\ outcomes t = [(i + 1, track_name tr, o)]
    /\ pauses t = [300%Z]
    /\ length (searches t) = 1
    /\ length (insertions t) = match o with NotFound => 0 | _ => 1 end
    /\ Forall (fun b => ib_playlistId b = playlistId /\ ib_kind b = "youtube#video")
         (insertions t).
Proof.
  destruct (searchYouTubeVideo_run svc (track_name tr) (artistNames tr) r)
    as [l Hs]. cbv zeta in Hs.
  set (q := searchQuery (track_name tr) (artistNames tr)) in *.
  set (resp := youtube_search svc (searchParams q) r) in *.
  pose proof (searchYouTubeVideo_silent svc (track_name tr) (artistNames tr) r)
    as Hq. rewrite Hs in Hq. unfold trace in Hq. cbn [snd] in Hq.
  assert (Hlo : outcome_of (Log l) = []).
  { inversion Hq as [| ? ? _ Hq1]; subst.
    inversion Hq1 as [| ? ? _ Hq2]; subst.
    inversion Hq2 as [| ? ? [H _] _]; subst. exact H. }
  assert (Hnf : forall x,
             match x with Some v => Js.truthy (videoId v) = false
                        | None => True end ->
             firstResult (fst resp) = x ->
             exists o r' t,
               transferTrack svc playlistId total i (mkItem (Some tr)) c r
                 = (Returned (count o c), r', t)
               /\ outcomes t = [(i + 1, track_name tr, o)]
               /\ pauses t = [300%Z]
               /\ length (searches t) = 1
               /\ length (insertions t) = match o with NotFound => 0 | _ => 1 end
               /\ Forall (fun b => ib_playlistId b = playlistId
                                   /\ ib_kind b = "youtube#video")
                    (insertions t)).
  { intros x Hx Hfx. rewrite Hfx in Hs. eexists NotFound, _, _. split.
    { eapply transferTrack_not_found; [exact Hs | exact Hx]. }
    unfold outcomes, pauses, searches, insertions. simpl. simpl in Hlo.
    rewrite Hlo. repeat split; constructor. }
  destruct (firstResult (fst resp)) as [v |] eqn:Hv;
    [ destruct (Js.truthy (videoId v)) eqn:Hid | ];
    [ | apply (Hnf (Some v)); trivial | apply (Hnf None); trivial ].
  destruct (addVideoToYouTubePlaylist_run svc playlistId (videoId v)
              (snd resp)) as [ls [Ha Hls]]. cbv zeta in Ha.
  assert (Hlso : outcomes (map Log ls) = []).
  { clear - Hls. induction Hls as [| x ls [Hx _] _ IH]; [reflexivity |].
    unfold outcomes in *. simpl. simpl in Hx. now rewrite Hx, IH. }
  eexists _, _, _. split.
  { eapply transferTrack_found; eassumption. }
  rewrite app_comm_cons.
  rewrite !outcomes_app, !pauses_app, !searches_app, !insertions_app.
  cbn [app]. unfold outcomes at 1, pauses at 1, searches at 1, insertions at 1.
  simpl flat_map. simpl in Hlo. rewrite Hlo.
  change (outcomes (YtAddItem (playlistItemBody playlistId (videoId v))
                      :: map Log ls)) with (outcomes (map Log ls)).
  change (pauses (YtAddItem (playlistItemBody playlistId (videoId v))
                    :: map Log ls)) with (pauses (map Log ls)).
  change (searches (YtAddItem (playlistItemBody playlistId (videoId v))
                      :: map Log ls)) with (searches (map Log ls)).
  change (insertions (YtAddItem (playlistItemBody playlistId (videoId v))
                        :: map Log ls))
    with (playlistItemBody playlistId (videoId v) :: insertions (map Log ls)).
  rewrite Hlso, pauses_logs, searches_logs, insertions_logs.
  destruct (match fst (youtube_playlistItems svc _ (snd resp)) with
            | inl error => duplicateReported error
            | inr _ => true
            end); simpl; repeat split; repeat constructor.
Qed.

(** X5: for every list of entries the loop of [transferPlaylist] pauses
    300 ms once per available entry and searches once per available entry;
    it attempts an insertion exactly for the tracks that end as added or as
    failed, never for one that ends as not found; and every insertion goes
    to the playlist the loop was given, as a video. *)
Theorem loop_requests_account_for_outcomes playlistId total rest :
  forall i c r,
  exists c' r' t,
    transferLoop svc playlistId total i rest c r = (Returned c', r', t)
    /\ pauses t = repeat 300%Z (length (filter available rest))
    /\ length (searches t) = length (filter available rest)
    /\ length (insertions t) + notFoundCount c'
       = length (filter available rest) + notFoundCount c
    /\ addedCount c' + failedCount c'
       = addedCount c + failedCount c + length (insertions t)
    /\ Forall (fun b => ib_playlistId b = playlistId /\ ib_kind b = "youtube#video")
         (insertions t).
Proof.
  induction rest as [| [[tr |]] rest IH]; intros i c r.
  - exists c, r, []. simpl. repeat split; try lia. constructor.
  - destruct (transferTrack_requests playlistId total i tr c r)
      as (o & r1 & t1 & H1 & _ & Hp & Hs & Hi & Hf).
    destruct (IH (i + 1) (count o c) r1)
      as (c' & r2 & t2 & H2 & Hp2 & Hs2 & Hn2 & Ha2 & Hf2).
    exists c', r2, (t1 ++ t2). split.
    { simpl transferLoop. eapply bind_run; eassumption. }
    rewrite pauses_app, searches_app, insertions_app, !length_app, Hp, Hp2,
      Hs, Hs2, Hi.
    pose proof (count_added o c) as Hc.
    simpl filter. simpl length.
    repeat split.
    + destruct o; simpl in *; lia.
    + destruct o; simpl in *; lia.
    + apply Forall_app. split; assumption.
  - destruct (IH (i + 1) c r)
      as (c' & r2 & t2 & H2 & Hp2 & Hs2 & Hn2 & Ha2 & Hf2).
    exists c', r2, t2. split; [| simpl filter; auto].
    simpl transferLoop.
    rewrite (bind_returned _ _ _ _ _ _ (transferTrack_unavailable svc _ _ _ _ _)).
    rewrite H2. reflexivity.
Qed.

End LoopRequests.

Section Refusals.
Context {Remote : Type} (svc : Services Remote).

(** X6: when a video was found and the destination refuses its insertion
    for any reason but a duplicate, [addVideoToYouTubePlaylist] returns false
    after one line (a warning when the reason is "forbidden" and the message
    speaks of disabled comments, the error otherwise), and the track is
    counted as failed: nothing is thrown, so the loop goes on with the next
    track. *)
Theorem refused_insertion_counts_as_failed
    playlistId total i tr c r v r1 ts e r2 :
  searchYouTubeVideo svc (track_name tr) (artistNames tr) r
    = (Returned (Some v), r1, ts) ->
  Js.truthy (videoId v) = true ->
  youtube_playlistItems svc (playlistItemBody playlistId (videoId v)) r1
    = (inl e, r2) ->
  reason_is (errorDetails e) "duplicate" = false ->
  reason_is (errorDetails e) "playlistItemDuplicate" = false ->
  let line :=
    if reason_is (errorDetails e) "forbidden"
       && api_message_includes e "video owner has disabled comments"
    then LogAddForbidden (videoId v)
    else LogAddError (videoId v) playlistId e in
  addVideoToYouTubePlaylist svc playlistId (videoId v) r1 =
    (Returned false, r2,
     [YtAddItem (playlistItemBody playlistId (videoId v)); Log line])
  /\ transferTrack svc playlistId total i (mkItem (Some tr)) c r =
       (Returned (mkCounts (addedCount c) (notFoundCount c) (failedCount c + 1)),
        r2,
        Sleep 300 :: ts
          ++ [YtAddItem (playlistItemBody playlistId (videoId v)); Log line]
          ++ [Log (LogTrackFailed (i + 1) total (track_name tr)
                     (artistNames tr))]).
Proof.
  intros Hsearch Hid Hrefused Hd1 Hd2 line.
  assert (Hadd : addVideoToYouTubePlaylist svc playlistId (videoId v) r1 =
            (Returned false, r2,
             [YtAddItem (playlistItemBody playlistId (videoId v)); Log line])).
  { unfold addVideoToYouTubePlaylist, try_catch, bind, request.
    rewrite Hrefused. cbv zeta. rewrite Hd1, Hd2. cbn [orb].
    unfold line.
    destruct (reason_is (errorDetails e) "forbidden"
              && api_message_includes e "video owner has disabled comments");
      reflexivity. }
  split; [exact Hadd |].
  apply (transferTrack_found svc playlistId total i tr c r v r1 ts false r2 _
           Hsearch Hid Hadd).
Qed.

(** X7: a first result whose video id is empty is logged as found by
    [searchYouTubeVideo], but the loop counts the track as not found and
    sends no insertion. *)
Theorem video_without_id_is_not_found
    playlistId total i tr c r v vs r1 :
  youtube_search svc
    (searchParams (searchQuery (track_name tr) (artistNames tr))) r
    = (inr (mkSearchData (Some (v :: vs))), r1) ->
  videoId v = "" ->
  transferTrack svc playlistId total i (mkItem (Some tr)) c r =
    (Returned (mkCounts (addedCount c) (notFoundCount c + 1) (failedCount c)),
     r1,
     [Sleep 300;
      Log (LogSearching (searchQuery (track_name tr) (artistNames tr)));
      YtSearch (searchParams (searchQuery (track_name tr) (artistNames tr)));
      Log (LogFound (video_title v) "");
      Log (LogTrackNotFound (i + 1) total (track_name tr) (artistNames tr))]).
Proof.
  intros Hsearch Hid.
  assert (Hs : searchYouTubeVideo svc (track_name tr) (artistNames tr) r =
            (Returned (Some v), r1,
             [Log (LogSearching (searchQuery (track_name tr) (artistNames tr)));
              YtSearch (searchParams
                          (searchQuery (track_name tr) (artistNames tr)));
              Log (LogFound (video_title v) "")])).
  { unfold searchYouTubeVideo, try_catch, bind, request, log, emit, ret.
    rewrite Hsearch. simpl. rewrite Hid. reflexivity. }
  apply (transferTrack_not_found svc playlistId total i tr c r (Some v) r1 _ Hs).
  rewrite Hid. reflexivity.
Qed.

End Refusals.

(** "Four" is found, and the destination refuses its video. *)
Lemma refused_insertion_counts_as_failed_witness :
  addVideoToYouTubePlaylist Demo.services "PL-Beta" "v4" [] =
    (Returned false, [],
     [YtAddItem (playlistItemBody "PL-Beta" "v4"); Log (LogAddForbidden "v4")])
  /\ transferTrack Demo.services "PL-Beta" 5 4 Demo.four (mkCounts 2 2 0) [] =
       (Returned (mkCounts 2 2 1), [],
        [Sleep 300; Log (LogSearching "Four Dee");
         YtSearch (searchParams "Four Dee"); Log (LogFound "Four" "v4");
         YtAddItem (playlistItemBody "PL-Beta" "v4");
         Log (LogAddForbidden "v4");
         Log (LogTrackFailed 5 5 "Four" "Dee")]).
Proof.
  apply (refused_insertion_counts_as_failed Demo.services "PL-Beta" 5 4
           (mkTrack "Four" "Four" [mkArtist "Dee"] "LP" 1000) (mkCounts 2 2 0)
           [] (Demo.video "v4" "Four") []
           [Log (LogSearching "Four Dee"); YtSearch (searchParams "Four Dee");
            Log (LogFound "Four" "v4")]
           (Demo.apiError "Request failed with status code 403"
              "Forbidden: video owner has disabled comments" "forbidden") []);
    reflexivity.
Defined.

Lemma video_without_id_is_not_found_witness :
  transferTrack Cases.blank "PL-Beta" 5 0 Demo.one (mkCounts 0 0 0) [] =
    (Returned (mkCounts 0 1 0), [],
     [Sleep 300; Log (LogSearching "One Ann, Bob");
      YtSearch (searchParams "One Ann, Bob"); Log (LogFound "Untitled" "");
      Log (LogTrackNotFound 1 5 "One" "Ann, Bob")]).
Proof.
  apply (video_without_id_is_not_found Cases.blank "PL-Beta" 5 0
           (mkTrack "One" "One" [mkArtist "Ann"; mkArtist "Bob"] "LP" 1000)
           (mkCounts 0 0 0) [] (Demo.video "" "Untitled") [] []);
    reflexivity.
Defined.

(** ** Where a transfer is announced *)

(** The line that announces a playlist is printed at the start of
    [transferPlaylist] and nowhere else. *)
Lemma not_announcing_processed t :
  Forall unannounced t -> processed t = [].
Proof.
  induction 1 as [| e t He _ IH]; [reflexivity |].
  unfold processed in *. simpl. rewrite IH.
  destruct e as [[] | | | | | | | |]; try reflexivity. contradiction.
Qed.

Lemma processed_app t1 t2 : processed (t1 ++ t2) = processed t1 ++ processed t2.
Proof. apply flat_map_app. Qed.

Section Announcing.
Context {Remote : Type} (svc : Services Remote).

Lemma transferLoop_not_announcing playlistId total rest :
  forall i c, emits unannounced (transferLoop svc playlistId total i rest c).
Proof.
  induction rest as [| item rest IH]; intros i c; simpl; emits_auto.
  - unfold transferTrack, searchYouTubeVideo, addVideoToYouTubePlaylist.
    emits_auto.
  - apply IH.
Qed.

Lemma getPlaylistTracksSpotify_not_announcing fuel client playlistId :
  emits unannounced (getPlaylistTracksSpotify svc fuel client playlistId).
Proof.
  unfold getPlaylistTracksSpotify. emits_auto.
  apply tracksLoop_emits; simpl; auto.
Qed.

Lemma createYouTubePlaylist_not_announcing title description :
  emits unannounced (createYouTubePlaylist svc title description).
Proof. unfold createYouTubePlaylist. emits_auto. Qed.

End Announcing.

(** ** How a transfer can end *)

Section Endings.
Context {Remote : Type} (svc : Services Remote).

Lemma bind_stops {A B} (m : M Remote A) (k : A -> M Remote B) r o r1 t1 :
  m r = (o, r1, t1) ->
  match o with Returned _ => False | _ => True end ->
  bind m k r =
    (match o with
     | Returned _ => OutOfFuel
     | Thrown e => Thrown e
     | Exited c => Exited c
     | OutOfFuel => OutOfFuel
     end, r1, t1).
Proof.
  intros Hm Ho. unfold bind. rewrite Hm. destruct o; [contradiction | | |];
    reflexivity.
Qed.

Lemma tracksLoop_never_exits fuel client :
  forall url acc r c, outcome (tracksLoop svc fuel client url acc r) <> Exited c.
Proof.
  induction fuel as [| fuel IH]; intros url acc r c.
  - destruct url as [u |]; simpl; [destruct (Js.truthy u); simpl |];
      discriminate.
  - destruct url as [u |]; simpl; [destruct (Js.truthy u); simpl |];
      try discriminate.
    unfold bind at 1. unfold request.
    destruct (spotify_tracks svc u r) as [[e | page] r1]; [discriminate |].
    cbv zeta.
    destruct (Js.truthy_opt (next page)); unfold bind, log, emit, ret; simpl;
      match goal with
      | |- context [tracksLoop svc fuel client ?url' ?acc' r1] =>
          specialize (IH url' acc' r1 c);
          destruct (tracksLoop svc fuel client url' acc' r1)
            as [[[l | e | c' |] r2] t2]; unfold outcome in *; simpl in *;
          congruence
      end.
Qed.

Lemma getPlaylistTracksSpotify_never_exits fuel client playlistId r c :
  outcome (getPlaylistTracksSpotify svc fuel client playlistId r) <> Exited c.
Proof.
  unfold getPlaylistTracksSpotify, try_catch.
  unfold bind at 1. simpl. unfold bind at 1.
  pose proof (tracksLoop_never_exits fuel client
                (Some (tracksUrl playlistId)) [] r c) as H.
  destruct (tracksLoop svc fuel client _ [] r) as [[[l | e | c' |] r0] t0];
    unfold outcome in *; simpl in *; congruence.
Qed.

(** The four paths of [transferPlaylist], by what fetching and creating
    gave. *)
Lemma transferPlaylist_paths fuel client p r :
  let fetch := getPlaylistTracksSpotify svc fuel client (pl_id p) r in
  let body := playlistBody (pl_name p) (newPlaylistDescription p) in
  let start := Log (LogProcessing (pl_name p) (pl_id p)) in
  match outcome fetch with
  | Returned [] =>
      transferPlaylist svc fuel client p r =
        (Returned tt, final fetch,
         [start] ++ trace fetch ++ [Log (LogEmptySkipping (pl_name p))] ++ [])
  | Returned (_ :: _) =>
      exists l r2 rest,
        transferPlaylist svc fuel client p r =
          (Returned tt, r2,
           [start] ++ trace fetch
             ++ [Log (LogCreating (pl_name p)); YtCreatePlaylist body; Log l]
             ++ rest)
        /\ creations rest = []
        /\ processed rest = []
        /\ unannounced (Log l)
  | Thrown e =>
      transferPlaylist svc fuel client p r =
        (Thrown (fetchTracksError (pl_id p)), final fetch, [start] ++ trace fetch)
  | Exited c => False
  | OutOfFuel =>
      transferPlaylist svc fuel client p r =
        (OutOfFuel, final fetch, [start] ++ trace fetch)
  end.
Proof.
  cbv zeta.
  pose proof (getPlaylistTracksSpotify_never_exits fuel client (pl_id p) r)
    as Hexit.
  destruct (getPlaylistTracksSpotify svc fuel client (pl_id p) r)
    as [[[tracks | e | c | ] r1] t1] eqn:Hfetch;
    unfold outcome, final, trace in *; cbn [fst snd] in *.
  - destruct tracks as [| item tracks].
    + apply transferPlaylist_skipped. exact Hfetch.
    + destruct (createYouTubePlaylist_run svc (pl_name p)
                  (newPlaylistDescription p) r1) as [l Hcreate].
      cbv zeta in Hcreate.
      assert (Hl : unannounced (Log l)).
      { pose proof (createYouTubePlaylist_not_announcing svc (pl_name p)
                      (newPlaylistDescription p) r1) as Hq.
        rewrite Hcreate in Hq. unfold trace in Hq. cbn [snd] in Hq.
        inversion Hq as [| ? ? _ Hq1]; subst.
        inversion Hq1 as [| ? ? _ Hq2]; subst.
        inversion Hq2; subst. assumption. }
      set (x := match fst (youtube_playlists svc _ r1) with
                | inl _ => None
                | inr playlistId => Some playlistId
                end) in *.
      destruct (Js.truthy_opt x) eqn:Hx.
      * destruct x as [playlistId |]; [| discriminate]. cbn in Hx.
        destruct (transferPlaylist_done svc fuel client p r (item :: tracks)
                    r1 t1 playlistId _ _ Hfetch ltac:(discriminate) Hcreate Hx)
          as (r3 & t3 & Hloop & Hrun & _ & _ & Hc3).
        exists l, r3. eexists. split; [exact Hrun |].
        rewrite !creations_app, !processed_app, Hc3.
        assert (Hq : Forall unannounced t3).
        { match type of Hloop with
          | ?run = _ =>
              change t3 with (trace (Returned (tally t3), r3, t3));
              rewrite <- Hloop
          end.
          apply transferLoop_not_announcing. }
        rewrite (not_announcing_processed _ Hq).
        unfold report. destruct (0 <? failedCount (tally t3))%nat;
          repeat split; trivial.
      * exists l. eexists. eexists. split.
        { apply (transferPlaylist_create_failed svc fuel client p r
                   (item :: tracks) r1 t1 x _ _ Hfetch ltac:(discriminate)
                   Hcreate Hx). }
        repeat split; trivial.
  - destruct (getPlaylistTracksSpotify_thrown svc fuel client (pl_id p) r e r1
                t1 Hfetch) as [-> _].
    apply transferPlaylist_fetch_thrown. exact Hfetch.
  - apply (Hexit c). reflexivity.
  - unfold transferPlaylist.
    eapply bind_run; [apply log_run |].
    apply (bind_stops _ _ _ _ _ _ Hfetch I).
Qed.

End Endings.

Section Transfers.
Context {Remote : Type} (svc : Services Remote).

Lemma transfer_fails_only_by_fetching_aux fuel client p r :
  match outcome (transferPlaylist svc fuel client p r) with
  | Exited _ => False
  | _ => True
  end.
Proof.
  pose proof (transferPlaylist_paths svc fuel client p r) as H. cbv zeta in H.
  destruct (outcome (getPlaylistTracksSpotify svc fuel client (pl_id p) r))
    as [[| item tracks] | e | c |].
  - now rewrite H.
  - destruct H as (l & r2 & rest & H & _). now rewrite H.
  - now rewrite H.
  - contradiction.
  - now rewrite H.
Qed.

(** X8: [transferPlaylist] never ends the process, and the only error that
    leaves it is the one thrown by fetching the tracks: once the tracks are
    fetched it returns, whatever creation, searches and insertions do. *)
Theorem transfer_fails_only_by_fetching fuel client p r :
  outcome (transferPlaylist svc fuel client p r) =
    match outcome (getPlaylistTracksSpotify svc fuel client (pl_id p) r) with
    | Returned _ => Returned tt
    | Thrown _ => Thrown (fetchTracksError (pl_id p))
    | Exited c => Exited c
    | OutOfFuel => OutOfFuel
    end
  /\ match outcome (transferPlaylist svc fuel client p r) with
     | Exited _ => False
     | _ => True
     end.
Proof.
  pose proof (transferPlaylist_paths svc fuel client p r) as H. cbv zeta in H.
  destruct (outcome (getPlaylistTracksSpotify svc fuel client (pl_id p) r))
    as [[| item tracks] | e | c |].
  - rewrite H. split; exact I || reflexivity.
  - destruct H as (l & r2 & rest & H & _). rewrite H. split; exact I || reflexivity.
  - rewrite H. split; exact I || reflexivity.
  - contradiction.
  - rewrite H. split; exact I || reflexivity.
Qed.

(** X9: a transfer sends at most one creation request, for a private
    playlist titled with the name of the source playlist; and when it sends
    none (the tracks could not be fetched, or none is available), it sends no
    search and no insertion either. *)
Theorem transfer_creates_at_most_one_playlist fuel client p r :
  let t := trace (transferPlaylist svc fuel client p r) in
  let body := playlistBody (pl_name p) (newPlaylistDescription p) in
  (creations t = [] /\ searches t = [] /\ insertions t = [])
  \/ (creations t = [body]
      /\ pb_title body = pl_name p
      /\ pb_privacyStatus body = "private").
Proof.
  cbv zeta.
  pose proof (transferPlaylist_paths svc fuel client p r) as H. cbv zeta in H.
  pose proof (getPlaylistTracksSpotify_no_youtube svc fuel client (pl_id p) r)
    as Hy.
  destruct (no_youtube_requests _ Hy) as (Hc & Hs & Hi).
  destruct (outcome (getPlaylistTracksSpotify svc fuel client (pl_id p) r))
    as [[| item tracks] | e | c |].
  - left. rewrite H. unfold trace at 1 3 5. cbn [snd].
    rewrite !creations_app, !searches_app, !insertions_app, Hc, Hs, Hi.
    repeat split.
  - right. destruct H as (l & r2 & rest & H & Hrest & _ & _). rewrite H.
    unfold trace at 1. cbn [snd].
    rewrite !creations_app, Hc, Hrest. repeat split.
  - left. rewrite H. unfold trace at 1 3 5. cbn [snd].
    rewrite !creations_app, !searches_app, !insertions_app, Hc, Hs, Hi.
    repeat split.
  - contradiction.
  - left. rewrite H. unfold trace at 1 3 5. cbn [snd].
    rewrite !creations_app, !searches_app, !insertions_app, Hc, Hs, Hi.
    repeat split.
Qed.

Lemma transferPlaylist_processed fuel client p r :
  processed (trace (transferPlaylist svc fuel client p r))
  = [(pl_name p, pl_id p)].
Proof.
  pose proof (transferPlaylist_paths svc fuel client p r) as H. cbv zeta in H.
  pose proof (getPlaylistTracksSpotify_not_announcing svc fuel client (pl_id p) r)
    as Hq.
  apply not_announcing_processed in Hq.
  destruct (outcome (getPlaylistTracksSpotify svc fuel client (pl_id p) r))
    as [[| item tracks] | e | c |].
  - rewrite H. unfold trace at 1. cbn [snd]. rewrite !processed_app, Hq.
    reflexivity.
  - destruct H as (l & r2 & rest & H & _ & Hrest & Hl). rewrite H.
    unfold trace at 1. cbn [snd]. rewrite !processed_app, Hq, Hrest.
    destruct l; try reflexivity. contradiction.
  - rewrite H. unfold trace at 1. cbn [snd]. rewrite !processed_app, Hq.
    reflexivity.
  - contradiction.
  - rewrite H. unfold trace at 1. cbn [snd]. rewrite !processed_app, Hq.
    reflexivity.
Qed.

(** X10: the loop over the selected playlists starts them one by one in the
    order of the selection: the playlists it has announced are always a
    non-skipping prefix of the selection, and the whole selection when the
    loop returns; it never ends the process. *)
Theorem playlists_are_processed_in_selection_order fuel client selection :
  forall r,
  let run := transferPlaylists svc fuel client selection r in
  exists k,
    processed (trace run)
      = firstn k (map (fun p => (pl_name p, pl_id p)) selection)
    /\ k <= length selection
    /\ match outcome run with
       | Returned _ => k = length selection
       | Exited _ => False
       | _ => True
       end.
Proof.
  induction selection as [| p rest IH]; intros r; cbv zeta.
  - exists 0. repeat split. simpl. lia.
  - simpl transferPlaylists.
    pose proof (transferPlaylist_processed fuel client p r) as Hp.
    pose proof (transfer_fails_only_by_fetching_aux fuel client p r) as Hend.
    destruct (transferPlaylist svc fuel client p r) as [[[[] | e | c |] r1] t1]
      eqn:Hrun; unfold trace, outcome in Hp, Hend; cbn [fst snd] in Hp, Hend.
    + destruct (IH r1) as (k & Hk & Hle & Hout). cbv zeta in *.
      exists (S k).
      rewrite (bind_returned _ (fun _ => transferPlaylists svc fuel client rest)
                 _ _ _ _ Hrun).
      unfold trace at 1, outcome at 1. cbn [fst snd].
      rewrite processed_app, Hp, Hk. simpl. repeat split; [lia |].
      unfold outcome at 1. cbn [fst].
      destruct (outcome (transferPlaylists svc fuel client rest r1));
        trivial; lia.
    + exists 1. rewrite (bind_thrown _ _ _ _ _ _ Hrun).
      unfold trace, outcome. cbn [fst snd]. rewrite Hp. simpl.
      repeat split; lia.
    + contradiction.
    + exists 1. rewrite (bind_stops _ _ _ _ _ _ Hrun I).
      unfold trace, outcome. cbn [fst snd]. rewrite Hp. simpl.
      repeat split; lia.
Qed.

(** The loop over a selection whose first part returned goes on with the
    rest from the state that part left, and the playlists of that part were
    all announced. *)
Lemma transferPlaylists_returned fuel client before l :
  forall r r1 t1,
  transferPlaylists svc fuel client before r = (Returned tt, r1, t1) ->
  transferPlaylists svc fuel client (before ++ l) r =
    (outcome (transferPlaylists svc fuel client l r1),
     final (transferPlaylists svc fuel client l r1),
     t1 ++ trace (transferPlaylists svc fuel client l r1))
  /\ processed t1 = map (fun q => (pl_name q, pl_id q)) before.
Proof.
  induction before as [| b before IH]; intros r r1 t1 H.
  - simpl in H. unfold ret in H. inversion H; subst. simpl.
    destruct (transferPlaylists svc fuel client l r1) as [[o r2] t2].
    split; reflexivity.
  - simpl app. simpl transferPlaylists in *.
    pose proof (transferPlaylist_processed fuel client b r) as Hp.
    destruct (transferPlaylist svc fuel client b r) as [[[[] | e | c |] r'] t']
      eqn:Hrun; unfold trace in Hp; cbn [snd] in Hp.
    + rewrite (bind_returned _ (fun _ => transferPlaylists svc fuel client before)
                 _ _ _ _ Hrun) in H.
      destruct (transferPlaylists svc fuel client before r') as [[o rx] tx]
        eqn:Hb.
      unfold outcome, final, trace in H. cbn [fst snd] in H.
      inversion H; subst.
      destruct (IH r' r1 tx Hb) as [Happ Hproc].
      split.
      * rewrite (bind_returned _
                   (fun _ => transferPlaylists svc fuel client (before ++ l))
                   _ _ _ _ Hrun).
        rewrite Happ. unfold outcome, final, trace. cbn [fst snd].
        rewrite app_assoc. reflexivity.
      * rewrite processed_app, Hproc, Hp. reflexivity.
    + rewrite (bind_thrown _ _ _ _ _ _ Hrun) in H. discriminate.
    + rewrite (bind_stops _ _ _ _ _ _ Hrun I) in H. discriminate.
    + rewrite (bind_stops _ _ _ _ _ _ Hrun I) in H. discriminate.
Qed.

End Transfers.

(** ** The command *)

Section Command.
Context {Remote : Type} (svc : Services Remote).

Lemma ret_run {A} (a : A) (r : Remote) : ret a r = (Returned a, r, []).
Proof. reflexivity. Qed.

(** X11: when the Spotify or the Google client id is missing from the
    configuration, the command exits with code 1 after two lines: no token
    is asked for and no request is sent. *)
Theorem unconfigured_command_exits fuel config options (r : Remote) :
  Js.truthy_opt (spotifyClientId config) = false
  \/ Js.truthy_opt (googleClientId config) = false ->
  transferCommand svc fuel config options r =
    (Exited 1, r, [Log LogBanner; Log LogNotConfigured]).
Proof.
  intros H. unfold transferCommand.
  assert (Hc : negb (Js.truthy_opt (spotifyClientId config))
               || negb (Js.truthy_opt (googleClientId config)) = true).
  { destruct H as [-> | ->]; [reflexivity | apply orb_true_r]. }
  rewrite Hc. reflexivity.
Qed.

Lemma configured_run config (r : Remote) :
  Js.truthy_opt (spotifyClientId config) = true ->
  Js.truthy_opt (googleClientId config) = true ->
  (if negb (Js.truthy_opt (spotifyClientId config))
      || negb (Js.truthy_opt (googleClientId config))
   then log LogNotConfigured ;; exit 1
   else ret tt) r = (Returned tt, r, []).
Proof. intros -> ->. reflexivity. Qed.

(** X12: with both client ids configured, a failure of token acquisition
    ends the command with exit code 1 after the message of the error was
    printed: the Spotify token is asked for first, and the Google token only
    when that one was obtained; no request for user data is sent. *)
Theorem token_failure_exits fuel config options r :
  Js.truthy_opt (spotifyClientId config) = true ->
  Js.truthy_opt (googleClientId config) = true ->
  match spotify_token svc r with
  | (inl e, r1) =>
      transferCommand svc fuel config options r =
        (Exited 1, r1,
         [Log LogBanner; Log LogAuthenticatingSpotify; SpotifyAuth;
          Log (LogAuthFailed (message e))])
  | (inr token, r1) =>
      match youtube_token svc r1 with
      | (inl e, r2) =>
          transferCommand svc fuel config options r =
            (Exited 1, r2,
             [Log LogBanner; Log LogAuthenticatingSpotify; SpotifyAuth;
              Log LogAuthenticatingGoogle; YouTubeAuth;
              Log (LogAuthFailed (message e))])
      | (inr _, r2) =>
          authenticate svc r =
            (Returned (createSpotifyClient token), r2,
             [Log LogAuthenticatingSpotify; SpotifyAuth;
              Log LogAuthenticatingGoogle; YouTubeAuth])
      end
  end.
Proof.
  intros Hs Hg.
  unfold transferCommand, authenticate, try_catch, bind, request, log, emit,
    ret, exit.
  rewrite Hs, Hg. simpl.
  destruct (spotify_token svc r) as [[e | token] r1]; simpl; [reflexivity |].
  destruct (youtube_token svc r1) as [[e | []] r2]; reflexivity.
Qed.

(** The command from the selection on. *)
Lemma transferCommand_selected
    fuel config options r client r1 t1 all r2 t2 selection r3 t3 :
  Js.truthy_opt (spotifyClientId config) = true ->
  Js.truthy_opt (googleClientId config) = true ->
  authenticate svc r = (Returned client, r1, t1) ->
  fetchUserData svc fuel client r1 = (Returned all, r2, t2) ->
  all <> [] ->
  selectPlaylists svc options all r2 = (Returned selection, r3, t3) ->
  let run := transferPlaylists svc fuel client selection r3 in
  transferCommand svc fuel config options r =
    match selection with
    | [] =>
        (Returned tt, r3,
         [Log LogBanner] ++ [] ++ t1 ++ t2 ++ t3 ++ [Log LogNoneSelected] ++ [])
    | _ :: _ =>
        (outcome run, final run,
         [Log LogBanner] ++ [] ++ t1 ++ t2 ++ t3
           ++ [Log (LogStarting (length selection))] ++ trace run
           ++ match outcome run with
              | Returned _ => [Log LogAllComplete]
              | _ => []
              end)
    end.
Proof.
  intros Hs Hg Hauth Hdata Hall Hsel run. unfold transferCommand.
  destruct all as [| a all]; [congruence |].
  destruct selection as [| p selection].
  - eapply bind_run; [apply log_run |].
    eapply bind_run; [apply configured_run; assumption |].
    eapply bind_run; [exact Hauth |].
    eapply bind_run; [exact Hdata |].
    cbn [length Nat.eqb].
    eapply bind_run; [exact Hsel |].
    cbn [length Nat.eqb].
    eapply bind_run; [apply log_run | reflexivity].
  - subst run.
    destruct (transferPlaylists svc fuel client (p :: selection) r3)
      as [[[[] | e | c |] r4] t4] eqn:Hrun;
      unfold outcome, final, trace; cbn [fst snd];
      (eapply bind_run; [apply log_run |]);
      (eapply bind_run; [apply configured_run; assumption |]);
      (eapply bind_run; [exact Hauth |]);
      (eapply bind_run; [exact Hdata |]);
      cbn [length Nat.eqb];
      (eapply bind_run; [exact Hsel |]);
      cbn [length Nat.eqb];
      (eapply bind_run; [apply log_run |]).
    + eapply bind_run; [exact Hrun | apply log_run].
    + rewrite app_nil_r. apply bind_thrown. exact Hrun.
    + rewrite app_nil_r. apply (bind_stops _ _ _ _ _ _ Hrun I).
    + rewrite app_nil_r. apply (bind_stops _ _ _ _ _ _ Hrun I).
Qed.

(** X13: when the account has no playlist, the command prints so and
    returns whatever the options are: nothing is selected, warned about or
    prompted for, and nothing is transferred. *)
Theorem empty_account_ends_the_command
    fuel config options r client r1 t1 r2 t2 :
  Js.truthy_opt (spotifyClientId config) = true ->
  Js.truthy_opt (googleClientId config) = true ->
  authenticate svc r = (Returned client, r1, t1) ->
  fetchUserData svc fuel client r1 = (Returned [], r2, t2) ->
  transferCommand svc fuel config options r =
    (Returned tt, r2, [Log LogBanner] ++ [] ++ t1 ++ t2 ++ [Log LogNoPlaylists] ++ []).
Proof.
  intros Hs Hg Hauth Hdata. unfold transferCommand.
  eapply bind_run; [apply log_run |].
  eapply bind_run; [apply configured_run; assumption |].
  eapply bind_run; [exact Hauth |].
  eapply bind_run; [exact Hdata |].
  cbn [length Nat.eqb].
  eapply bind_run; [apply log_run | reflexivity].
Qed.

(** X14: when none of the requested ids is the id of a playlist of the
    account, the command reports all of them as not found, prints that
    nothing is selected and returns: no transfer is started. *)
Theorem unmatched_ids_select_nothing
    fuel config r client r1 t1 all r2 t2 ids :
  Js.truthy_opt (spotifyClientId config) = true ->
  Js.truthy_opt (googleClientId config) = true ->
  authenticate svc r = (Returned client, r1, t1) ->
  fetchUserData svc fuel client r1 = (Returned all, r2, t2) ->
  all <> [] ->
  ids <> [] ->
  (forall p, In p all -> ~ In (pl_id p) ids) ->
  transferCommand svc fuel config (mkOptions false (Some ids)) r =
    (Returned tt, r2,
     [Log LogBanner] ++ [] ++ t1 ++ t2
       ++ [Log (LogSelectedByIds 0 []); Log (LogWarnNotFound ids)]
       ++ [Log LogNoneSelected] ++ []).
Proof.
  intros Hs Hg Hauth Hdata Hall Hids Hnone.
  assert (Hfilter : filter (fun p => Js.includes ids (pl_id p)) all = []).
  { clear - Hnone. induction all as [| p all IH]; [reflexivity |].
    simpl. destruct (Js.includes ids (pl_id p)) eqn:Hp.
    - apply includes_In in Hp. exfalso. apply (Hnone p); [now left | exact Hp].
    - apply IH. intros q Hq. apply Hnone. now right. }
  assert (Hkeep : filter (fun id : string => true) ids = ids).
  { clear. induction ids as [| x l IH]; simpl; [| rewrite IH]; reflexivity. }
  assert (Hsel : selectPlaylists svc (mkOptions false (Some ids)) all r2 =
            (Returned [], r2,
             [Log (LogSelectedByIds 0 []); Log (LogWarnNotFound ids)])).
  { destruct ids as [| id ids]; [congruence |].
    unfold selectPlaylists. cbn [opt_all opt_playlist]. cbv zeta.
    rewrite Hfilter. cbn [existsb map length negb]. rewrite Hkeep. reflexivity. }
  apply (transferCommand_selected fuel config _ r client r1 t1 all r2 t2 [] r2 _
           Hs Hg Hauth Hdata Hall Hsel).
Qed.

(** X15: once the tokens, the listing and the selection are there, the
    command ends as the loop over the selection ends, at the state the loop
    left; the closing line is printed exactly when the loop returned, that
    is when no transfer threw. *)
Theorem command_ends_as_the_transfers_end
    fuel config options r client r1 t1 all r2 t2 selection r3 t3 :
  Js.truthy_opt (spotifyClientId config) = true ->
  Js.truthy_opt (googleClientId config) = true ->
  authenticate svc r = (Returned client, r1, t1) ->
  fetchUserData svc fuel client r1 = (Returned all, r2, t2) ->
  all <> [] ->
  selectPlaylists svc options all r2 = (Returned selection, r3, t3) ->
  selection <> [] ->
  let run := transferPlaylists svc fuel client selection r3 in
  transferCommand svc fuel config options r =
    (outcome run, final run,
     [Log LogBanner] ++ [] ++ t1 ++ t2 ++ t3
       ++ [Log (LogStarting (length selection))] ++ trace run
       ++ match outcome run with
          | Returned _ => [Log LogAllComplete]
          | _ => []
          end).
Proof.
  intros Hs Hg Hauth Hdata Hall Hsel Hne run.
  pose proof (transferCommand_selected fuel config options r client r1 t1 all
                r2 t2 selection r3 t3 Hs Hg Hauth Hdata Hall Hsel) as H.
  cbv zeta in H. destruct selection as [| p selection]; [congruence |].
  exact H.
Qed.

End Command.

Section Unhandled.
Context {Remote : Type} (svc : Services Remote).

(** C2: what the code does when fetching the tracks of a selected playlist
    fails, the playlists selected before it having been transferred:
    [getPlaylistTracksSpotify] logs the cause and throws its own error, and
    nothing handles it.  [transferPlaylist] ends with that error before any
    request to the destination, the loop over the selection ends with it, so
    that of the selection only the playlists up to the failing one were
    started; and the command, whatever configuration, options and listing
    led to that selection, ends with the error too, its last lines being
    those of the failed fetch: the playlists selected after it are not
    transferred and the closing line is not printed. *)
Theorem fetch_failure_leaves_the_loop
    fuel client before p rest r3 r4 t4 e r5 t5 :
  transferPlaylists svc fuel client before r3 = (Returned tt, r4, t4) ->
  getPlaylistTracksSpotify svc fuel client (pl_id p) r4 = (Thrown e, r5, t5) ->
  let t := t4 ++ [Log (LogProcessing (pl_name p) (pl_id p))] ++ t5 in
  e = fetchTracksError (pl_id p)
  /\ (exists why t0,
        t5 = Log (LogFetchingTracks (pl_id p)) :: t0
               ++ [Log (LogFetchTracksError (pl_id p) why)])
  /\ Forall (fun ev => is_youtube_request ev = false) t5
  /\ transferPlaylist svc fuel client p r4 =
       (Thrown e, r5, [Log (LogProcessing (pl_name p) (pl_id p))] ++ t5)
  /\ transferPlaylists svc fuel client (before ++ p :: rest) r3 =
       (Thrown e, r5, t)
  /\ processed t = map (fun q => (pl_name q, pl_id q)) (before ++ [p])
  /\ forall config options r r1 t1 all r2 t2 t3,
       Js.truthy_opt (spotifyClientId config) = true ->
       Js.truthy_opt (googleClientId config) = true ->
       authenticate svc r = (Returned client, r1, t1) ->
       fetchUserData svc fuel client r1 = (Returned all, r2, t2) ->
       all <> [] ->
       selectPlaylists svc options all r2 =
         (Returned (before ++ p :: rest), r3, t3) ->
       transferCommand svc fuel config options r =
         (Thrown e, r5,
          [Log LogBanner] ++ t1 ++ t2 ++ t3
            ++ [Log (LogStarting (length (before ++ p :: rest)))] ++ t).
Proof.
  intros Hbefore Hfetch t.
  destruct (getPlaylistTracksSpotify_thrown svc fuel client (pl_id p) r4 e r5
              t5 Hfetch) as [He Hlog].
  pose proof (getPlaylistTracksSpotify_no_youtube svc fuel client (pl_id p) r4)
    as Hy.
  pose proof (getPlaylistTracksSpotify_not_announcing svc fuel client (pl_id p)
                r4) as Hq.
  rewrite Hfetch in Hy, Hq. unfold trace in Hy, Hq. cbn [snd] in Hy, Hq.
  pose proof (transferPlaylist_fetch_thrown svc fuel client p r4 e r5 t5 Hfetch)
    as Hrun.
  destruct (transferPlaylists_returned svc fuel client before (p :: rest)
              r3 r4 t4 Hbefore) as [Happ Hproc].
  assert (Hloop : transferPlaylists svc fuel client (before ++ p :: rest) r3 =
                    (Thrown e, r5, t)).
  { rewrite Happ. simpl transferPlaylists.
    rewrite (bind_thrown _ _ _ _ _ _ Hrun). reflexivity. }
  repeat (split; [assumption |]).
  split.
  { subst t. rewrite !processed_app, Hproc, (not_announcing_processed _ Hq),
      map_app. reflexivity. }
  intros config options r r1 t1 all r2 t2 t3 Hs Hg Hauth Hdata Hall Hsel.
  pose proof (transferCommand_selected svc fuel config options r client r1 t1
                all r2 t2 (before ++ p :: rest) r3 t3 Hs Hg Hauth Hdata Hall
                Hsel) as H.
  cbv zeta in H. rewrite Hloop in H.
  unfold outcome, final, trace in H. cbn [fst snd] in H.
  destruct (before ++ p :: rest) as [| q l] eqn:Hl.
  - destruct before; discriminate Hl.
  - rewrite app_nil_r in H. exact H.
Qed.

End Unhandled.

(** Alpha and Beta are selected by id and the request for the tracks of
    Alpha is refused: Beta is not started.  And where it is Gamma that cannot
    be fetched, with Beta, Gamma and Epsilon selected: Beta is transferred,
    the run ends at Gamma and Epsilon is not started. *)
Lemma fetch_failure_leaves_the_loop_witness :
  let t :=
    [Log (LogProcessing "Alpha" "a"); Log (LogFetchingTracks "a");
     SpotifyGet (tracksUrl "a");
     Log (LogFetchTracksError "a" Demo.unavailable)] in
  let later :=
    transferCommand Cases.gamma_refused 5 Demo.config
      (mkOptions false (Some ["b"; "c"; "e"])) [] in
  (transferPlaylists Demo.services 5 Demo.client [Demo.alpha; Demo.beta] [] =
     (Thrown (fetchTracksError "a"), [], t)
   /\ processed t = [("Alpha", "a")]
   /\ transferCommand Demo.services 5 Demo.config
        (mkOptions false (Some ["a"; "b"])) [] =
        (Thrown (fetchTracksError "a"), [],
         [Log LogBanner; Log LogAuthenticatingSpotify; SpotifyAuth;
          Log LogAuthenticatingGoogle; YouTubeAuth;
          SpotifyGet "/me"; Log (LogLoggedIn "Me" "me");
          Log LogFetchingPlaylists;
          SpotifyGet "/users/me/playlists?limit=50";
          Log (LogFoundPlaylists 5);
          Log (LogSelectedByIds 2 ["Alpha"; "Beta"]);
          Log (LogStarting 2)] ++ t))
  /\ (outcome later = Thrown (fetchTracksError "c")
      /\ final later = [("PL-Beta", "v1")]
      /\ processed (trace later) = [("Beta", "b"); ("Gamma", "c")]).
Proof.
  cbv zeta. split.
  - destruct (fetch_failure_leaves_the_loop Demo.services 5 Demo.client []
                Demo.alpha [Demo.beta] [] [] [] (fetchTracksError "a") []
                [Log (LogFetchingTracks "a"); SpotifyGet (tracksUrl "a");
                 Log (LogFetchTracksError "a" Demo.unavailable)]
                eq_refl eq_refl)
      as (_ & _ & _ & _ & Hloop & Hproc & Hcommand).
    split; [exact Hloop |]. split; [exact Hproc |].
    apply (Hcommand Demo.config (mkOptions false (Some ["a"; "b"])) [] []
             [Log LogAuthenticatingSpotify; SpotifyAuth;
              Log LogAuthenticatingGoogle; YouTubeAuth]
             Demo.listing []
             [SpotifyGet "/me"; Log (LogLoggedIn "Me" "me");
              Log LogFetchingPlaylists;
              SpotifyGet "/users/me/playlists?limit=50";
              Log (LogFoundPlaylists 5)]
             [Log (LogSelectedByIds 2 ["Alpha"; "Beta"])]
             eq_refl eq_refl eq_refl eq_refl ltac:(discriminate) eq_refl).
  - destruct (fetch_failure_leaves_the_loop Cases.gamma_refused 5 Demo.client
                [Demo.beta] Demo.gamma [Demo.epsilon] []
                [("PL-Beta", "v1")]
                (trace (transferPlaylists Cases.gamma_refused 5 Demo.client
                          [Demo.beta] []))
                (fetchTracksError "c") [("PL-Beta", "v1")]
                [Log (LogFetchingTracks "c"); SpotifyGet (tracksUrl "c");
                 Log (LogFetchTracksError "c" Demo.unavailable)]
                eq_refl eq_refl)
      as (_ & _ & _ & _ & _ & _ & Hcommand).
    rewrite (Hcommand Demo.config (mkOptions false (Some ["b"; "c"; "e"])) [] []
               [Log LogAuthenticatingSpotify; SpotifyAuth;
                Log LogAuthenticatingGoogle; YouTubeAuth]
               Demo.listing []
               [SpotifyGet "/me"; Log (LogLoggedIn "Me" "me");
                Log LogFetchingPlaylists;
                SpotifyGet "/users/me/playlists?limit=50";
                Log (LogFoundPlaylists 5)]
               [Log (LogSelectedByIds 3 ["Beta"; "Gamma"; "Epsilon"])]
               eq_refl eq_refl eq_refl eq_refl ltac:(discriminate) eq_refl).
    repeat split.
Defined.

Section Prompting.
Context {Remote : Type} (svc : Services Remote).

(** X16: with neither [--all] nor ids, the command prompts once, offering
    one choice per playlist in listing order with the playlist id as value,
    and selects the playlists whose id is in the answer, in listing order
    whatever the order of the answer; ids in the answer that belong to no
    playlist are dropped without a warning. *)
Theorem interactive_selection_filters_listing options all r :
  opt_all options = false ->
  opt_playlist options = None \/ opt_playlist options = Some [] ->
  let choices := playlistChoices all in
  let answer := prompt_checkbox svc choices r in
  let selected := filter (fun p => Js.includes (fst answer) (pl_id p)) all in
  selectPlaylists svc options all r
    = (Returned selected, snd answer, [Prompt choices])
  /\ map choice_value choices = map pl_id all
  /\ subsequence selected all
  /\ (forall p, In p selected <-> In p all /\ In (pl_id p) (fst answer)).
Proof.
  intros Hall Hids. cbv zeta. split; [| split; [| split]].
  - unfold selectPlaylists. rewrite Hall. cbv zeta.
    destruct Hids as [-> | ->];
      unfold bind, perform, ret;
      destruct (prompt_checkbox svc (playlistChoices all) r) as [ans r1];
      reflexivity.
  - unfold playlistChoices. rewrite map_map. reflexivity.
  - apply filter_subsequence.
  - intros p. rewrite filter_In, includes_In. tauto.
Qed.

(** X17: when the listing of the user's playlists cannot be fetched, the
    command prints the message of the error and exits with code 1: nothing
    is selected and nothing is transferred. *)
Theorem listing_failure_exits
    fuel config options r client r1 t1 user r2 e r3 t3 :
  Js.truthy_opt (spotifyClientId config) = true ->
  Js.truthy_opt (googleClientId config) = true ->
  authenticate svc r = (Returned client, r1, t1) ->
  spotify_me svc r1 = (inr user, r2) ->
  getUserPlaylistsSpotify svc fuel client (user_id user) r2 = (Thrown e, r3, t3) ->
  transferCommand svc fuel config options r =
    (Exited 1, r3,
     [Log LogBanner] ++ [] ++ t1
       ++ ([SpotifyGet "/me"]
           ++ [Log (LogLoggedIn (user_display_name user) (user_id user))] ++ t3)
       ++ [Log (LogUserDataFailed (message e))]).
Proof.
  intros Hs Hg Hauth Hme Hlist. unfold transferCommand.
  eapply bind_run; [apply log_run |].
  eapply bind_run; [apply (configured_run config); assumption |].
  eapply bind_run; [exact Hauth |].
  assert (Hdata : fetchUserData svc fuel client r1 =
            (Exited 1, r3,
             ([SpotifyGet "/me"]
              ++ [Log (LogLoggedIn (user_display_name user) (user_id user))]
              ++ t3)
             ++ [Log (LogUserDataFailed (message e))])).
  { unfold fetchUserData, try_catch.
    assert (Hinner :
      (spotifyUser <- getCurrentUserSpotify svc client ;;
       log (LogLoggedIn (user_display_name spotifyUser) (user_id spotifyUser)) ;;
       getUserPlaylistsSpotify svc fuel client (user_id spotifyUser)) r1
      = (Thrown e, r3,
         [SpotifyGet "/me"]
           ++ [Log (LogLoggedIn (user_display_name user) (user_id user))] ++ t3)).
    { eapply bind_run.
      - unfold getCurrentUserSpotify. apply try_catch_returned.
        apply request_run. exact Hme.
      - eapply bind_run; [apply log_run | exact Hlist]. }
    rewrite Hinner. reflexivity. }
  apply (bind_stops _ _ _ _ _ _ Hdata I).
Qed.

End Prompting.

(** No Spotify client id in the configuration. *)
Lemma unconfigured_command_exits_witness :
  transferCommand Demo.services 5 (mkConfig None (Some "google-app"))
    (mkOptions true None) [] =
    (Exited 1, [], [Log LogBanner; Log LogNotConfigured]).
Proof.
  apply (unconfigured_command_exits Demo.services 5
           (mkConfig None (Some "google-app")) (mkOptions true None) []).
  left. reflexivity.
Defined.

(** The Spotify token is obtained, the Google token is refused. *)
Lemma token_failure_exits_witness :
  transferCommand Cases.google_refused 5 Demo.config (mkOptions true None) [] =
    (Exited 1, [],
     [Log LogBanner; Log LogAuthenticatingSpotify; SpotifyAuth;
      Log LogAuthenticatingGoogle; YouTubeAuth;
      Log (LogAuthFailed "Could not get Google token.")]).
Proof.
  exact (token_failure_exits Cases.google_refused 5 Demo.config
           (mkOptions true None) [] eq_refl eq_refl).
Defined.

(** An account without playlists, asked for the playlist "z". *)
Lemma empty_account_ends_the_command_witness :
  transferCommand Cases.empty_account 5 Demo.config
    (mkOptions false (Some ["z"])) [] =
    (Returned tt, [],
     [Log LogBanner; Log LogAuthenticatingSpotify; SpotifyAuth;
      Log LogAuthenticatingGoogle; YouTubeAuth; SpotifyGet "/me";
      Log (LogLoggedIn "Me" "me"); Log LogFetchingPlaylists;
      SpotifyGet "/users/me/playlists?limit=50"; Log (LogFoundPlaylists 0);
      Log LogNoPlaylists]).
Proof.
  apply (empty_account_ends_the_command Cases.empty_account 5 Demo.config
           (mkOptions false (Some ["z"])) [] Demo.client []
           [Log LogAuthenticatingSpotify; SpotifyAuth;
            Log LogAuthenticatingGoogle; YouTubeAuth] []
           [SpotifyGet "/me"; Log (LogLoggedIn "Me" "me");
            Log LogFetchingPlaylists;
            SpotifyGet "/users/me/playlists?limit=50";
            Log (LogFoundPlaylists 0)]);
    reflexivity.
Defined.

Lemma unmatched_ids_select_nothing_witness :
  transferCommand Demo.services 5 Demo.config (mkOptions false (Some ["z"; "y"])) [] =
    (Returned tt, [],
     [Log LogBanner; Log LogAuthenticatingSpotify; SpotifyAuth;
      Log LogAuthenticatingGoogle; YouTubeAuth; SpotifyGet "/me";
      Log (LogLoggedIn "Me" "me"); Log LogFetchingPlaylists;
      SpotifyGet "/users/me/playlists?limit=50"; Log (LogFoundPlaylists 5);
      Log (LogSelectedByIds 0 []); Log (LogWarnNotFound ["z"; "y"]);
      Log LogNoneSelected]).
Proof.
  apply (unmatched_ids_select_nothing Demo.services 5 Demo.config [] Demo.client
           []
           [Log LogAuthenticatingSpotify; SpotifyAuth;
            Log LogAuthenticatingGoogle; YouTubeAuth]
           Demo.listing []
           [SpotifyGet "/me"; Log (LogLoggedIn "Me" "me");
            Log LogFetchingPlaylists;
            SpotifyGet "/users/me/playlists?limit=50";
            Log (LogFoundPlaylists 5)]
           ["z"; "y"]);
    try reflexivity; try discriminate.
  intros p Hp Hin. simpl in Hp, Hin.
  repeat (destruct Hp as [<- | Hp]; [vm_compute in Hin; intuition discriminate |]).
  exact Hp.
Defined.

(** Epsilon alone is selected and transferred; Alpha alone is selected and
    its tracks cannot be fetched. *)
Lemma command_ends_as_the_transfers_end_witness :
  outcome (transferCommand Demo.services 5 Demo.config
             (mkOptions false (Some ["e"])) []) = Returned tt
  /\ In (Log LogAllComplete)
       (trace (transferCommand Demo.services 5 Demo.config
                 (mkOptions false (Some ["e"])) [])).
Proof.
  rewrite (command_ends_as_the_transfers_end Demo.services 5 Demo.config
             (mkOptions false (Some ["e"])) [] Demo.client []
             [Log LogAuthenticatingSpotify; SpotifyAuth;
              Log LogAuthenticatingGoogle; YouTubeAuth]
             Demo.listing []
             [SpotifyGet "/me"; Log (LogLoggedIn "Me" "me");
              Log LogFetchingPlaylists;
              SpotifyGet "/users/me/playlists?limit=50";
              Log (LogFoundPlaylists 5)]
             [Demo.epsilon] [] [Log (LogSelectedByIds 1 ["Epsilon"])]
             eq_refl eq_refl eq_refl eq_refl ltac:(discriminate) eq_refl
             ltac:(discriminate)).
  split; [reflexivity |]. vm_compute. tauto.
Defined.

(** The answer names Epsilon, an unknown id and Beta. *)
Lemma interactive_selection_filters_listing_witness :
  selectPlaylists (Cases.picks ["e"; "x"; "b"]) (mkOptions false None)
    Demo.listing [] =
    (Returned [Demo.beta; Demo.epsilon], [],
     [Prompt (playlistChoices Demo.listing)])
  /\ map choice_value (playlistChoices Demo.listing) = ["a"; "b"; "c"; "d"; "e"].
Proof.
  destruct (interactive_selection_filters_listing (Cases.picks ["e"; "x"; "b"])
              (mkOptions false None) Demo.listing [] eq_refl
              (or_introl eq_refl)) as (Hrun & Hvalues & _).
  split; [exact Hrun | exact Hvalues].
Defined.

(** The second page of the listing cannot be fetched. *)
Lemma listing_failure_exits_witness :
  transferCommand Cases.broken 5 Demo.config (mkOptions true None) [] =
    (Exited 1, [],
     [Log LogBanner; Log LogAuthenticatingSpotify; SpotifyAuth;
      Log LogAuthenticatingGoogle; YouTubeAuth; SpotifyGet "/me";
      Log (LogLoggedIn "Me" "me"); Log LogFetchingPlaylists;
      SpotifyGet "/users/me/playlists?limit=50"; Log LogNextPagePlaylists;
      SpotifyGet "/users/me/playlists?offset=50&limit=50";
      Log (LogFetchPlaylistsError Demo.unavailable);
      Log (LogUserDataFailed "Could not fetch Spotify playlists.")]).
Proof.
  apply (listing_failure_exits Cases.broken 5 Demo.config (mkOptions true None)
           [] Demo.client []
           [Log LogAuthenticatingSpotify; SpotifyAuth;
            Log LogAuthenticatingGoogle; YouTubeAuth]
           Demo.me [] fetchPlaylistsError []
           [Log LogFetchingPlaylists;
            SpotifyGet "/users/me/playlists?limit=50"; Log LogNextPagePlaylists;
            SpotifyGet "/users/me/playlists?offset=50&limit=50";
            Log (LogFetchPlaylistsError Demo.unavailable)]);
    reflexivity.
Defined.

(** ** Token acquisition *)

Ltac auth_unfold :=
  unfold Auth.getSpotifyToken, Auth.authorizeSpotify, Auth.getYouTubeToken,
    Auth.getYouTubeAuthorizationCode, Auth.refreshSpotifyToken,
    Auth.exchangeSpotifyCodeForToken, Auth.getSpotifyAuthorizationCode,
    Auth.isExpired, Auth.saveSpotifyToken, Auth.deleteSpotifyToken,
    Auth.loadSpotifyToken, Auth.saveGoogleToken, Auth.deleteGoogleToken,
    Auth.loadGoogleToken, Auth.getCallbackPort, Auth.getSpotifyCredentials,
    Auth.getGoogleCredentials, Auth.dateNow, Auth.try_catch, Auth.bind,
    Auth.await, Auth.print, Auth.throw, Auth.ret, Auth.config, Auth.update
    in *.

Ltac auth_case :=
  match goal with
  | |- context [match ?x with _ => _ end] =>
      lazymatch x with
      | context [match _ with _ => _ end] => fail
      | _ => destruct x eqn:?
      end
  end.

Ltac auth_cases :=
  repeat (cbn -[Z.eqb Z.leb Z.add Z.mul Js.truthy Js.truthy_opt] in *;
          auth_case).

Section TokenStore.
Context {W : Type} (world : Auth.World W).

(** X18: after [getSpotifyToken] the store holds the token it returned, and
    holds no Spotify token when it threw: an expired token is removed before
    a new authorization is tried, and a new one is saved only when obtained.
    The other keys of the store are never touched. *)
Theorem spotify_token_store_after_call s w :
  let run := Auth.getSpotifyToken world (s, w) in
  match Auth.outcome run with
  | Returned token =>
      fst (Auth.final run) = Auth.set_spotifyToken (Some token) s
  | Thrown _ => fst (Auth.final run) = Auth.set_spotifyToken None s
  | Exited _ => False
  | OutOfFuel => False
  end.
Proof.
  destruct s. cbv zeta. auth_unfold. unfold Auth.outcome, Auth.final.
  auth_cases; try reflexivity.
Qed.

End TokenStore.

(** ** The arithmetic of the expiry time *)

(** Up to [2^53] nothing is rounded. *)
Lemma round_safe z : Double.safe z -> Double.round z = z.
Proof.
  unfold Double.safe, Double.round. intros H. cbv zeta.
  destruct (Z.leb_spec (Z.abs z) Double.limit); [reflexivity | lia].
Qed.

Lemma stamp_safe n seconds :
  Double.safe (seconds * 1000) -> Double.safe (n + seconds * 1000) ->
  Double.add n (Double.mul seconds 1000) = (n + seconds * 1000)%Z.
Proof.
  intros Hmul Hadd. unfold Double.add, Double.mul.
  rewrite (round_safe _ Hmul). apply round_safe, Hadd.
Qed.

(** Beyond [2^53] a sum falls on the nearest double, the even one at a
    tie. *)
Example round_tie_down :
  Double.round 9007199254740993 = 9007199254740992%Z.
Proof. reflexivity. Qed.

Example round_tie_up :
  Double.round 9007199254740995 = 9007199254740996%Z.
Proof. reflexivity. Qed.

Example round_negative :
  Double.round (-18014398509481987) = (-18014398509481988)%Z.
Proof. reflexivity. Qed.

(** A lifetime of 9007199254750 seconds stamped when the clock stands at 1:
    the odd sum is not a double, and the expiry time is the even neighbour
    below. *)
Example stamp_beyond_limit :
  Auth.expires_at
    (Auth.stamp (Auth.mkToken "access" None 9007199254750 "Bearer" "" None) 1)
  = Some 9007199254750000%Z.
Proof. reflexivity. Qed.

Section Tokens.
Context {W : Type} (world : Auth.World W).

(** X19: a stored Spotify token that has no expiry time, or the time 0, or
    a time the clock has not reached, is returned as it is: nothing is asked
    of the outside, the store is not written, and the credentials are not
    looked at (they may be missing). *)
Theorem valid_spotify_token_is_reused s w token :
  Auth.spotifyToken s = Some token ->
  match Auth.expires_at token with
  | Some limit => limit = 0%Z \/ (fst (Auth.now world w) < limit)%Z
  | None => True
  end ->
  exists w',
    Auth.getSpotifyToken world (s, w) =
      (Returned token, (s, w'), [Auth.Print Auth.UsingExistingSpotifyToken]).
Proof.
  intros Hstored Hvalid. auth_unfold. cbn. rewrite Hstored. cbn.
  destruct (Auth.expires_at token) as [limit |]; [| eexists; reflexivity].
  destruct (Z.eqb_spec limit 0) as [-> | Hnz]; [eexists; reflexivity |].
  destruct Hvalid as [H0 | Hlt]; [contradiction |].
  cbn. destruct (Auth.now world w) as [n w1]. cbn in *.
  destruct (Z.leb_spec limit n); [lia |]. eexists. reflexivity.
Qed.

(** X20: when the stored Spotify token has expired and carries a refresh
    token, and the token endpoint answers, the token returned and stored is
    the answer with the old refresh token put back and with an expiry time
    of [expires_in] seconds after the clock read on arrival, as long as the
    milliseconds of [expires_in] and the expiry time stay within [2^53],
    where the doubles of the source add and multiply exactly. *)
Theorem refreshed_spotify_token_keeps_refresh_token
    s w token limit refreshToken clientId clientSecret n w1 answer w2 n' w3 :
  Double.safe (Auth.expires_in answer * 1000) ->
  Double.safe (n' + Auth.expires_in answer * 1000) ->
  Auth.spotifyToken s = Some token ->
  Auth.expires_at token = Some limit ->
  limit <> 0%Z ->
  Auth.now world w = (n, w1) ->
  (limit <= n)%Z ->
  Auth.refresh_token token = Some refreshToken ->
  Js.truthy refreshToken = true ->
  Auth.spotifyClientId s = Some clientId ->
  Js.truthy clientId = true ->
  Auth.spotifyClientSecret s = Some clientSecret ->
  Js.truthy clientSecret = true ->
  Auth.post_refresh world refreshToken clientId clientSecret w1 = (inr answer, w2) ->
  Auth.now world w2 = (n', w3) ->
  let renewed :=
    Auth.mkToken (Auth.access_token answer) (Some refreshToken)
      (Auth.expires_in answer) (Auth.token_type answer) (Auth.scope answer)
      (Some (n' + Auth.expires_in answer * 1000)%Z) in
  Auth.getSpotifyToken world (s, w) =
    (Returned renewed, (Auth.set_spotifyToken (Some renewed) s, w3),
     [Auth.Print Auth.AttemptingSpotifyRefresh;
      Auth.Print Auth.RefreshingSpotifyToken;
      Auth.SpotifyRefresh refreshToken;
      Auth.Print Auth.SpotifyTokenRefreshed;
      Auth.Print Auth.SpotifyTokenSaved]).
Proof.
  intros Hmul Hadd Hstored Hat Hnz Hnow Hle Hrt Hrtt Hid Hidt Hsec Hsect Hpost
    Hnow'.
  cbv zeta. rewrite <- (stamp_safe _ _ Hmul Hadd).
  auth_unfold. cbn -[Double.add Double.mul]. rewrite Hstored.
  cbn -[Double.add Double.mul]. rewrite Hat.
  destruct (Z.eqb_spec limit 0) as [| _]; [contradiction |].
  cbn -[Double.add Double.mul]. rewrite Hnow. cbn -[Double.add Double.mul].
  destruct (Z.leb_spec limit n); [| lia].
  rewrite Hrt, Hrtt. cbn -[Double.add Double.mul].
  rewrite Hid, Hsec, Hidt, Hsect. cbn -[Double.add Double.mul].
  rewrite Hpost. cbn -[Double.add Double.mul]. rewrite Hnow'. reflexivity.
Qed.

(** X21: when the stored Spotify token has expired and the token endpoint
    refuses the refresh, [getSpotifyToken] does not throw the refusal: it
    removes the stored token and goes on as the authorization from scratch
    goes, from the store without token. *)
Theorem failed_spotify_refresh_starts_authorization
    s w token limit refreshToken clientId clientSecret n w1 cause w2 :
  Auth.spotifyToken s = Some token ->
  Auth.expires_at token = Some limit ->
  limit <> 0%Z ->
  Auth.now world w = (n, w1) ->
  (limit <= n)%Z ->
  Auth.refresh_token token = Some refreshToken ->
  Js.truthy refreshToken = true ->
  Auth.spotifyClientId s = Some clientId ->
  Js.truthy clientId = true ->
  Auth.spotifyClientSecret s = Some clientSecret ->
  Js.truthy clientSecret = true ->
  Auth.post_refresh world refreshToken clientId clientSecret w1 = (inl cause, w2) ->
  let again :=
    Auth.authorizeSpotify world
      (Auth.or_default (Auth.callbackPort s) 8888%Z)
      (Auth.set_spotifyToken None s, w2) in
  Auth.getSpotifyToken world (s, w) =
    (Auth.outcome again, Auth.final again,
     [Auth.Print Auth.AttemptingSpotifyRefresh;
      Auth.Print Auth.RefreshingSpotifyToken;
      Auth.SpotifyRefresh refreshToken;
      Auth.Print (Auth.ErrorRefreshingSpotifyToken cause);
      Auth.Print (Auth.SpotifyRefreshFailed
                    (newError
                       "Could not refresh Spotify token. Please re-authenticate."));
      Auth.Print Auth.SpotifyTokenDeleted]
     ++ Auth.events again).
Proof.
  intros Hstored Hat Hnz Hnow Hle Hrt Hrtt Hid Hidt Hsec Hsect Hpost.
  cbv zeta.
  unfold Auth.getSpotifyToken, Auth.isExpired, Auth.refreshSpotifyToken,
    Auth.saveSpotifyToken, Auth.deleteSpotifyToken, Auth.loadSpotifyToken,
    Auth.getCallbackPort, Auth.getSpotifyCredentials, Auth.dateNow.
  unfold Auth.try_catch, Auth.bind at 1 2 3 4 5 6 7 8 9.
  unfold Auth.config, Auth.ret, Auth.print. cbn -[Auth.authorizeSpotify].
  rewrite Hstored. cbn -[Auth.authorizeSpotify]. rewrite Hat.
  destruct (Z.eqb_spec limit 0) as [| _]; [contradiction |].
  cbn -[Auth.authorizeSpotify]. rewrite Hnow. cbn -[Auth.authorizeSpotify].
  destruct (Z.leb_spec limit n); [| lia].
  rewrite Hrt, Hrtt. cbn -[Auth.authorizeSpotify]. rewrite Hid, Hsec, Hidt, Hsect. cbn -[Auth.authorizeSpotify].
  unfold Auth.await, Auth.bind, Auth.throw, Auth.update, Auth.print. cbn -[Auth.authorizeSpotify].
  rewrite Hpost. cbn -[Auth.authorizeSpotify].
  match goal with
  | |- context [Auth.authorizeSpotify world ?port ?st] =>
      destruct (Auth.authorizeSpotify world port st) as [[o s2] t2]
  end.
  reflexivity.
Qed.

End Tokens.

Section GoogleTokens.
Context {W : Type} (world : Auth.World W).

(** X22: when the stored Google token has expired and the library cannot
    refresh it, [getYouTubeToken] removes the stored token and throws; unlike
    [getSpotifyToken] it does not start an authorization: nothing else is
    asked of the outside. *)
Theorem failed_google_refresh_throws s w token limit n w1 cause w2 :
  Js.truthy_opt (Auth.googleClientId s) = true ->
  Js.truthy_opt (Auth.googleClientSecret s) = true ->
  Js.truthy (Auth.or_default (Auth.googleRedirectUri s)
               Auth.defaultGoogleRedirectUri) = true ->
  Auth.googleToken s = Some token ->
  Auth.expiry_date token = Some limit ->
  limit <> 0%Z ->
  Auth.now world w = (n, w1) ->
  (limit <= n)%Z ->
  Auth.refreshAccessToken world (Auth.mkOAuth2Client (Some token)) w1
    = (inl cause, w2) ->
  Auth.getYouTubeToken world (s, w) =
    (Thrown (newError "Failed to refresh Google token. Please re-authenticate."),
     (Auth.set_googleToken None s, w2),
     [Auth.Print Auth.UsingExistingGoogleToken;
      Auth.Print Auth.GoogleTokenMightBeExpired;
      Auth.GoogleRefresh;
      Auth.Print (Auth.ErrorRefreshingGoogleToken (message cause));
      Auth.Print Auth.GoogleTokenDeleted]).
Proof.
  intros Hid Hsec Huri Hstored Hat Hnz Hnow Hle Hrefresh.
  auth_unfold. cbn -[Auth.defaultGoogleRedirectUri].
  rewrite Hid, Hsec, Huri. cbn. rewrite Hstored. cbn. rewrite Hat.
  destruct (Z.eqb_spec limit 0) as [| _]; [contradiction |].
  cbn. rewrite Hnow. cbn.
  destruct (Z.leb_spec limit n); [| lia].
  cbn. rewrite Hrefresh. reflexivity.
Qed.

(** X23: [getYouTubeToken] looks at the credentials before anything else:
    when the client id, the client secret or the redirect URI is missing or
    empty it throws without reading the stored token, asking anything or
    writing the store, be the stored token still valid. *)
Theorem google_credentials_are_checked_first s w :
  Js.truthy_opt (Auth.googleClientId s) = false
  \/ Js.truthy_opt (Auth.googleClientSecret s) = false
  \/ Js.truthy (Auth.or_default (Auth.googleRedirectUri s)
                  Auth.defaultGoogleRedirectUri) = false ->
  Auth.getYouTubeToken world (s, w) =
    (Thrown (newError "Google API credentials missing. Run configuration setup."),
     (s, w), []).
Proof.
  intros H. auth_unfold. cbn -[Auth.defaultGoogleRedirectUri].
  assert (Hc : negb (Js.truthy_opt (Auth.googleClientId s))
               || negb (Js.truthy_opt (Auth.googleClientSecret s))
               || negb (Js.truthy (Auth.or_default (Auth.googleRedirectUri s)
                                     Auth.defaultGoogleRedirectUri)) = true).
  { destruct H as [-> | [-> | ->]]; cbn;
      rewrite ?orb_true_r; reflexivity. }
  rewrite Hc. reflexivity.
Qed.

(** X24: the client [getYouTubeToken] returns carries credentials, and
    they are the Google token the store holds afterwards; no other key of the
    store has changed. *)
Theorem returned_google_client_carries_stored_token s w :
  let run := Auth.getYouTubeToken world (s, w) in
  match Auth.outcome run with
  | Returned client =>
      Auth.credentials client = Auth.googleToken (fst (Auth.final run))
      /\ fst (Auth.final run) = Auth.set_googleToken (Auth.credentials client) s
      /\ match Auth.credentials client with Some _ => True | None => False end
  | Thrown _ => True
  | Exited _ => False
  | OutOfFuel => False
  end.
Proof.
  destruct s. cbv zeta. auth_unfold. unfold Auth.outcome, Auth.final.
  auth_cases; cbn; repeat split; auto.
Qed.

End GoogleTokens.

(** The clock stands at 5000; the stored token expires at 9000. *)
Lemma valid_spotify_token_is_reused_witness :
  exists w',
    Auth.getSpotifyToken (Auth.world 5000 false)
      ((Auth.bare (Some (Auth.old (Some "r1") (Some 9000%Z))) None), tt) =
      (Returned (Auth.old (Some "r1") (Some 9000%Z)),
       ((Auth.bare (Some (Auth.old (Some "r1") (Some 9000%Z))) None), w'),
       [Auth.Print Auth.UsingExistingSpotifyToken]).
Proof.
  apply (valid_spotify_token_is_reused (Auth.world 5000 false)
           (Auth.bare (Some (Auth.old (Some "r1") (Some 9000%Z))) None) tt
           (Auth.old (Some "r1") (Some 9000%Z)) eq_refl).
  right. reflexivity.
Defined.

(** The stored token expired at 9000, the clock stands at 10000 and the
    endpoint answers: the refresh token "r1" is kept. *)
Lemma refreshed_spotify_token_keeps_refresh_token_witness :
  let renewed :=
    Auth.mkToken "new-access" (Some "r1") 3600 "Bearer" "playlist-read-private"
      (Some 3610000%Z) in
  Auth.getSpotifyToken (Auth.world 10000 true)
    (Auth.configured (Some (Auth.old (Some "r1") (Some 9000%Z))) None, tt) =
    (Returned renewed, (Auth.configured (Some renewed) None, tt),
     [Auth.Print Auth.AttemptingSpotifyRefresh;
      Auth.Print Auth.RefreshingSpotifyToken;
      Auth.SpotifyRefresh "r1";
      Auth.Print Auth.SpotifyTokenRefreshed;
      Auth.Print Auth.SpotifyTokenSaved]).
Proof.
  apply (refreshed_spotify_token_keeps_refresh_token (Auth.world 10000 true)
           (Auth.configured (Some (Auth.old (Some "r1") (Some 9000%Z))) None)
           tt (Auth.old (Some "r1") (Some 9000%Z)) 9000 "r1" "spotify-app"
           "spotify-secret" 10000 tt Auth.fresh tt 10000 tt);
    try reflexivity; try discriminate;
    try (unfold Double.safe, Double.limit; simpl; lia); lia.
Defined.

(** The endpoint refuses the refresh: the old token is removed, and the
    authorization from scratch gives a new one, without refresh token. *)
Lemma failed_spotify_refresh_starts_authorization_witness :
  let obtained :=
    Auth.mkToken "new-access" None 3600 "Bearer" "playlist-read-private"
      (Some 3610000%Z) in
  Auth.getSpotifyToken (Auth.world 10000 false)
    (Auth.configured (Some (Auth.old (Some "r1") (Some 9000%Z))) None, tt) =
    (Returned obtained, (Auth.configured (Some obtained) None, tt),
     [Auth.Print Auth.AttemptingSpotifyRefresh;
      Auth.Print Auth.RefreshingSpotifyToken;
      Auth.SpotifyRefresh "r1";
      Auth.Print (Auth.ErrorRefreshingSpotifyToken Auth.down);
      Auth.Print (Auth.SpotifyRefreshFailed
                    (newError
                       "Could not refresh Spotify token. Please re-authenticate."));
      Auth.Print Auth.SpotifyTokenDeleted;
      Auth.Print Auth.NoValidSpotifyToken;
      Auth.Print Auth.PleaseAuthorizeSpotify;
      Auth.SpotifyAuthorize 8888;
      Auth.SpotifyExchange "code-1" "http://localhost:8888/spotify-callback";
      Auth.Print Auth.SpotifyTokenSaved]).
Proof.
  cbv zeta.
  rewrite (failed_spotify_refresh_starts_authorization (Auth.world 10000 false)
             (Auth.configured (Some (Auth.old (Some "r1") (Some 9000%Z))) None)
             tt (Auth.old (Some "r1") (Some 9000%Z)) 9000 "r1" "spotify-app"
             "spotify-secret" 10000 tt Auth.down tt
             eq_refl eq_refl ltac:(discriminate) eq_refl ltac:(lia)
             eq_refl eq_refl eq_refl eq_refl eq_refl eq_refl eq_refl).
  reflexivity.
Defined.

(** The stored Google token expired at 9000 and cannot be refreshed. *)
Lemma failed_google_refresh_throws_witness :
  Auth.getYouTubeToken (Auth.world 10000 true)
    (Auth.configured None
       (Some (Auth.mkCredentials (Some "g") (Some "gr") (Some 9000%Z))), tt) =
    (Thrown (newError "Failed to refresh Google token. Please re-authenticate."),
     (Auth.configured None None, tt),
     [Auth.Print Auth.UsingExistingGoogleToken;
      Auth.Print Auth.GoogleTokenMightBeExpired;
      Auth.GoogleRefresh;
      Auth.Print (Auth.ErrorRefreshingGoogleToken
                    "Request failed with status code 400");
      Auth.Print Auth.GoogleTokenDeleted]).
Proof.
  apply (failed_google_refresh_throws (Auth.world 10000 true)
           (Auth.configured None
              (Some (Auth.mkCredentials (Some "g") (Some "gr") (Some 9000%Z))))
           tt (Auth.mkCredentials (Some "g") (Some "gr") (Some 9000%Z))
           9000 10000 tt Auth.down tt);
    try reflexivity; try discriminate; lia.
Defined.

(** A Google token without expiry date is stored, the credentials are
    gone. *)
Lemma google_credentials_are_checked_first_witness :
  Auth.getYouTubeToken (Auth.world 10000 true)
    (Auth.bare None (Some (Auth.mkCredentials (Some "g") (Some "gr") None)), tt) =
    (Thrown (newError "Google API credentials missing. Run configuration setup."),
     (Auth.bare None (Some (Auth.mkCredentials (Some "g") (Some "gr") None)), tt),
     []).
Proof.
  apply (google_credentials_are_checked_first (Auth.world 10000 true)
           (Auth.bare None (Some (Auth.mkCredentials (Some "g") (Some "gr") None)))
           tt).
  left. reflexivity.
Defined.

(** ** The configure command and the parser's arguments *)

Section Configure.
Context {W : Type} (world : Auth.World W).

(** X25: the configure command writes all seven settings or none: when
    one of the two client ids or the two client secrets is answered empty,
    it prints an error and leaves the store as it was; otherwise the seven
    keys hold the answers.  In both cases the stored tokens and the scopes
    stay: tokens obtained with the old credentials survive. *)
Theorem configure_saves_all_or_nothing s w answers w1 :
  Auth.ask world
    (Auth.mkDefaults (Auth.spotifyClientId s) (Auth.spotifyClientSecret s)
       (Auth.or_default (Auth.spotifyRedirectUri s)
          Auth.defaultSpotifyRedirectUri)
       (Auth.googleClientId s) (Auth.googleClientSecret s)
       (Auth.or_default (Auth.googleRedirectUri s)
          Auth.defaultGoogleRedirectUri)
       (Auth.or_default (Auth.callbackPort s) 8888%Z)) w
    = (inr answers, w1) ->
  let complete :=
    Js.truthy (Auth.a_spotifyClientId answers)
    && Js.truthy (Auth.a_spotifyClientSecret answers)
    && Js.truthy (Auth.a_googleClientId answers)
    && Js.truthy (Auth.a_googleClientSecret answers) in
  Auth.configure world (s, w) =
    (Returned tt,
     (if complete
      then Auth.mkStore
             (Some (Auth.a_spotifyClientId answers))
             (Some (Auth.a_spotifyClientSecret answers))
             (Some (Auth.a_spotifyRedirectUri answers))
             (Auth.spotifyScopes s) (Auth.spotifyToken s)
             (Some (Auth.a_googleClientId answers))
             (Some (Auth.a_googleClientSecret answers))
             (Some (Auth.a_googleRedirectUri answers))
             (Auth.googleScopes s) (Auth.googleToken s)
             (Some (Auth.a_callbackPort answers))
      else s,
      w1),
     [Auth.Print Auth.CredentialSetup; Auth.Print Auth.CredentialsNeeded;
      Auth.Print Auth.RedirectUrisMustMatch; Auth.Ask]
     ++ (if complete
         then [Auth.Print Auth.ConfigurationSaved; Auth.Print Auth.UseResetAuth;
               Auth.Print Auth.ConfigFileLocation]
         else [Auth.Print Auth.AllIdsAndSecretsRequired])).
Proof.
  intros Hask. cbv zeta.
  unfold Auth.configure, Auth.bind, Auth.await, Auth.print, Auth.config,
    Auth.update. cbn -[Auth.defaultSpotifyRedirectUri Auth.defaultGoogleRedirectUri].
  rewrite Hask.
  destruct (Js.truthy (Auth.a_spotifyClientId answers)),
    (Js.truthy (Auth.a_spotifyClientSecret answers)),
    (Js.truthy (Auth.a_googleClientId answers)),
    (Js.truthy (Auth.a_googleClientSecret answers)); reflexivity.
Qed.

End Configure.

(** The store holds a Spotify token; the prompt answers with an empty
    Spotify client id when none is configured, and with the configured one
    otherwise. *)
Lemma configure_saves_all_or_nothing_witness :
  Auth.final (Auth.configure (Auth.world 0 true)
                (Auth.bare (Some Auth.fresh) None, tt))
    = (Auth.bare (Some Auth.fresh) None, tt)
  /\ Auth.final (Auth.configure (Auth.world 0 true)
                   (Auth.configured (Some Auth.fresh) None, tt))
     = (Auth.mkStore (Some "spotify-app") (Some "typed-secret")
          (Some "http://localhost:8888/spotify-callback") None
          (Some Auth.fresh) (Some "typed-google") (Some "typed-google-secret")
          (Some "http://localhost:8888/youtube-callback") None None
          (Some 8888%Z), tt).
Proof.
  split.
  - rewrite (configure_saves_all_or_nothing (Auth.world 0 true)
               (Auth.bare (Some Auth.fresh) None) tt _ tt eq_refl).
    reflexivity.
  - rewrite (configure_saves_all_or_nothing (Auth.world 0 true)
               (Auth.configured (Some Auth.fresh) None) tt _ tt eq_refl).
    reflexivity.
Defined.

(** X26: the parser is handed the arguments of the process as they are,
    with ["--help"] appended when no argument follows the script; the test
    for a first argument that names no registered command changes nothing:
    such arguments are passed on unchanged. *)
Theorem parser_gets_help_only_without_arguments commands argv :
  parsedArgs commands argv =
    if (length argv <=? 2)%nat then argv ++ ["--help"] else argv.
Proof.
  unfold parsedArgs.
  destruct (length argv <=? 2)%nat; [reflexivity |].
  cbn [orb].
  destruct ((2 <? length argv)%nat
            && negb (existsb (fun c => String.eqb c (nth 2 argv "")) commands));
    reflexivity.
Qed.

Example unknown_command_is_passed_on :
  parsedArgs commandNames ["node"; "cli.js"; "bogus"; "--all"]
  = ["node"; "cli.js"; "bogus"; "--all"].
Proof. reflexivity. Qed.

Example no_command_asks_for_help :
  parsedArgs commandNames ["node"; "cli.js"] = ["node"; "cli.js"; "--help"].
Proof. reflexivity. Qed.
